(** * Mission Impossible: the signalling relay and its client, in Rocq

    A shallow embedding of [server/index.js] (the WebSocket relay: room
    registry and message router) and of the protocol half of [src/App.tsx]
    (negotiation and playback synchronisation), with the properties the
    specification states about them.

    Conventions of the embedding.
    - A frame is represented by what [JSON.parse] makes of it: either the
      syntax error it throws or the value it returns; the text of a frame
      is not represented.  Envelopes that are sent are represented by the
      value a receiver decodes, that is the object literal handed to
      [JSON.stringify] without the properties whose value is [undefined]
      and with [null] for every number that is not finite.
    - A JavaScript exception is a value of the monad; [try]/[catch] is a
      combinator.  Assignments made before a [throw] persist, as in the
      source.
    - Handlers run to completion, one at a time (the event loop); an
      [await] is a point where the awaited call returns or throws.
    - The media plane (tracks, video elements) and the page layout are
      outside the embedding. *)

From stdpp Require Import base strings list gmap pretty.
From Stdlib Require Import Ascii NArith ZArith Lia.

Set Default Proof Using "Type".
Set Warnings "-register-all,-clear-no-such-hyp".

(* ===================================================================== *)
(** * JavaScript values as the relay sees them *)
(* ===================================================================== *)

Module Js.

(** The values [JSON.parse] returns.  A number is carried by its canonical
    rendering ([String(n)], which for a finite number is also what
    [JSON.stringify] writes; a literal beyond the range of a double is
    the number rendered [Infinity]); no arithmetic is done on numbers by
    the relay.  The fields of an
    object are listed in enumeration order; a property read takes the
    first match. *)
Inductive json : Type :=
| JNull
| JBool (b : bool)
| JNum (repr : string)
| JStr (s : string)
| JArr (elems : list json)
| JObj (fields : list (string * json)).

(** A JavaScript value that may be [undefined] ([None]). *)
Definition jsval : Type := option json.

Inductive exn : Type :=
| SyntaxError (message : string)
| TypeError (message : string)
| DOMException (message : string).

Definition exn_message (e : exn) : string :=
  match e with
  | SyntaxError m | TypeError m | DOMException m => m
  end.

Inductive outcome (A : Type) : Type :=
| Ok (a : A)
| Throw (e : exn).
Arguments Ok {A} a.
Arguments Throw {A} e.

(** Own property of an object built by [JSON.parse]. *)
Fixpoint assoc (name : string) (fields : list (string * json)) : jsval :=
  match fields with
  | [] => None
  | (k, v) :: rest => if String.eqb k name then Some v else assoc name rest
  end.

(** [v.name] for the property names the programs read ([type], [room],
    [user], [key], [payload], [action], [time], [videoId], [sdp],
    [candidate]): none of them exists on a prototype, so the read is an
    own-property read on an object, [undefined] on any other value, and a
    [TypeError] on [null] and [undefined]. *)
Definition get (v : jsval) (name : string) : outcome jsval :=
  match v with
  | None =>
      Throw (TypeError ("Cannot read properties of undefined (reading '" +:+ name +:+ "')"))
  | Some JNull =>
      Throw (TypeError ("Cannot read properties of null (reading '" +:+ name +:+ "')"))
  | Some (JObj fields) => Ok (assoc name fields)
  | Some _ => Ok None
  end.

(** [v === 'lit'] *)
Definition is_str (v : jsval) (lit : string) : bool :=
  match v with
  | Some (JStr s) => String.eqb s lit
  | _ => false
  end.

(** ToBoolean *)
Definition truthy (v : jsval) : bool :=
  match v with
  | None | Some JNull => false
  | Some (JBool b) => b
  | Some (JNum r) => negb (String.eqb r "0")
  | Some (JStr s) => negb (String.eqb s "")
  | Some (JArr _) | Some (JObj _) => true
  end.

(** ToString of a parsed value, as used when a value is a property key.
    An array joins its elements with commas ([null] renders empty); a
    plain object renders as [[object Object]] unless it has an own
    [toString] property, which after [JSON.parse] is never callable, so
    the conversion throws. *)
Fixpoint ToString (v : json) : outcome string :=
  match v with
  | JNull => Ok "null"
  | JBool true => Ok "true"
  | JBool false => Ok "false"
  | JNum r => Ok r
  | JStr s => Ok s
  | JArr elems =>
      (fix join (l : list json) : outcome string :=
         match l with
         | [] => Ok ""
         | [x] => match x with JNull => Ok "" | _ => ToString x end
         | x :: rest =>
             match (match x with JNull => Ok "" | _ => ToString x end) with
             | Throw e => Throw e
             | Ok s =>
                 match join rest with
                 | Throw e => Throw e
                 | Ok t => Ok (s +:+ "," +:+ t)
                 end
             end
         end) elems
  | JObj fields =>
      match assoc "toString" fields with
      | Some _ => Throw (TypeError "Cannot convert object to primitive value")
      | None => Ok "[object Object]"
      end
  end.

Definition ToPropertyKey (v : jsval) : outcome string :=
  match v with
  | None => Ok "undefined"
  | Some j => ToString j
  end.

(** Is the number rendered [repr] finite?  [JSON.parse] returns
    [Infinity] and [-Infinity] for literals beyond the range of a double
    ([1e999]); a player may also report [NaN]. *)
Definition finite (repr : string) : bool :=
  negb (String.eqb repr "Infinity" || String.eqb repr "-Infinity" || String.eqb repr "NaN").

(** What a receiver decodes from [JSON.stringify(v)]: the value itself,
    except that [JSON.stringify] writes [null] for a number that is not
    finite, wherever it occurs in [v]. *)
Fixpoint wire (v : json) : json :=
  match v with
  | JNum repr => if finite repr then JNum repr else JNull
  | JArr elems => JArr (map wire elems)
  | JObj fields => JObj (map (λ kv, (kv.1, wire kv.2)) fields)
  | JNull | JBool _ | JStr _ => v
  end.

(** Does [v] hold finite numbers only?  Such a value is decoded as it
    was written. *)
Fixpoint all_finite (v : json) : bool :=
  match v with
  | JNum repr => finite repr
  | JArr elems => forallb all_finite elems
  | JObj fields => forallb (λ kv, all_finite kv.2) fields
  | JNull | JBool _ | JStr _ => true
  end.

(** [JSON.stringify] of an object literal, as a receiver decodes it:
    properties whose value is [undefined] are left out, and each value
    goes through [wire]. *)
Definition JSON_stringify (literal : list (string * jsval)) : json :=
  JObj (omap (λ kv, match kv.2 with Some v => Some (kv.1, wire v) | None => None end)
          literal).

(** A frame, as [JSON.parse] sees it. *)
Inductive inbound : Type :=
| Malformed (syntax_error : string)
| Wellformed (data : json).

Definition JSON_parse (message : inbound) : outcome jsval :=
  match message with
  | Malformed m => Throw (SyntaxError m)
  | Wellformed data => Ok (Some data)
  end.

(** ** Handlers: state and exceptions

    A handler transforms the state it closes over and either completes or
    throws; what it changed before throwing stays changed. *)
Definition Eff (S A : Type) : Type := S → outcome A * S.

#[export] Instance Eff_ret {S} : MRet (Eff S) := λ A a c, (Ok a, c).
#[export] Instance Eff_bind {S} : MBind (Eff S) := λ A B f m c,
  match m c with
  | (Ok a, c') => f a c'
  | (Throw e, c') => (Throw e, c')
  end.

Definition throw {S A} (e : exn) : Eff S A := λ c, (Throw e, c).
Definition lift {S A} (o : outcome A) : Eff S A := λ c, (o, c).
Definition gets {S A} (f : S → A) : Eff S A := λ c, (Ok (f c), c).
Definition modify {S} (f : S → S) : Eff S unit := λ c, (Ok tt, f c).

(** [try { body } catch (e) { handler }] *)
Definition try_catch {S} (body : Eff S unit) (handler : exn → Eff S unit) : Eff S unit := λ c,
  match body c with
  | (Ok tt, c') => (Ok tt, c')
  | (Throw e, c') => handler e c'
  end.

(** [l.forEach(f)] *)
Fixpoint forEach {S A} (f : A → Eff S unit) (l : list A) : Eff S unit :=
  match l with
  | [] => mret tt
  | x :: rest => f x ;; forEach f rest
  end.

End Js.

(* ===================================================================== *)
(** * The relay: [server/index.js] *)
(* ===================================================================== *)

Module Server.
Import Js.

(** ** Node's [Buffer.from(value, 'hex')]

    The relay builds a Buffer from the declared key and never reads it
    again.  A string is decoded pair by pair up to the first pair that is
    not hexadecimal; an array, an array-like object and the JSON form of a
    Buffer are accepted and kept symbolically; anything else is a
    [TypeError].  Running out of memory is not modelled. *)

Definition hex_digit (c : ascii) : option N :=
  let n := N_of_ascii c in
  if ((48 <=? n) && (n <=? 57))%N then Some (n - 48)%N
  else if ((97 <=? n) && (n <=? 102))%N then Some (n - 87)%N
  else if ((65 <=? n) && (n <=? 70))%N then Some (n - 55)%N
  else None.

Fixpoint hex_decode (s : string) : list N :=
  match s with
  | String c1 (String c2 rest) =>
      match hex_digit c1, hex_digit c2 with
      | Some hi, Some lo => (16 * hi + lo)%N :: hex_decode rest
      | _, _ => []
      end
  | _ => []
  end.

Inductive Buffer : Type :=
| Bytes (bytes : list N)
| ArrayLike (source : json).

Definition invalid_arg : exn :=
  TypeError "The first argument must be of type string or an instance of Buffer, ArrayBuffer, or Array or an Array-like Object.".

Definition Buffer_from_object (fields : list (string * json)) : outcome Buffer :=
  match assoc "length" fields with
  | Some (JNum _) => Ok (ArrayLike (JObj fields))
  | Some _ => Ok (Bytes [])
  | None =>
      match assoc "type" fields, assoc "data" fields with
      | Some (JStr "Buffer"), Some (JArr elems) => Ok (ArrayLike (JArr elems))
      | _, _ => Throw invalid_arg
      end
  end.

Definition Buffer_from (value : jsval) : outcome Buffer :=
  match value with
  | Some (JStr s) => Ok (Bytes (hex_decode s))
  | Some (JArr elems) => Ok (ArrayLike (JArr elems))
  | Some (JObj fields) =>
      match assoc "valueOf" fields with
      | Some (JStr "") => Ok (Bytes [])
      | Some v =>
          if truthy (Some v) then Throw (TypeError "value.valueOf is not a function")
          else Buffer_from_object fields
      | None => Buffer_from_object fields
      end
  | _ => Throw invalid_arg
  end.

(** ** The registry and the variables of a connection *)

(** A connection is the [ws] object of one [connection] event; objects are
    compared by identity, so a handle is a number that is never reused. *)
Abbreviation conn := nat.

(** An element of [rooms[roomId]]: [{ ws, userId, key }]. *)
Record peer : Type := Peer {
  peer_ws : conn;
  peer_userId : jsval;
  peer_key : Buffer;
}.

(** [let roomId, userId, key;] of one connection's closure. *)
Record vars : Type := Vars {
  roomId : jsval;
  userId : jsval;
  key : option Buffer;
}.

Definition fresh_vars : vars := Vars None None None.

(** What a handler works on: the global [rooms] object (its own
    properties), the variables of its connection, and the calls to
    [send] made so far, oldest first. *)
Record ctx : Type := Ctx {
  rooms : gmap string (list peer);
  locals : vars;
  sent : list (conn * json);
}.

(** The names every object inherits from [Object.prototype]; [rooms] is
    the literal [{}], so reading one of them from it gives a function (or
    the prototype itself), which is truthy and has neither [push],
    [forEach] nor [filter]. *)
Definition Object_prototype : list string :=
  [ "constructor"; "__defineGetter__"; "__defineSetter__"; "hasOwnProperty";
    "__lookupGetter__"; "__lookupSetter__"; "isPrototypeOf";
    "propertyIsEnumerable"; "toString"; "valueOf"; "__proto__";
    "toLocaleString" ].

Inductive slot : Type :=
| Own (peers : list peer)
| Inherited
| Absent.

Definition rooms_get (r : gmap string (list peer)) (k : string) : slot :=
  match r !! k with
  | Some peers => Own peers
  | None => if bool_decide (k ∈ Object_prototype) then Inherited else Absent
  end.

(** ** The handlers *)

Abbreviation M := (Eff ctx).

Definition get_rooms : M (gmap string (list peer)) := gets rooms.
Definition set_rooms (r : gmap string (list peer)) : M unit :=
  modify (λ c, Ctx r (locals c) (sent c)).
Definition get_locals : M vars := gets locals.
Definition set_locals (v : vars) : M unit :=
  modify (λ c, Ctx (rooms c) v (sent c)).

(** [target.send(JSON.stringify(literal))].  The call is recorded; what the
    transport does with it is not the relay's business, and the call
    itself does not throw (the sockets of a room have all been open). *)
Definition send (target : conn) (literal : list (string * jsval)) : M unit :=
  modify (λ c, Ctx (rooms c) (locals c) (sent c ++ [(target, JSON_stringify literal)])).

(** [rooms[roomId]]: the key conversion can throw. *)
Definition rooms_at (id : jsval) : M (string * slot) :=
  k ← lift (ToPropertyKey id);
  r ← get_rooms;
  mret (k, rooms_get r k).

(** [rooms[roomId] || []], then [.forEach]: an inherited property is
    truthy but has no [forEach]. *)
Definition peers_or_empty (id : jsval) : M (list peer) :=
  '(_, s) ← rooms_at id;
  match s with
  | Own peers => mret peers
  | Absent => mret []
  | Inherited => throw (TypeError "peers.forEach is not a function")
  end.

(** The body of the [try] block of [ws.on('message')]. *)
Definition message_body (ws : conn) (message : inbound) : M unit :=
  data ← lift (JSON_parse message);
  type ← lift (get data "type");
  if is_str type "join" then
    room ← lift (get data "room");
    v ← get_locals; set_locals (Vars room (userId v) (key v));;
    user ← lift (get data "user");
    v ← get_locals; set_locals (Vars (roomId v) user (key v));;
    k ← lift (get data "key");
    buf ← lift (Buffer_from k);
    v ← get_locals; set_locals (Vars (roomId v) (userId v) (Some buf));;
    '(name, s) ← rooms_at room;
    (match s with
     | Absent => r ← get_rooms; set_rooms (<[name := []]> r)
     | _ => mret tt
     end);;
    '(name, s) ← rooms_at room;
    (match s with
     | Own peers => r ← get_rooms; set_rooms (<[name := peers ++ [Peer ws user buf]]> r)
     | _ => throw (TypeError "rooms[roomId].push is not a function")
     end);;
    send ws [("type", Some (JStr "joined")); ("room", room)]
  else if is_str type "signal" then
    v ← get_locals;
    peers ← peers_or_empty (roomId v);
    forEach (λ p,
      if bool_decide (peer_ws p ≠ ws) then
        payload ← lift (get data "payload");
        send (peer_ws p)
          [("type", Some (JStr "signal")); ("from", userId v); ("payload", payload)]
      else mret tt) peers
  else if is_str type "yt-sync" then
    v ← get_locals;
    peers ← peers_or_empty (roomId v);
    forEach (λ p,
      if bool_decide (peer_ws p ≠ ws) then
        action ← lift (get data "action");
        time ← lift (get data "time");
        videoId ← lift (get data "videoId");
        send (peer_ws p)
          [("type", Some (JStr "yt-sync")); ("action", action);
           ("time", time); ("videoId", videoId)]
      else mret tt) peers
  else mret tt.

(** [ws.on('message', ...)]: the body, and the [catch] that reports the
    exception's message to the sender. *)
Definition on_message (ws : conn) (message : inbound) : M unit :=
  try_catch (message_body ws message)
    (λ e, send ws [("type", Some (JStr "error")); ("message", Some (JStr (exn_message e)))]).

(** [ws.on('close', ...)]; nothing catches what it throws. *)
Definition on_close (ws : conn) : M unit :=
  v ← get_locals;
  if truthy (roomId v) then
    '(name, s) ← rooms_at (roomId v);
    match s with
    | Absent => mret tt
    | Inherited => throw (TypeError "rooms[roomId].filter is not a function")
    | Own peers =>
        let kept := filter (λ p, peer_ws p ≠ ws) peers in
        r ← get_rooms; set_rooms (<[name := kept]> r);;
        if bool_decide (length kept = 0) then
          r ← get_rooms; set_rooms (delete name r)
        else mret tt
    end
  else mret tt.

(** ** The process: connections come, speak and go *)

Record state : Type := State {
  st_rooms : gmap string (list peer);
  st_conns : gmap conn vars;
  st_next : conn;
}.

Definition initial : state := State ∅ ∅ 0.

Inductive event : Type :=
| Connection
| Message (ws : conn) (message : inbound)
| Close (ws : conn).

(** An exception that leaves the [close] listener is uncaught: the
    process dies. *)
Inductive server : Type :=
| Running (st : state)
| Crashed (e : exn).

Definition step (st : state) (ev : event) : server * list (conn * json) :=
  match ev with
  | Connection =>
      (Running (State (st_rooms st) (<[st_next st := fresh_vars]> (st_conns st))
                  (S (st_next st))), [])
  | Message ws message =>
      match st_conns st !! ws with
      | None => (Running st, [])
      | Some v =>
          let c := (on_message ws message (Ctx (st_rooms st) v [])).2 in
          (Running (State (rooms c) (<[ws := locals c]> (st_conns st)) (st_next st)),
           sent c)
      end
  | Close ws =>
      match st_conns st !! ws with
      | None => (Running st, [])
      | Some v =>
          match on_close ws (Ctx (st_rooms st) v []) with
          | (Ok _, c) =>
              (Running (State (rooms c) (delete ws (st_conns st)) (st_next st)), sent c)
          | (Throw e, c) => (Crashed e, sent c)
          end
      end
  end.

Fixpoint run (st : state) (evs : list event) : server * list (conn * json) :=
  match evs with
  | [] => (Running st, [])
  | ev :: rest =>
      match step st ev with
      | (Running st', out) =>
          let '(final, out') := run st' rest in (final, out ++ out')
      | (Crashed e, out) => (Crashed e, out)
      end
  end.

(** The envelopes of the relay. *)
Definition joined_envelope (room : jsval) : json :=
  JSON_stringify [("type", Some (JStr "joined")); ("room", room)].
Definition error_envelope (message : string) : json :=
  JSON_stringify [("type", Some (JStr "error")); ("message", Some (JStr message))].
Definition signal_envelope (from payload : jsval) : json :=
  JSON_stringify [("type", Some (JStr "signal")); ("from", from); ("payload", payload)].
Definition yt_sync_envelope (action time videoId : jsval) : json :=
  JSON_stringify [("type", Some (JStr "yt-sync")); ("action", action);
                  ("time", time); ("videoId", videoId)].

(** What the relay forwards for a [signal] or [yt-sync] object. *)
Definition relayed (v : vars) (fields : list (string * json)) : json :=
  if is_str (assoc "type" fields) "signal" then
    signal_envelope (userId v) (assoc "payload" fields)
  else
    yt_sync_envelope (assoc "action" fields) (assoc "time" fields) (assoc "videoId" fields).

(** [rooms[roomId] || []] as a function of the registry. *)
Definition peersOf (r : gmap string (list peer)) (k : string) : list peer :=
  default [] (r !! k).

Definition join_message (room user key : string) : inbound :=
  Wellformed (JObj [("type", JStr "join"); ("room", JStr room);
                    ("user", JStr user); ("key", JStr key)]).

(** What a [join] does, case by case. *)
Definition join_result (ws : conn) (fields : list (string * json))
    (r : gmap string (list peer)) (v : vars) : ctx :=
  let room := assoc "room" fields in
  let user := assoc "user" fields in
  let report e v' := Ctx r v' [(ws, error_envelope (exn_message e))] in
  match Buffer_from (assoc "key" fields) with
  | Throw e => report e (Vars room user (key v))
  | Ok buf =>
      let v' := Vars room user (Some buf) in
      match ToPropertyKey room with
      | Throw e => report e v'
      | Ok k =>
          match rooms_get r k with
          | Inherited => report (TypeError "rooms[roomId].push is not a function") v'
          | _ => Ctx (<[k := peersOf r k ++ [Peer ws user buf]]> r) v'
                   [(ws, joined_envelope room)]
          end
      end
  end.


(** What a [signal] or [yt-sync] does. *)
Definition relay_result (ws : conn) (fields : list (string * json))
    (r : gmap string (list peer)) (v : vars) : ctx :=
  match ToPropertyKey (roomId v) with
  | Throw e => Ctx r v [(ws, error_envelope (exn_message e))]
  | Ok k =>
      match rooms_get r k with
      | Inherited => Ctx r v [(ws, error_envelope "peers.forEach is not a function")]
      | _ => Ctx r v (map (λ p, (peer_ws p, relayed v fields))
                        (filter (λ p, peer_ws p ≠ ws) (peersOf r k)))
      end
  end.

(** The discriminant of a parsed frame, [undefined] when there is none. *)
Definition type_of (data : json) : jsval :=
  match data with
  | JObj fields => assoc "type" fields
  | _ => None
  end.

Definition recognised (type : jsval) : bool :=
  is_str type "join" || is_str type "signal" || is_str type "yt-sync".


(** What [close] does to the registry, or the exception that kills the
    process. *)
Definition close_result (ws : conn) (r : gmap string (list peer)) (v : vars)
    : outcome (gmap string (list peer)) :=
  if truthy (roomId v) then
    match ToPropertyKey (roomId v) with
    | Throw e => Throw e
    | Ok k =>
        match rooms_get r k with
        | Absent => Ok r
        | Inherited => Throw (TypeError "rooms[roomId].filter is not a function")
        | Own peers =>
            let kept := filter (λ p, peer_ws p ≠ ws) peers in
            if bool_decide (length kept = 0) then Ok (delete k r) else Ok (<[k := kept]> r)
        end
    end
  else Ok r.


(** What a frame does, whatever it is: the handler computes exactly this
    (lemma [on_message_result]). *)
Definition message_result (ws : conn) (message : inbound)
    (r : gmap string (list peer)) (v : vars) : ctx :=
  match message with
  | Malformed m => Ctx r v [(ws, error_envelope m)]
  | Wellformed JNull =>
      Ctx r v [(ws, error_envelope "Cannot read properties of null (reading 'type')")]
  | Wellformed (JObj fields) =>
      let type := assoc "type" fields in
      if is_str type "join" then join_result ws fields r v
      else if is_str type "signal" || is_str type "yt-sync" then relay_result ws fields r v
      else Ctx r v []
  | Wellformed _ => Ctx r v []
  end.

Definition is_join_message (message : inbound) : bool :=
  match message with
  | Wellformed (JObj fields) => is_str (assoc "type" fields) "join"
  | _ => false
  end.


(** ** Reachable states *)

Definition reachable (st : state) : Prop :=
  ∃ evs out, run initial evs = (Running st, out).


(** Inputs of the scenarios of the specification. *)
Definition zeros : string := "0000000000000000000000000000000000000000000000000000000000000000".

Definition offer : json := JObj [("sdp", JObj [("type", JStr "offer"); ("sdp", JStr "v=0")])].

(** The corrective seek of the scenarios, as the relay forwards it. *)
Definition seek_relayed : json :=
  JObj [("type", JStr "yt-sync"); ("action", JStr "seek"); ("time", JNum "42.5")].

(** The fields of an envelope. *)
Definition field (name : string) (envelope : json) : jsval :=
  match envelope with
  | JObj fields => assoc name fields
  | _ => None
  end.

Definition field_names (envelope : json) : list string :=
  match envelope with
  | JObj fields => map fst fields
  | _ => []
  end.

(** The state of the scenarios once alice (connection 0) and bob
    (connection 1) have joined ABCD. *)
Definition two_joined : state :=
  match run initial [ Connection; Connection;
                      Message 0 (join_message "ABCD" "alice" zeros);
                      Message 1 (join_message "ABCD" "bob" zeros) ] with
  | (Running st, _) => st
  | (Crashed _, _) => initial
  end.

(** One connection that joins room A and then room B. *)
Definition rejoined : state :=
  match run initial [ Connection;
                      Message 0 (join_message "A" "alice" zeros);
                      Message 0 (join_message "B" "alice" zeros) ] with
  | (Running st, _) => st
  | (Crashed _, _) => initial
  end.

(** Connection handles are handed out in order. *)
Definition below_next (st : state) : Prop :=
  ∀ c, st_next st ≤ c → st_conns st !! c = None.

(** ** Key material set aside

    What is left of a state when the Buffers declared at [join] are
    forgotten. *)
Definition keyless_peer (p : peer) : conn * jsval := (peer_ws p, peer_userId p).
Definition keyless_vars (v : vars) : jsval * jsval := (roomId v, userId v).
Definition keyless (st : state)
    : gmap string (list (conn * jsval)) * gmap conn (jsval * jsval) * conn :=
  (map keyless_peer <$> st_rooms st, keyless_vars <$> st_conns st, st_next st).

Definition keyless_rooms (r : gmap string (list peer)) : gmap string (list (conn * jsval)) :=
  map keyless_peer <$> r.

(** Two frames that read alike to the handler, up to the bytes of the
    key: every field but [key] is the same, and [Buffer.from] accepts
    both keys or rejects both with the same exception. *)
Definition alike (fields1 fields2 : list (string * json)) : Prop :=
  (∀ name, name ≠ "key" → assoc name fields1 = assoc name fields2)
  ∧ match Buffer_from (assoc "key" fields1), Buffer_from (assoc "key" fields2) with
    | Ok _, Ok _ => True
    | Throw e1, Throw e2 => e1 = e2
    | _, _ => False
    end.

(** Two events that differ at most in the string given as [key]. *)
Inductive key_variant : event → event → Prop :=
| kv_same ev : key_variant ev ev
| kv_key ws fields1 fields2 k1 k2 :
    (∀ name, name ≠ "key" → assoc name fields1 = assoc name fields2) →
    assoc "key" fields1 = Some (JStr k1) →
    assoc "key" fields2 = Some (JStr k2) →
    key_variant (Message ws (Wellformed (JObj fields1)))
                (Message ws (Wellformed (JObj fields2))).

(** No room of the registry is empty. *)
Definition inhabited_rooms (r : gmap string (list peer)) : Prop :=
  ∀ k peers, r !! k = Some peers → peers ≠ [].

(** The relation kept between two runs that differ in keys only. *)
Definition same_but_keys (s1 s2 : server * list (conn * json)) : Prop :=
  s1.2 = s2.2
  ∧ match s1.1, s2.1 with
    | Running st1, Running st2 => keyless st1 = keyless st2
    | Crashed e1, Crashed e2 => e1 = e2
    | _, _ => False
    end.

(** ** Registrations of a connection *)

(** The records of connection [c] in room [k]. *)
Definition registrations (r : gmap string (list peer)) (c : conn) (k : string) : list peer :=
  filter (λ p, peer_ws p = c) (peersOf r k).

Definition is_join (c : conn) (ev : event) : bool :=
  match ev with
  | Message ws message => bool_decide (ws = c) && is_join_message message
  | _ => false
  end.

Definition joins (c : conn) (evs : list event) : nat :=
  length (filter (λ ev, is_join c ev = true) evs).

(** ** Room codes and the life of the process *)

(** A room value that cannot make [close] throw: it is falsy, or its
    property key is not a name [rooms] inherits. *)
Definition tame (room : jsval) : bool :=
  negb (truthy room)
  || match ToPropertyKey room with
     | Ok k => negb (bool_decide (k ∈ Object_prototype))
     | Throw _ => false
     end.

(** The [room] of a frame, when the frame is a [join]. *)
Definition joined_room (ev : event) : option jsval :=
  match ev with
  | Message _ (Wellformed (JObj fields)) =>
      if is_str (assoc "type" fields) "join" then Some (assoc "room" fields) else None
  | _ => None
  end.

Definition tame_event (ev : event) : Prop :=
  ∀ room, joined_room ev = Some room → tame room = true.

Definition truthy_event (ev : event) : Prop :=
  ∀ room, joined_room ev = Some room → truthy room = true.

Definition tame_state (st : state) : Prop :=
  ∀ ws v, st_conns st !! ws = Some v → tame (roomId v) = true.

(** Connection [c] has no record in any room. *)
Definition unregistered (r : gmap string (list peer)) (c : conn) : Prop :=
  ∀ k, registrations r c k = [].

(** Every record of the registry belongs to an open connection whose room
    variable is truthy and names the room the record is in. *)
Definition live_records (st : state) : Prop :=
  ∀ k p, p ∈ peersOf (st_rooms st) k →
    ∃ v, st_conns st !! peer_ws p = Some v
         ∧ truthy (roomId v) = true
         ∧ ToPropertyKey (roomId v) = Ok k.

(** The frames of the scenarios, as objects. *)
Definition signal_frame (payload : json) : inbound :=
  Wellformed (JObj [("type", JStr "signal"); ("payload", payload)]).

(** The relay with one connection that has not joined. *)
Definition connected : state := State ∅ {[ 0 := fresh_vars ]} 1.

(** The variables of alice and bob once they have joined ABCD. *)
Definition alice_vars : vars :=
  Vars (Some (JStr "ABCD")) (Some (JStr "alice")) (Some (Bytes (replicate 32 0%N))).
Definition bob_vars : vars :=
  Vars (Some (JStr "ABCD")) (Some (JStr "bob")) (Some (Bytes (replicate 32 0%N))).

(** alice (connection 0) and bob (connection 1) in ABCD, bob having
    joined twice. *)
Definition bob_twice : state :=
  match run initial [ Connection; Connection;
                      Message 0 (join_message "ABCD" "alice" zeros);
                      Message 1 (join_message "ABCD" "bob" zeros);
                      Message 1 (join_message "ABCD" "bob" zeros) ] with
  | (Running st, _) => st
  | (Crashed _, _) => initial
  end.

(** One connection that joined A, then B, and closed. *)
Definition abandoned : state :=
  match run initial [ Connection;
                      Message 0 (join_message "A" "alice" zeros);
                      Message 0 (join_message "B" "alice" zeros);
                      Close 0 ] with
  | (Running st, _) => st
  | (Crashed _, _) => initial
  end.

(** One connection that joined the room whose code is the empty string,
    and closed. *)
Definition unnamed_left : state :=
  match run initial [ Connection; Message 0 (join_message "" "alice" zeros); Close 0 ] with
  | (Running st, _) => st
  | (Crashed _, _) => initial
  end.

(** The sessions of a room: the open connections that have a record in
    it. *)
Definition session_in (st : state) (k : string) (ws : conn) : Prop :=
  is_Some (st_conns st !! ws) ∧ registrations (st_rooms st) ws k ≠ [].

End Server.

(* ===================================================================== *)
(** * The client: the protocol half of [src/App.tsx] *)
(* ===================================================================== *)

Module Client.
Import Js.

(** ** The objects the component drives

    The browser's [RTCPeerConnection] and the YouTube player are used
    through their interfaces only.  Their methods are functions of the
    object's state; the asynchronous ones may reject, which an [await]
    turns into an exception. *)

(** [YT.Player], as declared in [youtube.d.ts]. *)
Class Player (P : Type) : Type := {
  playVideo : P → P;
  pauseVideo : P → P;
  seekTo : jsval → bool → P → P;
  getCurrentTime : P → json;
  getPlayerState : P → Z;
  cueVideoById : jsval → P → P;
  loadVideoById : jsval → P → P;
  destroy : P → P;
}.

(** The part of [RTCPeerConnection] the component calls.
    [setRemoteDescription] and [addIceCandidate] take the plain object
    received, which the source first wraps in [RTCSessionDescription] and
    [RTCIceCandidate]. *)
Class PeerConnection (PC : Type) : Type := {
  RTCPeerConnection : PC;
  addTrack : string → PC → PC;
  createOffer : PC → outcome json * PC;
  createAnswer : PC → outcome json * PC;
  setLocalDescription : json → PC → outcome unit * PC;
  setRemoteDescription : json → PC → outcome unit * PC;
  addIceCandidate : json → PC → outcome unit * PC;
  signalingState : PC → string;
}.

(** Every call the component makes on an object outside itself, in the
    order it makes them. *)
Inductive call : Type :=
| NewWebSocket (url : string)
| WsSend (envelope : json)
| NewPeerConnection
| AddTrack (kind : string)
| CreateOffer
| CreateAnswer
| SetLocalDescription (description : json)
| SetRemoteDescription (description : json)
| AddIceCandidate (candidate : json)
| PlayVideo
| PauseVideo
| SeekTo (seconds : jsval) (allowSeekAhead : bool)
| LoadVideoById (id : jsval)
| SetInterval (ms : Z)
| ClearInterval.

(** A line of the developer log: the fixed text and the value appended to
    it (the time stamp is left out). *)
Record log_line : Type := Log { text : string; value : jsval }.

(** The values of the render in which a function was created; the
    function goes on seeing these, whatever the state becomes. *)
Record closure : Type := Closure {
  k_room : string;
  k_username : string;
  k_isHost : bool;
  k_disableSync : bool;
}.

(** The socket [handleJoin] creates, with the closure of the handlers it
    installs on it. *)
Record socket : Type := Socket {
  ws_open : bool;
  ws_env : closure;
}.

(** The interval the effect installs: the closure of its callback and the
    time of its next firing, in milliseconds. *)
Record timer : Type := Timer {
  t_env : closure;
  due : Z;
}.

(** The dependency array of the effect:
    [[isHost, ytPlayerRef.current, wsRef.current, room, disableSync]];
    objects are compared by identity. *)
Record deps : Type := Deps {
  d_isHost : bool;
  d_player : option nat;
  d_ws : bool;
  d_room : string;
  d_disableSync : bool;
}.

#[export] Instance deps_eq_dec : EqDecision deps.
Proof. solve_decision. Defined.

Definition SIGNAL_SERVER_URL : string := "ws://192.168.8.66:3001".

(** The component: its [useState] cells, its [useRef] cells (a player is
    held with the identity of the object), whether [handleJoin] is
    suspended on [getUserMedia], the installed interval, the dependencies
    of the last run of the effect, the clock, and the trace of outside
    calls. *)
Record client (PC P : Type) : Type := Client {
  room : string;
  username : string;
  joined : bool;
  isHost : bool;
  wsReady : bool;
  disableSync : bool;
  error : option string;
  logs : list log_line;
  videoId : string;
  localStream : option (list string);
  wsRef : option socket;
  pcRef : option PC;
  ytPlayerRef : option (nat * P);
  awaiting_media : bool;
  interval : option timer;
  last_deps : option deps;
  now : Z;
  calls : list call;
}.
Arguments room {PC P} _.
Arguments username {PC P} _.
Arguments joined {PC P} _.
Arguments isHost {PC P} _.
Arguments wsReady {PC P} _.
Arguments disableSync {PC P} _.
Arguments error {PC P} _.
Arguments logs {PC P} _.
Arguments videoId {PC P} _.
Arguments localStream {PC P} _.
Arguments wsRef {PC P} _.
Arguments pcRef {PC P} _.
Arguments ytPlayerRef {PC P} _.
Arguments awaiting_media {PC P} _.
Arguments interval {PC P} _.
Arguments last_deps {PC P} _.
Arguments now {PC P} _.
Arguments calls {PC P} _.
Arguments Client {PC P}.

Definition set_room {PC P} (x : string) (c : client PC P) : client PC P :=
  Client x (username c) (joined c) (isHost c) (wsReady c) (disableSync c) (error c) (logs c) (videoId c) (localStream c) (wsRef c) (pcRef c) (ytPlayerRef c) (awaiting_media c) (interval c) (last_deps c) (now c) (calls c).
Definition set_username {PC P} (x : string) (c : client PC P) : client PC P :=
  Client (room c) x (joined c) (isHost c) (wsReady c) (disableSync c) (error c) (logs c) (videoId c) (localStream c) (wsRef c) (pcRef c) (ytPlayerRef c) (awaiting_media c) (interval c) (last_deps c) (now c) (calls c).
Definition set_joined {PC P} (x : bool) (c : client PC P) : client PC P :=
  Client (room c) (username c) x (isHost c) (wsReady c) (disableSync c) (error c) (logs c) (videoId c) (localStream c) (wsRef c) (pcRef c) (ytPlayerRef c) (awaiting_media c) (interval c) (last_deps c) (now c) (calls c).
Definition set_isHost {PC P} (x : bool) (c : client PC P) : client PC P :=
  Client (room c) (username c) (joined c) x (wsReady c) (disableSync c) (error c) (logs c) (videoId c) (localStream c) (wsRef c) (pcRef c) (ytPlayerRef c) (awaiting_media c) (interval c) (last_deps c) (now c) (calls c).
Definition set_wsReady {PC P} (x : bool) (c : client PC P) : client PC P :=
  Client (room c) (username c) (joined c) (isHost c) x (disableSync c) (error c) (logs c) (videoId c) (localStream c) (wsRef c) (pcRef c) (ytPlayerRef c) (awaiting_media c) (interval c) (last_deps c) (now c) (calls c).
Definition set_disableSync {PC P} (x : bool) (c : client PC P) : client PC P :=
  Client (room c) (username c) (joined c) (isHost c) (wsReady c) x (error c) (logs c) (videoId c) (localStream c) (wsRef c) (pcRef c) (ytPlayerRef c) (awaiting_media c) (interval c) (last_deps c) (now c) (calls c).
Definition set_error {PC P} (x : option string) (c : client PC P) : client PC P :=
  Client (room c) (username c) (joined c) (isHost c) (wsReady c) (disableSync c) x (logs c) (videoId c) (localStream c) (wsRef c) (pcRef c) (ytPlayerRef c) (awaiting_media c) (interval c) (last_deps c) (now c) (calls c).
Definition set_logs {PC P} (x : list log_line) (c : client PC P) : client PC P :=
  Client (room c) (username c) (joined c) (isHost c) (wsReady c) (disableSync c) (error c) x (videoId c) (localStream c) (wsRef c) (pcRef c) (ytPlayerRef c) (awaiting_media c) (interval c) (last_deps c) (now c) (calls c).
Definition set_localStream {PC P} (x : option (list string)) (c : client PC P) : client PC P :=
  Client (room c) (username c) (joined c) (isHost c) (wsReady c) (disableSync c) (error c) (logs c) (videoId c) x (wsRef c) (pcRef c) (ytPlayerRef c) (awaiting_media c) (interval c) (last_deps c) (now c) (calls c).
Definition set_wsRef {PC P} (x : option socket) (c : client PC P) : client PC P :=
  Client (room c) (username c) (joined c) (isHost c) (wsReady c) (disableSync c) (error c) (logs c) (videoId c) (localStream c) x (pcRef c) (ytPlayerRef c) (awaiting_media c) (interval c) (last_deps c) (now c) (calls c).
Definition set_pcRef {PC P} (x : option PC) (c : client PC P) : client PC P :=
  Client (room c) (username c) (joined c) (isHost c) (wsReady c) (disableSync c) (error c) (logs c) (videoId c) (localStream c) (wsRef c) x (ytPlayerRef c) (awaiting_media c) (interval c) (last_deps c) (now c) (calls c).
Definition set_ytPlayerRef {PC P} (x : option (nat * P)) (c : client PC P) : client PC P :=
  Client (room c) (username c) (joined c) (isHost c) (wsReady c) (disableSync c) (error c) (logs c) (videoId c) (localStream c) (wsRef c) (pcRef c) x (awaiting_media c) (interval c) (last_deps c) (now c) (calls c).
Definition set_awaiting_media {PC P} (x : bool) (c : client PC P) : client PC P :=
  Client (room c) (username c) (joined c) (isHost c) (wsReady c) (disableSync c) (error c) (logs c) (videoId c) (localStream c) (wsRef c) (pcRef c) (ytPlayerRef c) x (interval c) (last_deps c) (now c) (calls c).
Definition set_interval {PC P} (x : option timer) (c : client PC P) : client PC P :=
  Client (room c) (username c) (joined c) (isHost c) (wsReady c) (disableSync c) (error c) (logs c) (videoId c) (localStream c) (wsRef c) (pcRef c) (ytPlayerRef c) (awaiting_media c) x (last_deps c) (now c) (calls c).
Definition set_last_deps {PC P} (x : option deps) (c : client PC P) : client PC P :=
  Client (room c) (username c) (joined c) (isHost c) (wsReady c) (disableSync c) (error c) (logs c) (videoId c) (localStream c) (wsRef c) (pcRef c) (ytPlayerRef c) (awaiting_media c) (interval c) x (now c) (calls c).
Definition set_now {PC P} (x : Z) (c : client PC P) : client PC P :=
  Client (room c) (username c) (joined c) (isHost c) (wsReady c) (disableSync c) (error c) (logs c) (videoId c) (localStream c) (wsRef c) (pcRef c) (ytPlayerRef c) (awaiting_media c) (interval c) (last_deps c) x (calls c).
Definition set_calls {PC P} (x : list call) (c : client PC P) : client PC P :=
  Client (room c) (username c) (joined c) (isHost c) (wsReady c) (disableSync c) (error c) (logs c) (videoId c) (localStream c) (wsRef c) (pcRef c) (ytPlayerRef c) (awaiting_media c) (interval c) (last_deps c) (now c) x.

Definition mount {PC P} : client PC P :=
  Client "" "" false false false false None [] "dQw4w9WgXcQ" None
         None None None false None None 0 [].

Definition is_some {A} (o : option A) : bool :=
  match o with Some _ => true | None => false end.

(** [d.type] of a session description. *)
Definition kind_of (d : json) : jsval :=
  match d with JObj fields => assoc "type" fields | _ => None end.

Section Handlers.
Context {PC P : Type} `{!PeerConnection PC} `{!Player P}.

#[local] Abbreviation C := (Eff (client PC P)).

(** [log(msg)] *)
Definition log (text : string) (value : jsval) : C unit :=
  modify (λ c, set_logs (logs c ++ [Log text value]) c).

Definition setError (message : string) : C unit := modify (set_error (Some message)).

(** A method of [pcRef.current]. *)
Definition on_pc {A} (k : call) (method : PC → outcome A * PC) : C A := λ c,
  match pcRef c with
  | Some pc =>
      let '(o, pc') := method pc in
      (o, set_calls (calls c ++ [k]) (set_pcRef (Some pc') c))
  | None => (Throw (TypeError "Cannot read properties of null"), c)
  end.

(** A method of [ytPlayerRef.current]. *)
Definition on_player (k : call) (method : P → P) : C unit := λ c,
  match ytPlayerRef c with
  | Some (id, p) =>
      (Ok tt, set_calls (calls c ++ [k]) (set_ytPlayerRef (Some (id, method p)) c))
  | None => (Throw (TypeError "Cannot read properties of null"), c)
  end.

(** [wsRef.current.send(JSON.stringify(literal))]; a socket that is still
    connecting throws. *)
Definition ws_send (literal : list (string * jsval)) : C unit := λ c,
  match wsRef c with
  | Some s =>
      if ws_open s then (Ok tt, set_calls (calls c ++ [WsSend (JSON_stringify literal)]) c)
      else (Throw (DOMException "Failed to execute 'send' on 'WebSocket': Still in CONNECTING state."), c)
  | None => (Throw (TypeError "Cannot read properties of null (reading 'send')"), c)
  end.

(** [wsRef.current?.send(...)] *)
Definition ws_send_opt (literal : list (string * jsval)) : C unit := λ c,
  match wsRef c with
  | Some _ => ws_send literal c
  | None => (Ok tt, c)
  end.

Definition when (b : bool) (m : C unit) : C unit := if b then m else mret tt.

(** [{ type: 'signal', room, user: username, payload: {...} }] *)
Definition signal_literal (room user : string) (payload : list (string * json))
    : list (string * jsval) :=
  [("type", Some (JStr "signal")); ("room", Some (JStr room));
   ("user", Some (JStr user)); ("payload", Some (JObj payload))].

(** [{ type: 'yt-sync', room, action, time, videoId }] *)
Definition yt_sync_literal (room action : string) (time videoId : jsval)
    : list (string * jsval) :=
  [("type", Some (JStr "yt-sync")); ("room", Some (JStr room));
   ("action", Some (JStr action)); ("time", time); ("videoId", videoId)].

(** [wsRef.current.onmessage], installed by [handleJoin]; [k] is the
    closure of that render. *)
Definition onmessage (k : closure) (event_data : inbound) : C unit :=
  try_catch
    (data ← lift (JSON_parse event_data);
     log "Received message: " data;;
     type ← lift (get data "type");
     pc ← gets pcRef;
     player ← gets ytPlayerRef;
     if is_str type "signal" && is_some pc then
       payload ← lift (get data "payload");
       sdp ← lift (get payload "sdp");
       if truthy sdp then
         let description := default JNull sdp in
         log "Received SDP: " sdp;;
         state ← gets (λ c, from_option signalingState "" (pcRef c));
         log "Current signalingState: " (Some (JStr state));;
         on_pc (SetRemoteDescription description) (setRemoteDescription description);;
         kind ← lift (get sdp "type");
         log "Set remote description: " kind;;
         if is_str kind "offer" then
           log "Received offer, creating answer..." None;;
           answer ← on_pc CreateAnswer createAnswer;
           on_pc (SetLocalDescription answer) (setLocalDescription answer);;
           log "Set local description: answer" None;;
           ws_send_opt (signal_literal (k_room k) (k_username k) [("sdp", answer)]);;
           log "Sent answer" None
         else if is_str kind "answer" then
           log "Received answer" None
         else mret tt
       else
         candidate ← lift (get payload "candidate");
         if truthy candidate then
           let ice := default JNull candidate in
           log "Received ICE candidate: " candidate;;
           on_pc (AddIceCandidate ice) (addIceCandidate ice);;
           log "Added ICE candidate" None
         else mret tt
     else if is_str type "yt-sync" && is_some player && negb (k_disableSync k) then
       log "Received yt-sync: " data;;
       action ← lift (get data "action");
       when (is_str action "play") (on_player PlayVideo playVideo);;
       when (is_str action "pause") (on_player PauseVideo pauseVideo);;
       when (is_str action "seek")
         (time ← lift (get data "time");
          on_player (SeekTo time true) (seekTo time true));;
       when (is_str action "load")
         (id ← lift (get data "videoId");
          on_player (LoadVideoById id) (loadVideoById id))
     else mret tt)
    (λ err,
       setError "Error handling server message.";;
       log "Error handling server message: " (Some (JStr (exn_message err)))).

(** [wsRef.current.onopen] *)
Definition onopen (k : closure) : C unit :=
  log "WebSocket connected" None;;
  modify (set_wsReady true);;
  ws_send_opt [("type", Some (JStr "join")); ("room", Some (JStr (k_room k)));
               ("user", Some (JStr (k_username k)));
               ("key", Some (JStr "0000000000000000000000000000000000000000000000000000000000000000"))].

(** [wsRef.current.onerror] *)
Definition onerror (e : jsval) : C unit :=
  setError "WebSocket connection error.";;
  log "WebSocket error: " e.

(** [pc.onicecandidate] *)
Definition onicecandidate (k : closure) (candidate : jsval) : C unit :=
  if truthy candidate then
    log "Sending ICE candidate: " candidate;;
    ws_send_opt (signal_literal (k_room k) (k_username k)
                   [("candidate", default JNull candidate)])
  else mret tt.

(** The values a function created now closes over. *)
Definition render_values (c : client PC P) : closure :=
  Closure (room c) (username c) (isHost c) (disableSync c).

(** [handleJoin], up to its [await] of [getUserMedia]. *)
Definition handleJoin : C unit :=
  k ← gets render_values;
  try_catch
    (modify (set_joined true);;
     modify (set_isHost false);;
     log "Joining room..." None;;
     modify (λ c, set_calls (calls c ++ [NewWebSocket SIGNAL_SERVER_URL])
                    (set_wsRef (Some (Socket false k)) c));;
     modify (set_awaiting_media true))
    (λ err,
       setError "Failed to join room.";;
       log "Join error: " (Some (JStr (exn_message err)))).

(** [handleJoin], from the outcome of [getUserMedia] on: [media] is the
    exception it rejected with or the kinds of the tracks of the stream. *)
Definition handleJoin_resume (media : outcome (list string)) : C unit :=
  try_catch
    (modify (set_awaiting_media false);;
     match media with
     | Throw err =>
         setError "Could not access camera/microphone.";;
         log "Media error: " (Some (JStr (exn_message err)))
     | Ok tracks =>
         log "Got local media stream" None;;
         modify (set_localStream (Some tracks));;
         modify (λ c, set_calls (calls c ++ [NewPeerConnection]) c);;
         log "Created RTCPeerConnection" None;;
         pc ← foldl (λ (acc : C PC) track,
                 pc ← acc;
                 log "Adding local track: " (Some (JStr track));;
                 modify (λ c, set_calls (calls c ++ [AddTrack track]) c);;
                 mret (addTrack track pc))
               (mret RTCPeerConnection) tracks;
         modify (set_pcRef (Some pc))
     end)
    (λ err,
       setError "Failed to join room.";;
       log "Join error: " (Some (JStr (exn_message err)))).

(** [startCall] *)
Definition startCall : C unit :=
  try_catch
    (ready ← gets wsReady;
     if negb ready then
       setError "WebSocket not ready, cannot start call";;
       log "WebSocket not ready, cannot start call" None
     else
       modify (set_isHost true);;
       log "Starting call (creating offer)" None;;
       pc ← gets pcRef;
       ws ← gets wsRef;
       room ← gets room;
       username ← gets username;
       if is_some pc && is_some ws then
         offer ← on_pc CreateOffer createOffer;
         on_pc (SetLocalDescription offer) (setLocalDescription offer);;
         ws_send (signal_literal room username [("sdp", offer)]);;
         log "Sent offer" None
       else mret tt)
    (λ err,
       setError "Failed to start call.";;
       log "Start call error: " (Some (JStr (exn_message err)))).

(** [handleYTReady] *)
Definition handleYTReady (id : nat) (player : P) : C unit :=
  modify (set_ytPlayerRef (Some (id, player))).

(** [ytPlayerRef.current?.getCurrentTime()] *)
Definition current_time (c : client PC P) : jsval :=
  (λ ip, getCurrentTime ip.2) <$> ytPlayerRef c.

(** [handleYTStateChange]; [k] is the closure of the render whose
    function the player was given when it was created ([YouTubeSync]
    creates the player in an effect that depends on the video id only,
    so a player keeps the function of the render that created it: one
    created before "Start Call" keeps [isHost = false]). *)
Definition handleYTStateChange (k : closure) (state : Z) : C unit :=
  ws ← gets wsRef;
  if negb (is_some ws) || negb (k_isHost k) || k_disableSync k then mret tt
  else
    when (state =? 1)%Z (ws_send (yt_sync_literal (k_room k) "play" None None));;
    when (state =? 2)%Z (ws_send (yt_sync_literal (k_room k) "pause" None None));;
    when (state =? 3)%Z
      (time ← gets current_time;
       ws_send (yt_sync_literal (k_room k) "seek" time None)).

(** The callback of [setInterval] in the effect. *)
Definition interval_callback (k : closure) : C unit :=
  player ← gets ytPlayerRef;
  ws ← gets wsRef;
  if is_some player && is_some ws && k_isHost k && negb (k_disableSync k) then
    time ← gets current_time;
    ws_send (yt_sync_literal (k_room k) "seek" time None);;
    log "Auto-synced video to " time
  else mret tt.

(** ** The effect and its interval *)

Definition current_deps (c : client PC P) : deps :=
  Deps (isHost c) (fst <$> ytPlayerRef c) (is_some (wsRef c)) (room c) (disableSync c).

(** [return () => clearInterval(interval)], when the last run returned it. *)
Definition cleanup (c : client PC P) : client PC P :=
  match interval c with
  | Some _ => set_calls (calls c ++ [ClearInterval]) (set_interval None c)
  | None => c
  end.

(** The body of the effect: [setInterval(..., 5000)] unless it returns
    early. *)
Definition effect (c : client PC P) : client PC P :=
  if negb (isHost c) || negb (is_some (ytPlayerRef c)) || negb (is_some (wsRef c))
     || disableSync c
  then c
  else set_calls (calls c ++ [SetInterval 5000])
         (set_interval (Some (Timer (render_values c) (now c + 5000))) c).

(** A render commits: the effect runs again when a dependency changed. *)
Definition render (c : client PC P) : client PC P :=
  if decide (last_deps c = Some (current_deps c)) then c
  else set_last_deps (Some (current_deps c)) (effect (cleanup c)).

(** ** Events *)

Inductive event : Type :=
| TypeRoom (s : string)
| TypeUsername (s : string)
| ClickJoin
| MediaResult (media : outcome (list string))
| SocketOpen
| SocketError (e : jsval)
| SocketMessage (message : inbound)
| IceCandidate (candidate : jsval)
| ClickStartCall
| PlayerReady (id : nat) (player : P)
| PlayerStateChange (k : closure) (state : Z)
| SetDisableSync (checked : bool)
| Elapse (ms : Z).

(** A handler invoked by the browser: what it throws past its own
    [catch] goes to the console. *)
Definition invoke (handler : C unit) (c : client PC P) : client PC P := (handler c).2.

(** The interval fires at every multiple of its period that the clock
    passes; the callback logs, so a render follows each firing. *)
Fixpoint fire (fuel : nat) (target : Z) (c : client PC P) : client PC P :=
  match fuel with
  | O => set_now target c
  | S fuel' =>
      match interval c with
      | Some t =>
          if (due t <=? target)%Z then
            let c1 := set_interval (Some (Timer (t_env t) (due t + 5000))) (set_now (due t) c) in
            fire fuel' target (render (invoke (interval_callback (t_env t)) c1))
          else set_now target c
      | None => set_now target c
      end
  end.

(** One event of the page.  Controls that are not rendered, or are
    disabled, do not call their handlers. *)
Definition step (c : client PC P) (ev : event) : client PC P :=
  match ev with
  | TypeRoom s => if joined c then c else render (set_room s c)
  | TypeUsername s => if joined c then c else render (set_username s c)
  | ClickJoin =>
      if joined c || String.eqb (room c) "" || String.eqb (username c) "" then c
      else render (invoke handleJoin c)
  | MediaResult media =>
      if awaiting_media c then render (invoke (handleJoin_resume media) c) else c
  | SocketOpen =>
      match wsRef c with
      | Some s =>
          if ws_open s then c
          else render (invoke (onopen (ws_env s)) (set_wsRef (Some (Socket true (ws_env s))) c))
      | None => c
      end
  | SocketError e =>
      match wsRef c with
      | Some s => render (invoke (onerror e) c)
      | None => c
      end
  | SocketMessage message =>
      match wsRef c with
      | Some s => if ws_open s then render (invoke (onmessage (ws_env s) message) c) else c
      | None => c
      end
  | IceCandidate candidate =>
      match wsRef c, pcRef c with
      | Some s, Some _ => render (invoke (onicecandidate (ws_env s) candidate) c)
      | _, _ => c
      end
  | ClickStartCall =>
      if joined c && wsReady c then render (invoke startCall c) else c
  | PlayerReady id player =>
      if joined c then invoke (handleYTReady id player) c else c
  | PlayerStateChange k state =>
      if is_some (ytPlayerRef c) then invoke (handleYTStateChange k state) c else c
  | SetDisableSync checked =>
      if joined c then render (set_disableSync checked c) else c
  | Elapse ms =>
      if (0 <=? ms)%Z then fire (Z.to_nat (ms / 5000) + 1) (now c + ms) c else c
  end.

Definition run (c : client PC P) (evs : list event) : client PC P := foldl step c evs.

(** An installed interval was installed by a host whose sync was on. *)
Definition host_interval (c : client PC P) : Prop :=
  ∀ t, interval c = Some t → k_isHost (t_env t) = true ∧ k_disableSync (t_env t) = false.

(** The calls of a responder that answers [offer] with [answer]. *)
Definition answering (k : closure) (offer answer : json) : list call :=
  [ SetRemoteDescription offer; CreateAnswer; SetLocalDescription answer;
    WsSend (JSON_stringify (signal_literal (k_room k) (k_username k) [("sdp", answer)])) ].

(** The calls of an initiator that offers [offer]. *)
Definition offering (room username : string) (offer : json) : list call :=
  [ CreateOffer; SetLocalDescription offer;
    WsSend (JSON_stringify (signal_literal room username [("sdp", offer)])) ].

(** The corrective envelope of the interval. *)
Definition seek_envelope (k : closure) (time : jsval) : json :=
  JSON_stringify (yt_sync_literal (k_room k) "seek" time None).

(** The interval is installed by a host whose sync is enabled, the player
    and an open socket are there, and the last render has seen the
    current dependencies. *)
Definition syncing (c : client PC P) : bool :=
  match interval c, ytPlayerRef c, wsRef c with
  | Some t, Some _, Some s =>
      k_isHost (t_env t) && negb (k_disableSync (t_env t)) && ws_open s
      && bool_decide (last_deps c = Some (current_deps c))
  | _, _, _ => false
  end.

(** How many times an interval due at [due] fires up to [target]. *)
Definition firings (due target : Z) : nat :=
  if (due <=? target)%Z then Z.to_nat ((target - due) / 5000) + 1 else 0.

End Handlers.

(** ** Closures against the page *)

Section Closures.
Context {PC P : Type}.

(** The socket's handlers were created by [handleJoin], in a render
    whose sync was enabled and whose room and name are still those of
    the page. *)
Definition join_closure (c : client PC P) : Prop :=
  (joined c = false → wsRef c = None ∧ disableSync c = false)
  ∧ (∀ s, wsRef c = Some s →
       k_disableSync (ws_env s) = false
       ∧ k_room (ws_env s) = room c ∧ k_username (ws_env s) = username c).

(** Do a closure, and the dependencies of an effect, carry the host
    flag, the room and the sync switch of the page? *)
Definition current (k : closure) (c : client PC P) : Prop :=
  k_isHost k = isHost c ∧ k_room k = room c ∧ k_disableSync k = disableSync c.

Definition seen (d : deps) (c : client PC P) : Prop :=
  d_isHost d = isHost c ∧ d_room d = room c ∧ d_disableSync d = disableSync c.

(** The callback of an installed interval, and the dependencies of the
    last run of the effect, are those of the page. *)
Definition interval_closure (c : client PC P) : Prop :=
  (∀ t, interval c = Some t → current (t_env t) c)
  ∧ (∀ d, last_deps c = Some d → seen d c).

End Closures.

(** ** A browser to run the component in

    A peer connection that follows the signalling state machine of WebRTC
    (an offer may be set locally in [stable] and [have-local-offer], an
    answer needs a pending offer of the other side) and a player that
    follows the IFrame API reference.  They serve to run the component on
    concrete inputs. *)

Inductive signaling : Type := Stable | HaveLocalOffer | HaveRemoteOffer | Closed.

Record browser_pc : Type := BrowserPc {
  pc_state : signaling;
  pc_local : jsval;
  pc_remote : jsval;
  pc_tracks : list string;
  pc_candidates : list json;
  pc_serial : nat;
}.

Definition invalid_state : exn :=
  DOMException "InvalidStateError: called in wrong state".

Definition description (kind : string) (serial : nat) : json :=
  JObj [("type", JStr kind); ("sdp", JStr ("v=0 o=- " +:+ pretty serial))].

#[export] Instance browser_PeerConnection : PeerConnection browser_pc := {
  RTCPeerConnection := BrowserPc Stable None None [] [] 0;
  addTrack kind pc :=
    BrowserPc (pc_state pc) (pc_local pc) (pc_remote pc) (pc_tracks pc ++ [kind])
              (pc_candidates pc) (pc_serial pc);
  createOffer pc :=
    match pc_state pc with
    | Closed => (Throw invalid_state, pc)
    | _ => (Ok (description "offer" (pc_serial pc)),
            BrowserPc (pc_state pc) (pc_local pc) (pc_remote pc) (pc_tracks pc)
                      (pc_candidates pc) (S (pc_serial pc)))
    end;
  createAnswer pc :=
    match pc_state pc with
    | HaveRemoteOffer =>
        (Ok (description "answer" (pc_serial pc)),
         BrowserPc (pc_state pc) (pc_local pc) (pc_remote pc) (pc_tracks pc)
                   (pc_candidates pc) (S (pc_serial pc)))
    | _ => (Throw invalid_state, pc)
    end;
  setLocalDescription d pc :=
    let set s := (Ok tt, BrowserPc s (Some d) (pc_remote pc) (pc_tracks pc)
                           (pc_candidates pc) (pc_serial pc)) in
    if is_str (kind_of d) "offer" then
      match pc_state pc with
      | Stable | HaveLocalOffer => set HaveLocalOffer
      | _ => (Throw invalid_state, pc)
      end
    else if is_str (kind_of d) "answer" then
      match pc_state pc with
      | HaveRemoteOffer => set Stable
      | _ => (Throw invalid_state, pc)
      end
    else (Throw (TypeError "The provided value is not a valid RTCSdpType"), pc);
  setRemoteDescription d pc :=
    let set s := (Ok tt, BrowserPc s (pc_local pc) (Some d) (pc_tracks pc)
                           (pc_candidates pc) (pc_serial pc)) in
    if is_str (kind_of d) "offer" then
      match pc_state pc with
      | Stable | HaveRemoteOffer => set HaveRemoteOffer
      | HaveLocalOffer =>
          (Ok tt, BrowserPc HaveRemoteOffer None (Some d) (pc_tracks pc)
                    (pc_candidates pc) (pc_serial pc))
      | Closed => (Throw invalid_state, pc)
      end
    else if is_str (kind_of d) "answer" then
      match pc_state pc with
      | HaveLocalOffer => set Stable
      | _ => (Throw invalid_state, pc)
      end
    else (Throw (TypeError "The provided value is not a valid RTCSdpType"), pc);
  addIceCandidate candidate pc :=
    match pc_remote pc with
    | Some _ =>
        (Ok tt, BrowserPc (pc_state pc) (pc_local pc) (pc_remote pc) (pc_tracks pc)
                  (pc_candidates pc ++ [candidate]) (pc_serial pc))
    | None => (Throw (DOMException "InvalidStateError: The remote description was null"), pc)
    end;
  signalingState pc :=
    match pc_state pc with
    | Stable => "stable"
    | HaveLocalOffer => "have-local-offer"
    | HaveRemoteOffer => "have-remote-offer"
    | Closed => "closed"
    end;
}.

Record yt_player : Type := YtPlayer {
  yt_state : Z;
  yt_time : json;
  yt_video : jsval;
}.

#[export] Instance iframe_Player : Player yt_player := {
  playVideo p := YtPlayer 1 (yt_time p) (yt_video p);
  pauseVideo p := if (yt_state p =? 0)%Z then p else YtPlayer 2 (yt_time p) (yt_video p);
  seekTo seconds _ p :=
    YtPlayer (if (yt_state p =? 2)%Z then 2 else 1) (default (JNum "0") seconds) (yt_video p);
  getCurrentTime := yt_time;
  getPlayerState := yt_state;
  cueVideoById id p := YtPlayer 5 (JNum "0") id;
  loadVideoById id p := YtPlayer 1 (JNum "0") id;
  destroy p := p;
}.

(** The envelopes among the calls. *)
Definition sent_envelopes (l : list call) : list json :=
  omap (λ k, match k with WsSend e => Some e | _ => None end) l.

(** Is this envelope an offer, that is a [signal] whose [payload.sdp] has
    type [offer]? *)
Definition is_offer (envelope : json) : bool :=
  match envelope with
  | JObj fields =>
      is_str (assoc "type" fields) "signal"
      && match assoc "payload" fields with
         | Some (JObj payload) =>
             match assoc "sdp" payload with
             | Some d => is_str (kind_of d) "offer"
             | None => false
             end
         | _ => false
         end
  | _ => false
  end.

Definition offers_sent (l : list call) : list json :=
  filter (λ e, is_offer e = true) (sent_envelopes l).

(** Is this envelope a [seek] of the synchroniser? *)
Definition is_seek (envelope : json) : bool :=
  match envelope with
  | JObj fields =>
      is_str (assoc "type" fields) "yt-sync" && is_str (assoc "action" fields) "seek"
  | _ => false
  end.

(** A page on which alice has joined ABCD: the socket is open, the camera
    was granted, and a player that is paused at 42.5 is ready. *)
Definition paused_player : yt_player := YtPlayer 2 (JNum "42.5") (Some (JStr "dQw4w9WgXcQ")).

Definition alice_joined : client browser_pc yt_player :=
  run mount [ TypeUsername "alice"; TypeRoom "ABCD"; ClickJoin;
              MediaResult (Ok ["audio"; "video"]); SocketOpen;
              PlayerReady 0 paused_player ].

(** The same page once alice has pressed "Start Call". *)
Definition alice_hosting : client browser_pc yt_player :=
  run alice_joined [ ClickStartCall ].

(** What is left of the component when its log and its trace of calls
    are set aside. *)
Definition playback {PC P} (c : client PC P) : client PC P :=
  set_logs [] (set_calls [] c).

(** The closure of the handlers of alice's socket. *)
Definition alice_closure : closure := Closure "ABCD" "alice" false false.

(** An offer as the relay forwards it from bob. *)
Definition relayed_offer : list (string * json) :=
  [("type", JStr "signal"); ("from", JStr "bob");
   ("payload", JObj [("sdp", description "offer" 0)])].

(** alice after the offer relayed from bob, and after one and two [play]
    frames. *)
Definition alice_answered : client browser_pc yt_player :=
  invoke (onmessage alice_closure (Wellformed (JObj relayed_offer))) alice_joined.

Definition play_frame : inbound :=
  Wellformed (JObj [("type", JStr "yt-sync"); ("action", JStr "play")]).

Definition alice_played : client browser_pc yt_player :=
  invoke (onmessage alice_closure play_frame) alice_joined.

Definition alice_played_twice : client browser_pc yt_player :=
  invoke (onmessage alice_closure play_frame) alice_played.

(** alice before the camera was granted: the socket is open, there is no
    negotiation object. *)
Definition alice_waiting : client browser_pc yt_player :=
  run mount [ TypeUsername "alice"; TypeRoom "ABCD"; ClickJoin; SocketOpen ].

(** alice, joined, once she has ticked "Disable YouTube Sync". *)
Definition alice_muted : client browser_pc yt_player :=
  run mount [ TypeUsername "alice"; TypeRoom "ABCD"; ClickJoin;
              MediaResult (Ok ["audio"; "video"]); SocketOpen;
              PlayerReady 0 paused_player; SetDisableSync true ].

(** alice, hosting, once she has ticked "Disable YouTube Sync". *)
Definition host_muted : client browser_pc yt_player :=
  run mount [ TypeUsername "alice"; TypeRoom "ABCD"; ClickJoin;
              MediaResult (Ok ["audio"; "video"]); SocketOpen;
              PlayerReady 0 paused_player; ClickStartCall; SetDisableSync true ].

(** bob, joined to the same room, with the closure of his socket's
    handlers. *)
Definition bob_joined : client browser_pc yt_player :=
  run mount [ TypeUsername "bob"; TypeRoom "ABCD"; ClickJoin;
              MediaResult (Ok ["audio"; "video"]); SocketOpen;
              PlayerReady 0 paused_player ].

Definition bob_closure : closure := Closure "ABCD" "bob" false false.

(** A candidate, as the browser hands it to [onicecandidate]. *)
Definition host_candidate : json :=
  JObj [("candidate", JStr "candidate:1 1 udp 2122260223 192.168.8.20 54321 typ host");
        ("sdpMid", JStr "0"); ("sdpMLineIndex", JNum "0")].

(** alice, hosting, once the video was changed and the player created
    anew: the new player was given the handlers of a render in which
    alice was the host. *)
Definition host_replayed : client browser_pc yt_player :=
  invoke (handleYTReady 1 paused_player) alice_hosting.

End Client.

(* ===================================================================== *)
(** * The video-id input: [extractYouTubeId] and [handleVideoIdChange] *)
(* ===================================================================== *)

Module VideoId.
Import Js.

(** ** Regular expressions, as [RegExp.prototype.exec] runs them

    The two patterns of [extractYouTubeId] have no flags.  A pattern is
    run by backtracking: a matcher takes the position reached and a
    continuation, alternatives are tried from left to right and a
    quantifier takes as much as it can before it gives back.  A
    character of a string is a code unit; the strings of the embedding
    hold the code units below 256. *)
Inductive regex : Type :=
| Lit (s : string)              (* the characters of [s], in sequence *)
| Class (p : ascii → bool)      (* one character of a class *)
| Seq (r1 r2 : regex)
| Alt (r1 r2 : regex)           (* r1|r2 *)
| Opt (r : regex)               (* (?:r)? *)
| Star (p : ascii → bool)       (* [p]* *)
| Plus (p : ascii → bool)       (* [p]+ *)
| Times (n : nat) (r : regex)   (* r{n} *)
| Group (r : regex)             (* (r), the capturing group 1 *)
| Bol                           (* ^ *)
| Eol.                          (* $ *)

(** Where a match has got to: the index in the input, what is left of
    the input, and what group 1 has captured. *)
Record cursor : Type := Cursor {
  index : nat;
  rest : list ascii;
  group1 : option (list ascii);
}.

Definition continuation : Type := cursor → option cursor.

Fixpoint literal (lit input : list ascii) : option (list ascii) :=
  match lit, input with
  | [], _ => Some input
  | a :: lit', b :: input' => if Ascii.eqb a b then literal lit' input' else None
  | _ :: _, [] => None
  end.

(** As many characters of the class as there are, then one fewer, and so
    on down to none, until the continuation accepts. *)
Fixpoint greedy (p : ascii → bool) (i : nat) (input : list ascii)
    (g : option (list ascii)) (k : continuation) : option cursor :=
  match input with
  | c :: input' =>
      if p c then
        match greedy p (S i) input' g k with
        | Some z => Some z
        | None => k (Cursor i input g)
        end
      else k (Cursor i input g)
  | [] => k (Cursor i input g)
  end.

Fixpoint exec (r : regex) (x : cursor) (k : continuation) : option cursor :=
  match r with
  | Lit s =>
      match literal (String.list_ascii_of_string s) (rest x) with
      | Some input' => k (Cursor (index x + String.length s) input' (group1 x))
      | None => None
      end
  | Class p =>
      match rest x with
      | c :: input' => if p c then k (Cursor (S (index x)) input' (group1 x)) else None
      | [] => None
      end
  | Seq r1 r2 => exec r1 x (λ y, exec r2 y k)
  | Alt r1 r2 =>
      match exec r1 x k with
      | Some z => Some z
      | None => exec r2 x k
      end
  | Opt r1 =>
      match exec r1 x k with
      | Some z => Some z
      | None => k x
      end
  | Star p => greedy p (index x) (rest x) (group1 x) k
  | Plus p =>
      match rest x with
      | c :: input' => if p c then greedy p (S (index x)) input' (group1 x) k else None
      | [] => None
      end
  | Times n r1 =>
      (fix times (n : nat) (k : continuation) : continuation :=
         match n with
         | O => k
         | S n' => λ y, exec r1 y (times n' k)
         end) n k x
  | Group r1 =>
      exec r1 x
        (λ y, k (Cursor (index y) (rest y) (Some (take (index y - index x) (rest x)))))
  | Bol => if Nat.eqb (index x) 0 then k x else None
  | Eol =>
      match rest x with
      | [] => k x
      | _ :: _ => None
      end
  end.

(** The first match, trying each index of the input in turn. *)
Fixpoint search_from (r : regex) (i : nat) (input : list ascii) : option cursor :=
  match exec r (Cursor i input None) Some with
  | Some z => Some z
  | None =>
      match input with
      | _ :: input' => search_from r (S i) input'
      | [] => None
      end
  end.

Definition search (r : regex) (input : string) : option cursor :=
  search_from r 0 (String.list_ascii_of_string input).

(** ** The classes of the two patterns *)

Definition code (c : ascii) : N := N_of_ascii c.

Definition between (lo hi : N) (c : ascii) : bool := ((lo <=? code c) && (code c <=? hi))%N.

(** [\w]: a letter, a digit or the underscore. *)
Definition word (c : ascii) : bool :=
  between 48 57 c || between 65 90 c || between 97 122 c || (code c =? 95)%N.

(** [[\w-]] *)
Definition id_char (c : ascii) : bool := word c || (code c =? 45)%N.

(** [\s], among the code units below 256: tab, line feed, vertical tab,
    form feed, carriage return, space and no-break space. *)
Definition white_space (c : ascii) : bool :=
  between 9 13 c || (code c =? 32)%N || (code c =? 160)%N.

(** [\S] *)
Definition non_space (c : ascii) : bool := negb (white_space c).

(** [.]: anything but a line terminator. *)
Definition dot (c : ascii) : bool := negb ((code c =? 10)%N || (code c =? 13)%N).

(** [[^\/\n\s]] *)
Definition segment (c : ascii) : bool :=
  negb ((code c =? 47)%N || (code c =? 10)%N || white_space c).

(** [[?&]] *)
Definition query_mark (c : ascii) : bool := (code c =? 63)%N || (code c =? 38)%N.

(** [/(?:youtube\.com\/(?:[^\/\n\s]+\/\S+\/|(?:v|e(?:mbed)?|shorts)\/|.*[?&]v=)|youtu\.be\/)([\w-]{11})/] *)
Definition url_pattern : regex :=
  Seq (Alt (Seq (Lit "youtube.com/")
              (Alt (Seq (Plus segment) (Seq (Lit "/") (Seq (Plus non_space) (Lit "/"))))
              (Alt (Seq (Alt (Lit "v") (Alt (Seq (Lit "e") (Opt (Lit "mbed"))) (Lit "shorts")))
                      (Lit "/"))
                   (Seq (Star dot) (Seq (Class query_mark) (Lit "v="))))))
           (Lit "youtu.be/"))
      (Group (Times 11 (Class id_char))).

(** [/^[\w-]{11}$/] *)
Definition id_pattern : regex := Seq Bol (Seq (Times 11 (Class id_char)) Eol).

(** [extractYouTubeId] *)
Definition extractYouTubeId (input : string) : string :=
  let fallback :=
    match search id_pattern input with
    | Some _ => input
    | None => ""
    end in
  match search url_pattern input with
  | Some m =>
      match group1 m with
      | Some (c :: id) => String.string_of_list_ascii (c :: id)
      | _ => fallback
      end
  | None => fallback
  end.

(** Is this string eleven characters of [[\w-]]? *)
Definition is_video_id (s : string) : Prop :=
  String.length s = 11 ∧ Forall (λ c, id_char c = true) (String.list_ascii_of_string s).

(** What a pattern matches, without regard to the order in which
    [exec] tries things. *)
Fixpoint matches (r : regex) (w : list ascii) : Prop :=
  match r with
  | Lit s => w = String.list_ascii_of_string s
  | Class p => ∃ c, w = [c] ∧ p c = true
  | Seq r1 r2 => ∃ w1 w2, w = w1 ++ w2 ∧ matches r1 w1 ∧ matches r2 w2
  | Alt r1 r2 => matches r1 w ∨ matches r2 w
  | Opt r1 => matches r1 w ∨ w = []
  | Star p => Forall (λ c, p c = true) w
  | Plus p => w ≠ [] ∧ Forall (λ c, p c = true) w
  | Times n r1 =>
      (fix times (n : nat) (w : list ascii) : Prop :=
         match n with
         | O => w = []
         | S n' => ∃ w1 w2, w = w1 ++ w2 ∧ matches r1 w1 ∧ times n' w2
         end) n w
  | Group r1 => matches r1 w
  | Bol | Eol => w = []
  end.

End VideoId.

(** ** The input box *)

Module Controls.
Import Js Client VideoId.

Section Handlers.
Context {PC P : Type} `{!PeerConnection PC} `{!Player P}.

Definition set_videoId (x : string) (c : client PC P) : client PC P :=
  Client (room c) (username c) (joined c) (isHost c) (wsReady c) (disableSync c) (error c)
         (logs c) x (localStream c) (wsRef c) (pcRef c) (ytPlayerRef c) (awaiting_media c)
         (interval c) (last_deps c) (now c) (calls c).

(** [handleVideoIdChange]: the [onChange] of the input box, which every
    render binds anew, so it acts on the values of the page.  [input] is
    [e.target.value]. *)
Definition handleVideoIdChange (input : string) : Eff (client PC P) unit :=
  k ← gets render_values;
  modify (set_videoId input);;
  let id := extractYouTubeId input in
  ws ← gets wsRef;
  if negb (String.eqb id "") && is_some ws && k_isHost k && negb (k_disableSync k) then
    ws_send (yt_sync_literal (k_room k) "load" None (Some (JStr id)))
  else mret tt.

End Handlers.

End Controls.

(* ===================================================================== *)
(** * Values on the wire *)
(* ===================================================================== *)

Module JsFacts.
Import Js.

(** Induction on a value, through its elements and its fields. *)
Lemma json_ind' (Q : json → Prop) :
  Q JNull →
  (∀ b, Q (JBool b)) →
  (∀ repr, Q (JNum repr)) →
  (∀ s, Q (JStr s)) →
  (∀ elems, Forall Q elems → Q (JArr elems)) →
  (∀ fields, Forall (λ kv, Q kv.2) fields → Q (JObj fields)) →
  ∀ v, Q v.
Proof.
  intros Hnull Hbool Hnum Hstr Harr Hobj.
  fix IH 1. intros [|b|repr|s|elems|fields].
  - exact Hnull.
  - apply Hbool.
  - apply Hnum.
  - apply Hstr.
  - apply Harr.
    exact ((fix all (l : list json) : Forall Q l :=
              match l with
              | [] => Forall_nil_2 Q
              | x :: rest => Forall_cons_2 Q x rest (IH x) (all rest)
              end) elems).
  - apply Hobj.
    exact ((fix all (l : list (string * json)) : Forall (λ kv, Q kv.2) l :=
              match l with
              | [] => Forall_nil_2 _
              | kv :: rest => Forall_cons_2 (λ kv, Q kv.2) kv rest (IH kv.2) (all rest)
              end) fields).
Qed.

(** A value made of finite numbers is decoded as it was written. *)
Lemma wire_all_finite v : all_finite v = true → wire v = v.
Proof.
  induction v as [|b|repr|s|elems IH|fields IH] using json_ind'; cbn; try done.
  - by intros ->.
  - intros Hall. f_equal. induction IH as [|x rest Hx _ IHrest]; [done|].
    cbn in Hall. apply andb_true_iff in Hall as [H1 H2].
    cbn. by rewrite Hx, IHrest.
  - intros Hall. f_equal. induction IH as [|[k x] rest Hx _ IHrest]; [done|].
    cbn in Hall. apply andb_true_iff in Hall as [H1 H2].
    cbn in *. by rewrite Hx, IHrest.
Qed.

(** What was decoded once is decoded as it is: relaying a relayed value
    changes nothing more. *)
Lemma wire_all_finite_2 v : all_finite (wire v) = true.
Proof.
  induction v as [|b|repr|s|elems IH|fields IH] using json_ind'; cbn; try done.
  - by destruct (finite repr) eqn:E; cbn.
  - induction IH as [|x rest Hx _ IHrest]; [done|]. cbn. by rewrite Hx.
  - induction IH as [|[k x] rest Hx _ IHrest]; [done|]. cbn in *. by rewrite Hx.
Qed.

Lemma wire_idempotent v : wire (wire v) = wire v.
Proof. apply wire_all_finite, wire_all_finite_2. Qed.

(** Reading a property of a decoded object. *)
Lemma assoc_wire name fields :
  assoc name (map (λ kv, (kv.1, wire kv.2)) fields) = wire <$> assoc name fields.
Proof.
  induction fields as [|[k x] rest IH]; [done|]. cbn.
  by destruct (String.eqb k name).
Qed.

Lemma is_str_wire (v : jsval) lit : is_str (wire <$> v) lit = is_str v lit.
Proof. destruct v as [[]|]; try done. cbn. by destruct (finite repr). Qed.

Lemma wire_object v : truthy (Some v) = true → all_finite v = true → truthy (Some (wire v)) = true.
Proof. intros Ht Hf. by rewrite wire_all_finite. Qed.

End JsFacts.
(* ===================================================================== *)
(** * Properties of the relay *)
(* ===================================================================== *)

Module RelayFacts.
Import Js Server.

(** ** Basic facts about the handlers *)

Lemma is_str_true v lit : is_str v lit = true → v = Some (JStr lit).
Proof.
  destruct v as [[]|]; simpl; try discriminate.
  by intros ->%String.eqb_eq.
Qed.

Lemma is_str_exclusive v a b : a ≠ b → is_str v a = true → is_str v b = false.
Proof.
  intros Hab ->%is_str_true. simpl. by apply String.eqb_neq.
Qed.

(** Open the handler up to its first decision. *)
Ltac open_handler :=
  unfold on_message, try_catch, message_body, peers_or_empty, rooms_at;
  cbv [mbind Eff_bind mret Eff_ret lift JSON_parse get].

(** A loop whose body only sends: the sends of the elements, in order. *)
Lemma forEach_sends {A} (body : A → M unit) (g : A → list (conn * json)) l c :
  (∀ x c', body x c' = (Ok tt, Ctx (rooms c') (locals c') (sent c' ++ g x))) →
  forEach body l c = (Ok tt, Ctx (rooms c) (locals c) (sent c ++ concat (map g l))).
Proof.
  intros Hbody. revert c. induction l as [|x l IH]; intros c; simpl.
  - rewrite app_nil_r. by destruct c.
  - unfold mbind, Eff_bind. rewrite Hbody, IH. simpl. by rewrite app_assoc.
Qed.

Lemma concat_map_others (ws : conn) (env : json) (peers : list peer) :
  concat (map (λ p, if bool_decide (peer_ws p ≠ ws) then [(peer_ws p, env)] else []) peers)
  = map (λ p, (peer_ws p, env)) (filter (λ p, peer_ws p ≠ ws) peers).
Proof.
  induction peers as [|p peers IH]; [done|]. simpl.
  rewrite filter_cons. case_bool_decide; case_decide; try done; simpl; by rewrite IH.
Qed.

(** The loop of both relay branches. *)
Lemma forEach_relay (ws : conn) (literal : list (string * jsval)) peers c :
  forEach (λ p, if bool_decide (peer_ws p ≠ ws)
                then send (peer_ws p) literal else mret tt) peers c
  = (Ok tt, Ctx (rooms c) (locals c)
              (sent c ++ map (λ p, (peer_ws p, JSON_stringify literal))
                             (filter (λ p, peer_ws p ≠ ws) peers))).
Proof.
  rewrite <- concat_map_others. apply forEach_sends.
  intros p c'. case_bool_decide; [done|].
  cbv [mret Eff_ret]. rewrite app_nil_r. by destruct c'.
Qed.

(** The relay branches, when the sender's room is a room of the registry
    (or no room at all). *)
Lemma relay_run ws fields r v k :
  is_str (assoc "type" fields) "signal" = true
  ∨ is_str (assoc "type" fields) "yt-sync" = true →
  ToPropertyKey (roomId v) = Ok k →
  rooms_get r k ≠ Inherited →
  on_message ws (Wellformed (JObj fields)) (Ctx r v [])
  = (Ok tt, Ctx r v (map (λ p, (peer_ws p, relayed v fields))
                       (filter (λ p, peer_ws p ≠ ws) (peersOf r k)))).
Proof.
  intros Hty Hk Hslot.
  assert (is_str (assoc "type" fields) "join" = false) as Hj.
  { destruct Hty as [H|H]; eapply is_str_exclusive; try exact H; done. }
  open_handler. unfold relayed. rewrite Hj.
  unfold peersOf, rooms_get in *.
  destruct (is_str (assoc "type" fields) "signal") eqn:Hs.
  - cbn. rewrite Hk.
    destruct (r !! k) as [peers|]; [|case_bool_decide; [done|reflexivity]].
    rewrite (forEach_relay ws [("type", Some (JStr "signal")); ("from", userId v);
                               ("payload", assoc "payload" fields)]).
    reflexivity.
  - destruct Hty as [?|Hy]; [done|]. rewrite Hy. cbn. rewrite Hk.
    destruct (r !! k) as [peers|]; [|case_bool_decide; [done|reflexivity]].
    rewrite (forEach_relay ws [("type", Some (JStr "yt-sync"));
                               ("action", assoc "action" fields);
                               ("time", assoc "time" fields);
                               ("videoId", assoc "videoId" fields)]).
    reflexivity.
Qed.

Lemma join_run ws fields r v :
  is_str (assoc "type" fields) "join" = true →
  on_message ws (Wellformed (JObj fields)) (Ctx r v []) = (Ok tt, join_result ws fields r v).
Proof.
  intros Hj.
  unfold on_message, try_catch, message_body, rooms_at, join_result.
  cbv [mbind Eff_bind mret Eff_ret lift JSON_parse get]. rewrite Hj. cbn.
  destruct (Buffer_from (assoc "key" fields)) as [buf|e]; [|reflexivity]. cbn.
  destruct (ToPropertyKey (assoc "room" fields)) as [k|e]; [|reflexivity]. cbn.
  unfold rooms_get, peersOf.
  destruct (r !! k) as [peers|] eqn:Hr; cbn.
  - rewrite Hr. reflexivity.
  - case_bool_decide; cbn.
    + rewrite Hr. reflexivity.
    + rewrite lookup_insert_eq. cbn. by rewrite insert_insert_eq.
Qed.

Lemma unrecognised_run ws data r v :
  data ≠ JNull →
  recognised (type_of data) = false →
  on_message ws (Wellformed data) (Ctx r v []) = (Ok tt, Ctx r v []).
Proof.
  unfold recognised. intros Hnull [[Hj Hs]%orb_false_elim Hy]%orb_false_elim.
  unfold on_message, try_catch, message_body.
  cbv [mbind Eff_bind mret Eff_ret lift JSON_parse].
  destruct data; try done; cbn in *; by rewrite ?Hj, ?Hs, ?Hy.
Qed.

Lemma close_run ws r v :
  on_close ws (Ctx r v [])
  = match close_result ws r v with
    | Ok r' => (Ok tt, Ctx r' v [])
    | Throw e => (Throw e, Ctx r v [])
    end.
Proof.
  unfold on_close, close_result, rooms_at.
  cbv [mbind Eff_bind mret Eff_ret lift get_locals]. cbn.
  destruct (truthy (roomId v)); [|reflexivity].
  destruct (ToPropertyKey (roomId v)) as [k|e]; [|reflexivity]. cbn.
  destruct (rooms_get r k) as [peers| |]; try reflexivity. cbn.
  case_bool_decide; [|reflexivity]. cbn. by rewrite delete_insert_eq.
Qed.

Lemma run_preserves (P : state → Prop) :
  (∀ st ev st' out, P st → step st ev = (Running st', out) → P st') →
  ∀ evs st st' out, P st → run st evs = (Running st', out) → P st'.
Proof.
  intros Hstep evs. induction evs as [|ev evs IH]; intros st st' out HP Hrun; cbn in Hrun.
  - by inversion Hrun; subst.
  - destruct (step st ev) as [[st1|e] out1] eqn:Hs; [|discriminate].
    destruct (run st1 evs) as [final out2] eqn:Hr. inversion Hrun; subst.
    eapply IH; [|exact Hr]. by eapply Hstep.
Qed.

(** The handler against its case-by-case description. *)
Lemma relay_result_run ws fields r v :
  is_str (assoc "type" fields) "signal" = true
  ∨ is_str (assoc "type" fields) "yt-sync" = true →
  on_message ws (Wellformed (JObj fields)) (Ctx r v []) = (Ok tt, relay_result ws fields r v).
Proof.
  intros Hty. unfold relay_result.
  destruct (ToPropertyKey (roomId v)) as [k|e] eqn:Hk.
  - destruct (rooms_get r k) as [peers| |] eqn:Hs.
    + apply relay_run; [done..|]. by rewrite Hs.
    + assert (is_str (assoc "type" fields) "join" = false) as Hj.
      { destruct Hty as [H|H]; eapply is_str_exclusive; try exact H; done. }
      open_handler. rewrite Hj.
      destruct (is_str (assoc "type" fields) "signal").
      * cbn. rewrite Hk. cbn. by rewrite Hs.
      * destruct Hty as [?|Hy]; [done|]. rewrite Hy. cbn. rewrite Hk. cbn. by rewrite Hs.
    + apply relay_run; [done..|]. by rewrite Hs.
  - assert (is_str (assoc "type" fields) "join" = false) as Hj.
    { destruct Hty as [H|H]; eapply is_str_exclusive; try exact H; done. }
    open_handler. rewrite Hj.
    destruct (is_str (assoc "type" fields) "signal").
    + cbn. by rewrite Hk.
    + destruct Hty as [?|Hy]; [done|]. rewrite Hy. cbn. by rewrite Hk.
Qed.

Lemma on_message_result ws message r v :
  on_message ws message (Ctx r v []) = (Ok tt, message_result ws message r v).
Proof.
  destruct message as [m|data]; [reflexivity|].
  destruct data; try reflexivity. cbn [message_result].
  destruct (is_str (assoc "type" fields) "join") eqn:Hj; [by apply join_run|].
  destruct (is_str (assoc "type" fields) "signal" || is_str (assoc "type" fields) "yt-sync")
    eqn:Hr.
  - apply relay_result_run. by apply orb_true_iff.
  - apply unrecognised_run; [done|]. unfold recognised. cbn [type_of].
    rewrite Hj. exact Hr.
Qed.

(** One step, with the handlers replaced by their descriptions. *)
Lemma step_message st ws message v :
  st_conns st !! ws = Some v →
  step st (Message ws message)
  = let c := message_result ws message (st_rooms st) v in
    (Running (State (rooms c) (<[ws := locals c]> (st_conns st)) (st_next st)), sent c).
Proof. intros Hv. cbn. by rewrite Hv, on_message_result. Qed.

Lemma step_close st ws v :
  st_conns st !! ws = Some v →
  step st (Close ws)
  = match close_result ws (st_rooms st) v with
    | Ok r' => (Running (State r' (delete ws (st_conns st)) (st_next st)), [])
    | Throw e => (Crashed e, [])
    end.
Proof.
  intros Hv. cbn. rewrite Hv, close_run.
  by destruct (close_result ws (st_rooms st) v).
Qed.

Lemma step_stranger st ws :
  st_conns st !! ws = None →
  (∀ message, step st (Message ws message) = (Running st, []))
  ∧ step st (Close ws) = (Running st, []).
Proof. intros Hv. split; [intros message|]; cbn; by rewrite Hv. Qed.

Lemma relay_result_rooms ws fields r v :
  rooms (relay_result ws fields r v) = r ∧ locals (relay_result ws fields r v) = v.
Proof.
  unfold relay_result. destruct (ToPropertyKey (roomId v)); [|done].
  by destruct (rooms_get r a).
Qed.

(** Only a [join] touches the registry or the variables. *)
Lemma message_result_other ws message r v :
  is_join_message message = false →
  rooms (message_result ws message r v) = r ∧ locals (message_result ws message r v) = v.
Proof.
  intros Hj. destruct message as [m|data]; [done|].
  destruct data; try done. cbn in *. rewrite Hj.
  destruct (_ || _); [apply relay_result_rooms|done].
Qed.

(** A [join] either leaves the registry as it is or appends one record of
    the sender to the room its [room] names. *)
Lemma join_result_rooms ws fields r v :
  rooms (join_result ws fields r v) = r
  ∨ ∃ k buf,
      ToPropertyKey (assoc "room" fields) = Ok k
      ∧ rooms (join_result ws fields r v)
        = <[k := peersOf r k ++ [Peer ws (assoc "user" fields) buf]]> r.
Proof.
  unfold join_result.
  destruct (Buffer_from (assoc "key" fields)) as [buf|e]; [|by left].
  destruct (ToPropertyKey (assoc "room" fields)) as [k|e]; [|by left].
  destruct (rooms_get r k); [right|by left|right]; by exists k, buf.
Qed.


(** A room code that names a property of [Object.prototype]: the [join]
    is answered with an error, and the close of that connection throws
    out of its listener. *)
Example prototype_room :
  run initial [ Connection; Message 0 (join_message "toString" "mallory" zeros); Close 0 ]
  = (Crashed (TypeError "rooms[roomId].filter is not a function"),
     [ (0, error_envelope "rooms[roomId].push is not a function") ]).
Proof. vm_compute. reflexivity. Qed.

(** The end-to-end scenario of the specification: alice and bob join
    ABCD, alice signals an offer, bob alone receives it. *)
Example alice_bob :
  run initial
    [ Connection; Connection;
      Message 0 (join_message "ABCD" "alice" zeros);
      Message 1 (join_message "ABCD" "bob" zeros);
      Message 0 (Wellformed (JObj [("type", JStr "signal"); ("room", JStr "ABCD");
                                   ("user", JStr "alice"); ("payload", offer)])) ]
  = (Running (State {[ "ABCD" := [Peer 0 (Some (JStr "alice")) (Bytes (replicate 32 0%N));
                                  Peer 1 (Some (JStr "bob")) (Bytes (replicate 32 0%N))] ]}
                (<[1 := Vars (Some (JStr "ABCD")) (Some (JStr "bob")) (Some (Bytes (replicate 32 0%N)))]>
                 (<[0 := Vars (Some (JStr "ABCD")) (Some (JStr "alice")) (Some (Bytes (replicate 32 0%N)))]> ∅))
                2),
     [ (0, JObj [("type", JStr "joined"); ("room", JStr "ABCD")]);
       (1, JObj [("type", JStr "joined"); ("room", JStr "ABCD")]);
       (1, JObj [("type", JStr "signal"); ("from", JStr "alice"); ("payload", offer)]) ]).
Proof. vm_compute. reflexivity. Qed.


Lemma state_insert_id st ws v :
  st_conns st !! ws = Some v →
  State (st_rooms st) (<[ws := v]> (st_conns st)) (st_next st) = st.
Proof. intros Hv. destruct st as [r cs n]. cbn in *. by rewrite insert_id. Qed.

(** ** The router *)

(** How many of the calls of a relay address a given connection. *)
Lemma count_deliveries (ws target : conn) (envelope : json) (peers : list peer) :
  length (filter (λ d, d.1 = target)
            ((λ p, (peer_ws p, envelope)) <$> filter (λ p, peer_ws p ≠ ws) peers))
  = if decide (target = ws) then 0
    else length (filter (λ p, peer_ws p = target) peers).
Proof.
  induction peers as [|p peers IH]; [by case_decide|].
  rewrite (filter_cons (λ p, peer_ws p ≠ ws)), (filter_cons (λ p, peer_ws p = target)).
  destruct (decide (peer_ws p ≠ ws)) as [Hne|Heq].
  - rewrite fmap_cons, filter_cons. cbn [fst].
    destruct (decide (peer_ws p = target)) as [Ht|Ht]; cbn [length]; rewrite IH.
    + destruct (decide (target = ws)); [congruence|done].
    + done.
  - apply dec_stable in Heq. rewrite IH.
    destruct (decide (target = ws)) as [->|Hn]; [done|].
    destruct (decide (peer_ws p = target)); [congruence|done].
Qed.

(** ** Frames the router does not recognise *)

(** C3, as stated, fails: a frame that parses but carries an unknown
    discriminant, or none, is answered with nothing at all. *)
Lemma unknown_type_gets_no_reply :
  step two_joined (Message 0 (Wellformed (JObj [("type", JStr "ping")])))
  = (Running two_joined, [])
  ∧ step two_joined (Message 0 (Wellformed (JObj []))) = (Running two_joined, [])
  ∧ ¬ ∃ st' message,
        step two_joined (Message 0 (Wellformed (JObj [("type", JStr "ping")])))
        = (st', [(0, error_envelope message)]).
Proof.
  assert (step two_joined (Message 0 (Wellformed (JObj [("type", JStr "ping")])))
          = (Running two_joined, [])) as Hping by (vm_compute; reflexivity).
  split; [exact Hping|]. split; [vm_compute; reflexivity|].
  intros (st' & message & H). rewrite Hping in H. discriminate.
Qed.

(** C3, amended. A frame that is not JSON is answered with exactly one
    [error] envelope, sent to the sender and carrying the parser's
    message; so is the JSON value [null].  Any other frame whose
    discriminant is missing or is not [join], [signal] or [yt-sync] is
    answered with nothing.  In all three cases the state of the relay is
    what it was: the connection stays open and no session is touched. *)
Theorem malformed_reported_unknown_ignored st ws v :
  st_conns st !! ws = Some v →
  (∀ m, step st (Message ws (Malformed m)) = (Running st, [(ws, error_envelope m)]))
  ∧ step st (Message ws (Wellformed JNull))
    = (Running st, [(ws, error_envelope "Cannot read properties of null (reading 'type')")])
  ∧ (∀ data, data ≠ JNull → recognised (type_of data) = false →
       step st (Message ws (Wellformed data)) = (Running st, [])).
Proof.
  intros Hv. repeat split.
  - intros m. rewrite (step_message _ _ _ v Hv). cbn. by rewrite state_insert_id.
  - rewrite (step_message _ _ _ v Hv). cbn. by rewrite state_insert_id.
  - intros data Hnull Hrec. rewrite (step_message _ _ _ v Hv).
    unfold recognised in Hrec.
    apply orb_false_elim in Hrec as [[Hj Hs]%orb_false_elim Hy].
    destruct data; try done; cbn in *; rewrite ?Hj, ?Hs, ?Hy; cbn;
      by rewrite state_insert_id.
Qed.

Lemma malformed_reported_unknown_ignored_witness :
  step two_joined (Message 1 (Malformed "Unexpected token h in JSON at position 0"))
  = (Running two_joined, [(1, error_envelope "Unexpected token h in JSON at position 0")]).
Proof.
  refine (proj1 (malformed_reported_unknown_ignored two_joined 1
           (Vars (Some (JStr "ABCD")) (Some (JStr "bob")) (Some (Bytes (replicate 32 0%N))))
           _) _).
  vm_compute. reflexivity.
Defined.

(** ** The shape of a relayed [yt-sync] *)

Lemma yt_sync_envelope_fields (action time videoId : jsval) :
  let envelope := yt_sync_envelope action time videoId in
  field_names envelope ⊆ ["type"; "action"; "time"; "videoId"]
  ∧ field "type" envelope = Some (JStr "yt-sync")
  ∧ field "action" envelope = wire <$> action
  ∧ field "time" envelope = wire <$> time
  ∧ field "videoId" envelope = wire <$> videoId
  ∧ field "room" envelope = None
  ∧ field "from" envelope = None
  ∧ field "user" envelope = None.
Proof.
  destruct action, time, videoId; cbn; repeat split; set_solver.
Qed.

(** C10. Every envelope a [yt-sync] frame makes the relay send to another
    connection has no field besides [type], [action], [time] and
    [videoId]: no [room], no [from], no [user].  [time] and [videoId] are
    the inbound frame's, as [JSON.stringify] writes them (the values
    themselves when they hold finite numbers only), whatever the action,
    and are absent exactly when the inbound frame has none. *)
Theorem yt_sync_relay_has_four_fields st ws v fields st' out target envelope :
  st_conns st !! ws = Some v →
  is_str (assoc "type" fields) "yt-sync" = true →
  step st (Message ws (Wellformed (JObj fields))) = (st', out) →
  (target, envelope) ∈ out →
  target ≠ ws →
  field_names envelope ⊆ ["type"; "action"; "time"; "videoId"]
  ∧ field "type" envelope = Some (JStr "yt-sync")
  ∧ field "action" envelope = wire <$> assoc "action" fields
  ∧ field "time" envelope = wire <$> assoc "time" fields
  ∧ field "videoId" envelope = wire <$> assoc "videoId" fields
  ∧ field "room" envelope = None
  ∧ field "from" envelope = None
  ∧ field "user" envelope = None
  ∧ (∀ name value,
       name ∈ ["action"; "time"; "videoId"] →
       assoc name fields = Some value →
       all_finite value = true →
       field name envelope = Some value).
Proof.
  intros Hv Hy Hstep Hin Hne.
  rewrite (step_message _ _ _ v Hv) in Hstep. cbn [message_result] in Hstep.
  rewrite (is_str_exclusive _ "yt-sync" "join"), (is_str_exclusive _ "yt-sync" "signal"), Hy
    in Hstep by done.
  cbn in Hstep. inversion Hstep as [[Hst Hout]]. clear Hstep Hst.
  assert (envelope = yt_sync_envelope (assoc "action" fields) (assoc "time" fields)
                       (assoc "videoId" fields)) as ->.
  { subst out. unfold relay_result in Hin.
    destruct (ToPropertyKey (roomId v)) as [k|e]; cbn in Hin.
    - destruct (rooms_get (st_rooms st) k); cbn in Hin.
      + apply list_elem_of_fmap in Hin as (p & [= _ ->] & _). unfold relayed.
        by rewrite (is_str_exclusive _ "yt-sync" "signal").
      + apply list_elem_of_singleton in Hin. congruence.
      + apply list_elem_of_fmap in Hin as (p & [= _ ->] & _). unfold relayed.
        by rewrite (is_str_exclusive _ "yt-sync" "signal").
    - apply list_elem_of_singleton in Hin. congruence. }
  destruct (yt_sync_envelope_fields (assoc "action" fields) (assoc "time" fields)
              (assoc "videoId" fields)) as (H1 & H2 & Ha & Ht & Hi & H6 & H7 & H8).
  repeat (split; [done|]).
  intros name value Hname Hvalue Hfin.
  assert (name = "action" ∨ name = "time" ∨ name = "videoId") as [->|[->| ->]]
    by set_solver;
    rewrite ?Ha, ?Ht, ?Hi, Hvalue; cbn; by rewrite JsFacts.wire_all_finite.
Qed.

Lemma yt_sync_relay_has_four_fields_witness :
  field_names seek_relayed ⊆ ["type"; "action"; "time"; "videoId"]
  ∧ field "type" seek_relayed = Some (JStr "yt-sync")
  ∧ field "action" seek_relayed = Some (JStr "seek")
  ∧ field "time" seek_relayed = Some (JNum "42.5")
  ∧ field "videoId" seek_relayed = None
  ∧ field "room" seek_relayed = None
  ∧ field "from" seek_relayed = None
  ∧ field "user" seek_relayed = None.
Proof.
  destruct (yt_sync_relay_has_four_fields two_joined 0
              (Vars (Some (JStr "ABCD")) (Some (JStr "alice"))
                 (Some (Bytes (replicate 32 0%N))))
              [("type", JStr "yt-sync"); ("room", JStr "ABCD"); ("action", JStr "seek");
               ("time", JNum "42.5")]
              (Running two_joined)
              [(1, JObj [("type", JStr "yt-sync"); ("action", JStr "seek");
                         ("time", JNum "42.5")])]
              1 seek_relayed)
    as (H1 & H2 & H3 & H4 & H5 & H6 & H7 & H8 & _).
  - vm_compute. reflexivity.
  - reflexivity.
  - vm_compute. reflexivity.
  - apply list_elem_of_singleton. reflexivity.
  - lia.
  - repeat split; assumption.
Defined.


(** ** The registry *)

Lemma filter_none {A} (P : A → Prop) `{!∀ x, Decision (P x)} (l : list A) :
  (∀ x, x ∈ l → ¬ P x) → filter P l = [].
Proof.
  induction l as [|x l IH]; [done|]. intros Hall. rewrite filter_cons.
  destruct (decide (P x)) as [HP|_].
  - destruct (Hall x); [left|done].
  - apply IH. intros y Hy. apply Hall. by right.
Qed.

Lemma inhabited_join ws fields r v :
  inhabited_rooms r → inhabited_rooms (rooms (join_result ws fields r v)).
Proof.
  intros Hr. destruct (join_result_rooms ws fields r v) as [->|(k & buf & _ & ->)]; [done|].
  intros k' peers. destruct (decide (k = k')) as [->|Hne].
  - rewrite lookup_insert_eq. intros [= <-]. by destruct (peersOf r k').
  - rewrite lookup_insert_ne by done. apply Hr.
Qed.

Lemma inhabited_message ws message r v :
  inhabited_rooms r → inhabited_rooms (rooms (message_result ws message r v)).
Proof.
  intros Hr. destruct (is_join_message message) eqn:Hj.
  - destruct message as [|[]]; try done. cbn in *. rewrite Hj. by apply inhabited_join.
  - by rewrite (proj1 (message_result_other ws message r v Hj)).
Qed.

Lemma inhabited_close ws r v r' :
  inhabited_rooms r → close_result ws r v = Ok r' → inhabited_rooms r'.
Proof.
  intros Hr. unfold close_result.
  destruct (truthy (roomId v)); [|by intros [= <-]].
  destruct (ToPropertyKey (roomId v)) as [k|e]; [|done].
  destruct (rooms_get r k) as [peers| |]; [|done|by intros [= <-]].
  case_bool_decide as Hlen; intros [= <-]; intros k' l.
  - destruct (decide (k = k')) as [->|Hne].
    + by rewrite lookup_delete_eq.
    + rewrite lookup_delete_ne by done. apply Hr.
  - destruct (decide (k = k')) as [->|Hne].
    + rewrite lookup_insert_eq. intros [= <-] Hnil. by rewrite Hnil in Hlen.
    + rewrite lookup_insert_ne by done. apply Hr.
Qed.

Lemma inhabited_step st ev st' out :
  inhabited_rooms (st_rooms st) → step st ev = (Running st', out) →
  inhabited_rooms (st_rooms st').
Proof.
  intros Hr. destruct ev as [|ws message|ws].
  - by intros [= <- _].
  - destruct (st_conns st !! ws) as [v|] eqn:Hv.
    + rewrite (step_message _ _ _ v Hv). intros [= <- _]. by apply inhabited_message.
    + rewrite (proj1 (step_stranger st ws Hv)). by intros [= <- _].
  - destruct (st_conns st !! ws) as [v|] eqn:Hv.
    + rewrite (step_close _ _ v Hv).
      destruct (close_result ws (st_rooms st) v) as [r'|e] eqn:Hc; [|done].
      intros [= <- _]. by eapply inhabited_close.
    + rewrite (proj2 (step_stranger st ws Hv)). by intros [= <- _].
Qed.

Lemma inhabited_reachable evs st out :
  run initial evs = (Running st, out) → inhabited_rooms (st_rooms st).
Proof.
  apply (run_preserves (λ st, inhabited_rooms (st_rooms st))).
  - intros. by eapply inhabited_step.
  - intros k peers. cbn. by rewrite lookup_empty.
Qed.

(** ** One connection, one room? *)

Lemma peersOf_insert_eq r k l : peersOf (<[k := l]> r) k = l.
Proof. unfold peersOf. by rewrite lookup_insert_eq. Qed.

Lemma peersOf_insert_ne r k k' l : k ≠ k' → peersOf (<[k := l]> r) k' = peersOf r k'.
Proof. intros Hne. unfold peersOf. by rewrite lookup_insert_ne. Qed.

Lemma peersOf_delete_eq r k : peersOf (delete k r) k = [].
Proof. unfold peersOf. by rewrite lookup_delete_eq. Qed.

Lemma peersOf_delete_ne r k k' : k ≠ k' → peersOf (delete k r) k' = peersOf r k'.
Proof. intros Hne. unfold peersOf. by rewrite lookup_delete_ne. Qed.

Lemma filter_other_connection (c ws : conn) (peers : list peer) :
  ws ≠ c →
  filter (λ p, peer_ws p = c) (filter (λ p, peer_ws p ≠ ws) peers)
  = filter (λ p, peer_ws p = c) peers.
Proof.
  intros Hne. induction peers as [|p peers IH]; [done|].
  rewrite (filter_cons (λ p, peer_ws p ≠ ws)).
  destruct (decide (peer_ws p ≠ ws)) as [Hp|Hp].
  - rewrite !filter_cons. by rewrite IH.
  - apply dec_stable in Hp. rewrite filter_cons.
    destruct (decide (peer_ws p = c)); [congruence|done].
Qed.

Lemma filter_own_connection (c : conn) (peers : list peer) :
  filter (λ p, peer_ws p = c) (filter (λ p, peer_ws p ≠ c) peers) = [].
Proof.
  apply filter_none. by intros p [Hp _]%list_elem_of_filter.
Qed.

(** What a [join] of connection [ws] does to the records of [c]. *)
Lemma registrations_join ws fields r v c :
  let r' := rooms (join_result ws fields r v) in
  (∀ k, registrations r' c k = registrations r c k)
  ∨ (ws = c ∧ ∃ k p,
       registrations r' c k = registrations r c k ++ [p]
       ∧ ∀ k', k' ≠ k → registrations r' c k' = registrations r c k').
Proof.
  intros r'. unfold r'.
  destruct (join_result_rooms ws fields r v) as [->|(k & buf & _ & ->)]; [by left|].
  destruct (decide (ws = c)) as [->|Hne].
  - right. split; [done|]. exists k, (Peer c (assoc "user" fields) buf). split.
    + unfold registrations. rewrite peersOf_insert_eq, filter_app.
      f_equal. rewrite filter_cons. cbn. by rewrite decide_True.
    + intros k' Hk. unfold registrations. by rewrite peersOf_insert_ne.
  - left. intros k'. unfold registrations. destruct (decide (k = k')) as [->|Hk].
    + rewrite peersOf_insert_eq, filter_app, filter_cons. cbn.
      rewrite decide_False by done. by rewrite app_nil_r.
    + by rewrite peersOf_insert_ne.
Qed.

(** A close never adds a record. *)
Lemma registrations_close ws r v r' c k :
  close_result ws r v = Ok r' →
  registrations r' c k = registrations r c k ∨ registrations r' c k = [].
Proof.
  unfold close_result.
  destruct (truthy (roomId v)); [|intros [= <-]; by left].
  destruct (ToPropertyKey (roomId v)) as [k0|e]; [|done].
  unfold rooms_get. destruct (r !! k0) as [peers|] eqn:Hr.
  - case_bool_decide; intros [= <-]; unfold registrations.
    + destruct (decide (k0 = k)) as [->|Hk].
      * right. by rewrite peersOf_delete_eq.
      * left. by rewrite peersOf_delete_ne.
    + destruct (decide (k0 = k)) as [->|Hk].
      * rewrite peersOf_insert_eq. destruct (decide (ws = c)) as [->|Hne].
        -- right. apply filter_own_connection.
        -- left. rewrite filter_other_connection by done.
           unfold peersOf. by rewrite Hr.
      * left. by rewrite peersOf_insert_ne.
  - case_bool_decide; [done|]. intros [= <-]. by left.
Qed.

(** An event that is not a [join] on [c] adds no record of [c]. *)
Lemma registrations_step st ev st' out c k :
  step st ev = (Running st', out) →
  is_join c ev = false →
  registrations (st_rooms st') c k = registrations (st_rooms st) c k
  ∨ registrations (st_rooms st') c k = [].
Proof.
  destruct ev as [|ws message|ws].
  - intros [= <- _] _. by left.
  - destruct (st_conns st !! ws) as [v|] eqn:Hv.
    + rewrite (step_message _ _ _ v Hv). intros [= <- _] Hj. cbn in *.
      destruct (is_join_message message) eqn:Hjm.
      * rewrite andb_true_r in Hj. apply bool_decide_eq_false in Hj.
        destruct message as [|[]]; try done. cbn in *. rewrite Hjm.
        destruct (registrations_join ws fields (st_rooms st) v c) as [H|[? _]]; [|done].
        left. apply H.
      * left. by rewrite (proj1 (message_result_other ws message _ v Hjm)).
    + rewrite (proj1 (step_stranger st ws Hv)). intros [= <- _] _. by left.
  - destruct (st_conns st !! ws) as [v|] eqn:Hv.
    + rewrite (step_close _ _ v Hv).
      destruct (close_result ws (st_rooms st) v) as [r'|e] eqn:Hc; [|done].
      intros [= <- _] _. by eapply registrations_close.
    + rewrite (proj2 (step_stranger st ws Hv)). intros [= <- _] _. by left.
Qed.

Lemma joins_cons c ev evs :
  joins c (ev :: evs) = (if is_join c ev then 1 else 0) + joins c evs.
Proof.
  unfold joins. rewrite filter_cons.
  destruct (is_join c ev); [rewrite decide_True by done|rewrite decide_False by done]; done.
Qed.

Lemma registrations_run evs : ∀ st st' out c k,
  run st evs = (Running st', out) →
  joins c evs = 0 →
  registrations (st_rooms st') c k = registrations (st_rooms st) c k
  ∨ registrations (st_rooms st') c k = [].
Proof.
  induction evs as [|ev evs IH]; intros st st' out c k Hrun Hj; cbn in Hrun.
  - inversion Hrun; subst. by left.
  - rewrite joins_cons in Hj.
    destruct (is_join c ev) eqn:Hev; [lia|].
    destruct (step st ev) as [[st1|e] out1] eqn:Hs; [|done].
    destruct (run st1 evs) as [final out2] eqn:Hr. inversion Hrun; subst.
    destruct (IH _ _ _ c k Hr) as [->| ->]; [lia| |by right].
    by eapply registrations_step.
Qed.

(** A connection that has sent at most one [join] has at most one record,
    in at most one room. *)
Lemma single_join_run evs : ∀ st st' out c,
  (∀ k, registrations (st_rooms st) c k = []) →
  run st evs = (Running st', out) →
  joins c evs ≤ 1 →
  ∃ k, (∀ k', k' ≠ k → registrations (st_rooms st') c k' = [])
       ∧ length (registrations (st_rooms st') c k) ≤ 1.
Proof.
  induction evs as [|ev evs IH]; intros st st' out c Hnone Hrun Hj; cbn in Hrun.
  - inversion Hrun; subst. exists "". split; [by intros|]. rewrite Hnone. cbn. lia.
  - rewrite joins_cons in Hj.
    destruct (step st ev) as [[st1|e] out1] eqn:Hs; [|done].
    destruct (run st1 evs) as [final out2] eqn:Hr. inversion Hrun; subst.
    destruct (is_join c ev) eqn:Hev.
    + assert (joins c evs = 0) as Hj0 by lia.
      destruct ev as [|ws message|]; try done. cbn in Hev.
      apply andb_true_iff in Hev as [->%bool_decide_eq_true Hjm].
      assert (∃ k, (∀ k', k' ≠ k → registrations (st_rooms st1) c k' = [])
                   ∧ length (registrations (st_rooms st1) c k) ≤ 1) as (k & Hk & Hlen).
      { destruct (st_conns st !! c) as [v|] eqn:Hv.
        - rewrite (step_message _ _ _ v Hv) in Hs. inversion Hs; subst. cbn.
          destruct message as [|[]]; try done. cbn in *. rewrite Hjm.
          destruct (registrations_join c fields (st_rooms st) v c)
            as [H|(_ & k & p & Hk & Hother)].
          + exists "". split; [intros; by rewrite H|]. rewrite H, Hnone. cbn. lia.
          + exists k. split; [intros; by rewrite Hother|].
            rewrite Hk, Hnone. cbn. lia.
        - rewrite (proj1 (step_stranger st c Hv)) in Hs. inversion Hs; subst.
          exists "". split; [by intros|]. rewrite Hnone. cbn. lia. }
      exists k. split.
      * intros k' Hne. destruct (registrations_run _ _ _ _ c k' Hr Hj0) as [->| ->]; auto.
      * destruct (registrations_run _ _ _ _ c k Hr Hj0) as [->| ->]; [done|cbn; lia].
    + eapply (IH st1); [|exact Hr|lia].
      intros k. destruct (registrations_step _ _ _ _ c k Hs Hev) as [->| ->]; auto.
Qed.


(** ** One copy per record *)

(** C1, as stated, fails: a connection that has joined the room twice has
    two records in it and is sent every relayed frame twice. *)
Lemma double_join_gets_two_copies :
  registrations (st_rooms bob_twice) 1 "ABCD"
  = [ Peer 1 (Some (JStr "bob")) (Bytes (replicate 32 0%N));
      Peer 1 (Some (JStr "bob")) (Bytes (replicate 32 0%N)) ]
  ∧ step bob_twice (Message 0 (signal_frame offer))
    = (Running bob_twice,
       [ (1, JObj [("type", JStr "signal"); ("from", JStr "alice"); ("payload", offer)]);
         (1, JObj [("type", JStr "signal"); ("from", JStr "alice"); ("payload", offer)]) ]).
Proof. vm_compute. split; reflexivity. Qed.

(** C1, amended. A [signal] or [yt-sync] frame from connection [ws],
    whose room variable names the room [R] of the registry, makes one
    call to [send] for every record of [R] that belongs to another
    connection, in registration order, each with the relayed envelope;
    no call addresses [ws], and the state is left as it was.  A
    connection receives as many copies as it has records in [R]: exactly
    one when it has one record, which is the case of every registered
    connection that has joined at most once. *)
Theorem relay_reaches_every_other_session st ws v fields R peers :
  st_conns st !! ws = Some v →
  is_str (assoc "type" fields) "signal" = true
  ∨ is_str (assoc "type" fields) "yt-sync" = true →
  ToPropertyKey (roomId v) = Ok R →
  st_rooms st !! R = Some peers →
  let deliveries := map (λ p, (peer_ws p, relayed v fields))
                        (filter (λ p, peer_ws p ≠ ws) peers) in
  let copies target := length (filter (λ d, d.1 = target) deliveries) in
  step st (Message ws (Wellformed (JObj fields))) = (Running st, deliveries)
  ∧ (∀ p, p ∈ peers → peer_ws p ≠ ws → (peer_ws p, relayed v fields) ∈ deliveries)
  ∧ (∀ target, copies target
               = if decide (target = ws) then 0
                 else length (filter (λ p, peer_ws p = target) peers))
  ∧ (∀ envelope, (ws, envelope) ∉ deliveries)
  ∧ (∀ target, target ≠ ws →
       length (filter (λ p, peer_ws p = target) peers) = 1 → copies target = 1)
  ∧ (∀ evs out target p,
       run initial evs = (Running st, out) →
       joins target evs ≤ 1 →
       p ∈ peers → peer_ws p = target → target ≠ ws →
       copies target = 1).
Proof.
  intros Hv Hty HR Hpeers deliveries copies.
  assert (is_str (assoc "type" fields) "join" = false) as Hj.
  { destruct Hty as [H|H]; eapply is_str_exclusive; try exact H; done. }
  assert (∀ target, copies target
                    = if decide (target = ws) then 0
                      else length (filter (λ p, peer_ws p = target) peers)) as Hcount.
  { intros target. apply count_deliveries. }
  split; [|split; [|split; [|split; [|split]]]].
  - rewrite (step_message _ _ _ v Hv). cbn [message_result]. rewrite Hj.
    replace (_ || _) with true by (symmetry; by apply orb_true_iff).
    unfold relay_result. rewrite HR. unfold rooms_get, peersOf. rewrite Hpeers.
    cbn. by rewrite state_insert_id.
  - intros p Hp Hne. unfold deliveries.
    apply (list_elem_of_fmap_2 (λ p, (peer_ws p, relayed v fields))).
    by apply list_elem_of_filter.
  - exact Hcount.
  - intros envelope [p [[= Hws _] [Hne _]%list_elem_of_filter]]%list_elem_of_fmap.
    by apply Hne.
  - intros target Hne Hone. rewrite Hcount. by rewrite decide_False.
  - intros evs out target p Hrun Hjoins Hp Htarget Hne.
    rewrite Hcount, decide_False by done.
    destruct (single_join_run evs initial st out target) as (k & Hother & Hlen);
      [| done | done |].
    { intros k. unfold registrations, peersOf. cbn. by rewrite lookup_empty. }
    assert (registrations (st_rooms st) target R
            = filter (λ p, peer_ws p = target) peers) as Hreg.
    { unfold registrations, peersOf. by rewrite Hpeers. }
    assert (p ∈ filter (λ p, peer_ws p = target) peers) as Hin
      by by apply list_elem_of_filter.
    destruct (decide (R = k)) as [->|HRk].
    + rewrite Hreg in Hlen.
      destruct (filter (λ p, peer_ws p = target) peers) as [|? [|? ?]]; cbn in *;
        [by apply elem_of_nil in Hin|done|lia].
    + rewrite <- Hreg, (Hother R HRk) in Hin. by apply elem_of_nil in Hin.
Qed.

Lemma relay_reaches_every_other_session_witness :
  step two_joined (Message 0 (Wellformed (JObj [("type", JStr "signal"); ("payload", offer)])))
  = (Running two_joined,
     [(1, JObj [("type", JStr "signal"); ("from", JStr "alice"); ("payload", offer)])]).
Proof.
  apply (relay_reaches_every_other_session two_joined 0
           (Vars (Some (JStr "ABCD")) (Some (JStr "alice")) (Some (Bytes (replicate 32 0%N))))
           [("type", JStr "signal"); ("payload", offer)] "ABCD"
           [Peer 0 (Some (JStr "alice")) (Bytes (replicate 32 0%N));
            Peer 1 (Some (JStr "bob")) (Bytes (replicate 32 0%N))]).
  - vm_compute. reflexivity.
  - left. reflexivity.
  - reflexivity.
  - vm_compute. reflexivity.
Defined.


Lemma below_next_step st ev st' out :
  below_next st → step st ev = (Running st', out) → below_next st'.
Proof.
  intros Hb. destruct ev as [|ws message|ws].
  - intros [= <- _] c Hc. cbn in *. rewrite lookup_insert_ne by lia. apply Hb. lia.
  - destruct (st_conns st !! ws) as [v|] eqn:Hv.
    + rewrite (step_message _ _ _ v Hv). intros [= <- _] c Hc. cbn in *.
      destruct (decide (ws = c)) as [Heq|Hne].
      * pose proof (Hb c Hc). congruence.
      * rewrite lookup_insert_ne by done. by apply Hb.
    + rewrite (proj1 (step_stranger st ws Hv)). by intros [= <- _].
  - destruct (st_conns st !! ws) as [v|] eqn:Hv.
    + rewrite (step_close _ _ v Hv).
      destruct (close_result ws (st_rooms st) v) as [r'|e]; [|done].
      intros [= <- _] c Hc. cbn in *. apply lookup_delete_None. right. by apply Hb.
    + rewrite (proj2 (step_stranger st ws Hv)). by intros [= <- _].
Qed.

Lemma below_next_reachable evs st out :
  run initial evs = (Running st, out) → below_next st.
Proof.
  apply (run_preserves below_next).
  - intros. by eapply below_next_step.
  - intros c _. cbn. by rewrite lookup_empty.
Qed.

(** Only its own [join] and its own close change the variables of a
    connection. *)
Lemma variables_step st ev st' out c v :
  below_next st →
  step st ev = (Running st', out) →
  is_join c ev = false →
  ev ≠ Close c →
  st_conns st !! c = Some v →
  st_conns st' !! c = Some v.
Proof.
  intros Hb Hstep Hj Hclose Hc. destruct ev as [|ws message|ws].
  - inversion Hstep; subst. cbn. rewrite lookup_insert_ne; [done|].
    intros Heq. rewrite (Hb c) in Hc; [done|lia].
  - destruct (st_conns st !! ws) as [w|] eqn:Hw.
    + rewrite (step_message _ _ _ w Hw) in Hstep. inversion Hstep; subst. cbn.
      destruct (decide (ws = c)) as [Heq|Hne].
      * subst ws. rewrite lookup_insert_eq. cbn in Hj.
        rewrite bool_decide_eq_true_2 in Hj by done.
        rewrite (proj2 (message_result_other c message _ w Hj)). congruence.
      * by rewrite lookup_insert_ne.
    + rewrite (proj1 (step_stranger st ws Hw)) in Hstep. by inversion Hstep; subst.
  - destruct (st_conns st !! ws) as [w|] eqn:Hw.
    + rewrite (step_close _ _ w Hw) in Hstep.
      destruct (close_result ws (st_rooms st) w) as [r'|e]; [|done].
      inversion Hstep; subst. cbn. rewrite lookup_delete_ne; [done|congruence].
    + rewrite (proj2 (step_stranger st ws Hw)) in Hstep. by inversion Hstep; subst.
Qed.

(** C6, as stated, fails: a second [join] on a connection rebinds its room
    variable and registers it in the new room, while its record in the
    first room stays. *)
Lemma second_join_second_room :
  run initial [ Connection;
                Message 0 (join_message "A" "alice" zeros);
                Message 0 (join_message "B" "alice" zeros) ]
  = (Running rejoined,
     [ (0, joined_envelope (Some (JStr "A"))); (0, joined_envelope (Some (JStr "B"))) ])
  ∧ registrations (st_rooms rejoined) 0 "A"
    = [Peer 0 (Some (JStr "alice")) (Bytes (replicate 32 0%N))]
  ∧ registrations (st_rooms rejoined) 0 "B"
    = [Peer 0 (Some (JStr "alice")) (Bytes (replicate 32 0%N))]
  ∧ roomId <$> st_conns rejoined !! 0 = Some (Some (JStr "B")).
Proof. vm_compute. repeat split; reflexivity. Qed.

(** C6, amended. A connection that has sent at most one [join] has at
    most one record in the registry, hence at most one room, at every
    point of every run; and no event other than a [join] on that
    connection adds a record of it or, short of its own close, changes
    its room variable.  (A further [join] on the same connection is not
    refused.) *)
Theorem one_join_one_room evs st out c :
  run initial evs = (Running st, out) →
  (joins c evs ≤ 1 →
   ∃ k, (∀ k', k' ≠ k → registrations (st_rooms st) c k' = [])
        ∧ length (registrations (st_rooms st) c k) ≤ 1)
  ∧ (∀ ev st1 out1,
       step st ev = (Running st1, out1) →
       is_join c ev = false →
       (∀ k, registrations (st_rooms st1) c k = registrations (st_rooms st) c k
             ∨ registrations (st_rooms st1) c k = [])
       ∧ (∀ v, ev ≠ Close c → st_conns st !! c = Some v → st_conns st1 !! c = Some v)).
Proof.
  intros Hrun. split.
  - intros Hj. eapply single_join_run; [|exact Hrun|exact Hj].
    intros k. unfold registrations, peersOf. cbn. by rewrite lookup_empty.
  - intros ev st1 out1 Hstep Hj. split.
    + intros k. by eapply registrations_step.
    + intros v Hclose Hv. eapply variables_step; try done.
      by eapply below_next_reachable.
Qed.

Lemma one_join_one_room_witness :
  ∃ k, (∀ k', k' ≠ k → registrations (st_rooms two_joined) 0 k' = [])
       ∧ length (registrations (st_rooms two_joined) 0 k) ≤ 1.
Proof.
  refine (proj1 (one_join_one_room
           [ Connection; Connection;
             Message 0 (join_message "ABCD" "alice" zeros);
             Message 1 (join_message "ABCD" "bob" zeros) ]
           two_joined
           [ (0, JObj [("type", JStr "joined"); ("room", JStr "ABCD")]);
             (1, JObj [("type", JStr "joined"); ("room", JStr "ABCD")]) ] 0 _) _).
  - vm_compute. reflexivity.
  - vm_compute. lia.
Defined.


(** ** The declared key *)

Lemma keyless_lookup r1 r2 k :
  keyless_rooms r1 = keyless_rooms r2 →
  map keyless_peer <$> r1 !! k = map keyless_peer <$> r2 !! k.
Proof.
  intros H. unfold keyless_rooms in H.
  by rewrite <- !lookup_fmap, H.
Qed.

Lemma keyless_peersOf r1 r2 k :
  keyless_rooms r1 = keyless_rooms r2 →
  map keyless_peer (peersOf r1 k) = map keyless_peer (peersOf r2 k).
Proof.
  intros H%(keyless_lookup _ _ k). unfold peersOf.
  destruct (r1 !! k), (r2 !! k); cbn in *; congruence.
Qed.

Lemma keyless_rooms_get r1 r2 k :
  keyless_rooms r1 = keyless_rooms r2 →
  match rooms_get r1 k, rooms_get r2 k with
  | Own _, Own _ | Inherited, Inherited | Absent, Absent => True
  | _, _ => False
  end.
Proof.
  intros H%(keyless_lookup _ _ k). unfold rooms_get.
  destruct (r1 !! k), (r2 !! k); cbn in *; try done.
  by case_bool_decide.
Qed.

Lemma keyless_filter (ws : conn) (l1 l2 : list peer) :
  map keyless_peer l1 = map keyless_peer l2 →
  map keyless_peer (filter (λ p, peer_ws p ≠ ws) l1)
  = map keyless_peer (filter (λ p, peer_ws p ≠ ws) l2).
Proof.
  revert l2. induction l1 as [|p l1 IH]; intros [|q l2]; try done.
  intros [= Hws Hu Hl]. rewrite !filter_cons.
  destruct (decide (peer_ws p ≠ ws)) as [H1|H1], (decide (peer_ws q ≠ ws)) as [H2|H2].
  - rewrite !fmap_cons. f_equal; [unfold keyless_peer; congruence|by apply IH].
  - exfalso. apply H2. by rewrite <- Hws.
  - exfalso. apply H1. by rewrite Hws.
  - by apply IH.
Qed.

Lemma keyless_deliveries (ws : conn) (envelope : json) (l1 l2 : list peer) :
  map keyless_peer l1 = map keyless_peer l2 →
  map (λ p, (peer_ws p, envelope)) (filter (λ p, peer_ws p ≠ ws) l1)
  = map (λ p, (peer_ws p, envelope)) (filter (λ p, peer_ws p ≠ ws) l2).
Proof.
  intros H%(keyless_filter ws).
  assert (∀ l : list peer,
            map (λ p, (peer_ws p, envelope)) l
            = map (λ d, (d.1, envelope)) (map keyless_peer l)) as Hmap.
  { intros l. by rewrite map_map. }
  by rewrite !Hmap, H.
Qed.

Lemma relay_result_keyless ws fields1 fields2 r1 r2 v1 v2 :
  (∀ name, name ≠ "key" → assoc name fields1 = assoc name fields2) →
  keyless_rooms r1 = keyless_rooms r2 →
  keyless_vars v1 = keyless_vars v2 →
  sent (relay_result ws fields1 r1 v1) = sent (relay_result ws fields2 r2 v2).
Proof.
  intros Hf Hr [= Hroom Huser]. unfold relay_result. rewrite Hroom.
  destruct (ToPropertyKey (roomId v2)) as [k|e]; [|done].
  pose proof (keyless_rooms_get _ _ k Hr) as Hs.
  assert (relayed v1 fields1 = relayed v2 fields2) as Henv.
  { unfold relayed. rewrite Huser, !Hf by done. done. }
  destruct (rooms_get r1 k), (rooms_get r2 k); try done; cbn; rewrite Henv;
    by apply keyless_deliveries, keyless_peersOf.
Qed.

Lemma join_result_keyless ws fields1 fields2 r1 r2 v1 v2 :
  alike fields1 fields2 →
  keyless_rooms r1 = keyless_rooms r2 →
  let c1 := join_result ws fields1 r1 v1 in
  let c2 := join_result ws fields2 r2 v2 in
  sent c1 = sent c2
  ∧ keyless_rooms (rooms c1) = keyless_rooms (rooms c2)
  ∧ keyless_vars (locals c1) = keyless_vars (locals c2).
Proof.
  intros [Hf Hkey] Hr. cbn. unfold join_result.
  rewrite (Hf "room"), (Hf "user") by done.
  destruct (Buffer_from (assoc "key" fields1)) as [b1|e1],
           (Buffer_from (assoc "key" fields2)) as [b2|e2]; try done; [|by subst].
  destruct (ToPropertyKey (assoc "room" fields2)) as [k|e]; [|done].
  pose proof (keyless_rooms_get _ _ k Hr) as Hs.
  assert (keyless_rooms (<[k := peersOf r1 k ++ [Peer ws (assoc "user" fields2) b1]]> r1)
          = keyless_rooms (<[k := peersOf r2 k ++ [Peer ws (assoc "user" fields2) b2]]> r2))
    as Hins.
  { unfold keyless_rooms. rewrite !fmap_insert. fold (keyless_rooms r1) (keyless_rooms r2).
    rewrite Hr. f_equal. rewrite !map_app. f_equal. by apply keyless_peersOf. }
  destruct (rooms_get r1 k), (rooms_get r2 k); try done.
Qed.

Lemma message_result_keyless ws m1 m2 r1 r2 v1 v2 :
  (m1 = m2
   ∨ ∃ fields1 fields2,
       m1 = Wellformed (JObj fields1) ∧ m2 = Wellformed (JObj fields2)
       ∧ alike fields1 fields2) →
  keyless_rooms r1 = keyless_rooms r2 →
  keyless_vars v1 = keyless_vars v2 →
  let c1 := message_result ws m1 r1 v1 in
  let c2 := message_result ws m2 r2 v2 in
  sent c1 = sent c2
  ∧ keyless_rooms (rooms c1) = keyless_rooms (rooms c2)
  ∧ keyless_vars (locals c1) = keyless_vars (locals c2).
Proof.
  intros Hm Hr Hv.
  assert (∀ fields1 fields2, alike fields1 fields2 →
    let c1 := message_result ws (Wellformed (JObj fields1)) r1 v1 in
    let c2 := message_result ws (Wellformed (JObj fields2)) r2 v2 in
    sent c1 = sent c2
    ∧ keyless_rooms (rooms c1) = keyless_rooms (rooms c2)
    ∧ keyless_vars (locals c1) = keyless_vars (locals c2)) as Hobj.
  { intros fields1 fields2 Ha. cbn [message_result]. rewrite (proj1 Ha "type") by done.
    destruct (is_str (assoc "type" fields2) "join"); [by apply join_result_keyless|].
    destruct (_ || _); [|done].
    split; [by apply relay_result_keyless; [apply Ha|..]|].
    by rewrite !(proj1 (relay_result_rooms _ _ _ _)), !(proj2 (relay_result_rooms _ _ _ _)). }
  destruct Hm as [<-|(fields1 & fields2 & -> & -> & Ha)]; [|by apply Hobj].
  destruct m1 as [m|data]; [done|].
  destruct data; try done. apply Hobj. split; [done|].
  by destruct (Buffer_from (assoc "key" fields)).
Qed.

Lemma close_result_keyless ws r1 r2 v1 v2 :
  keyless_rooms r1 = keyless_rooms r2 →
  keyless_vars v1 = keyless_vars v2 →
  match close_result ws r1 v1, close_result ws r2 v2 with
  | Ok r1', Ok r2' => keyless_rooms r1' = keyless_rooms r2'
  | Throw e1, Throw e2 => e1 = e2
  | _, _ => False
  end.
Proof.
  intros Hr [= Hroom Huser]. unfold close_result. rewrite Hroom.
  destruct (truthy (roomId v2)); [|done].
  destruct (ToPropertyKey (roomId v2)) as [k|e]; [|done].
  pose proof (keyless_rooms_get _ _ k Hr) as Hs.
  pose proof (keyless_lookup _ _ k Hr) as Hl. unfold rooms_get in *.
  destruct (r1 !! k) as [l1|], (r2 !! k) as [l2|]; try done.
  - cbn in Hl. injection Hl as Hl. pose proof (keyless_filter ws _ _ Hl) as Hk.
    assert (length (filter (λ p, peer_ws p ≠ ws) l1)
            = length (filter (λ p, peer_ws p ≠ ws) l2)) as Hlen.
    { by rewrite <- (length_map keyless_peer), Hk, length_map. }
    rewrite Hlen. case_bool_decide.
    + unfold keyless_rooms. rewrite !fmap_delete. by f_equal.
    + unfold keyless_rooms. rewrite !fmap_insert. by f_equal.
  - by repeat case_bool_decide.
Qed.


Lemma key_variant_alike e1 e2 :
  key_variant e1 e2 →
  e1 = e2
  ∨ ∃ ws fields1 fields2,
      e1 = Message ws (Wellformed (JObj fields1))
      ∧ e2 = Message ws (Wellformed (JObj fields2))
      ∧ alike fields1 fields2.
Proof.
  intros [ev|ws fields1 fields2 k1 k2 Hf H1 H2]; [by left|].
  right. exists ws, fields1, fields2. repeat split; [done|]. by rewrite H1, H2.
Qed.

Lemma keyless_intro r1 r2 c1 c2 n1 n2 :
  keyless_rooms r1 = keyless_rooms r2 →
  keyless_vars <$> c1 = keyless_vars <$> c2 →
  n1 = n2 →
  keyless (State r1 c1 n1) = keyless (State r2 c2 n2).
Proof. unfold keyless, keyless_rooms. cbn. by intros -> -> ->. Qed.

Lemma step_keyless st1 st2 e1 e2 :
  keyless st1 = keyless st2 →
  key_variant e1 e2 →
  same_but_keys (step st1 e1) (step st2 e2).
Proof.
  intros [= Hr Hc Hn] Hev. fold (keyless_rooms (st_rooms st1)) in Hr.
  fold (keyless_rooms (st_rooms st2)) in Hr.
  assert (∀ ws, keyless_vars <$> st_conns st1 !! ws = keyless_vars <$> st_conns st2 !! ws)
    as Hlook.
  { intros ws. by rewrite <- !lookup_fmap, Hc. }
  assert (∀ ws m1 m2,
            (m1 = m2 ∨ ∃ fields1 fields2,
                m1 = Wellformed (JObj fields1) ∧ m2 = Wellformed (JObj fields2)
                ∧ alike fields1 fields2) →
            same_but_keys (step st1 (Message ws m1)) (step st2 (Message ws m2))) as Hmsg.
  { intros ws m1 m2 Hm. specialize (Hlook ws).
    destruct (st_conns st1 !! ws) as [v1|] eqn:H1, (st_conns st2 !! ws) as [v2|] eqn:H2;
      try done.
    - rewrite (step_message _ _ _ v1 H1), (step_message _ _ _ v2 H2).
      assert (keyless_vars v1 = keyless_vars v2) as Hv by (cbn in Hlook; congruence).
      destruct (message_result_keyless ws m1 m2 _ _ v1 v2 Hm Hr Hv) as (Hs & Hr' & Hv').
      split; [done|]. cbn. apply keyless_intro; [done| |done].
      by rewrite !fmap_insert, Hv', Hc.
    - rewrite (proj1 (step_stranger _ _ H1)), (proj1 (step_stranger _ _ H2)).
      split; [done|]. cbn. destruct st1, st2. by apply keyless_intro. }
  destruct (key_variant_alike _ _ Hev) as [<-|(ws & f1 & f2 & -> & -> & Ha)].
  - destruct e1 as [|ws message|ws].
    + split; [done|]. cbn. apply keyless_intro; [done| |by f_equal].
      by rewrite !fmap_insert, Hc, Hn.
    + apply Hmsg. by left.
    + specialize (Hlook ws).
      destruct (st_conns st1 !! ws) as [v1|] eqn:H1, (st_conns st2 !! ws) as [v2|] eqn:H2;
        try done.
      * rewrite (step_close _ _ v1 H1), (step_close _ _ v2 H2).
        assert (keyless_vars v1 = keyless_vars v2) as Hv by (cbn in Hlook; congruence).
        pose proof (close_result_keyless ws _ _ v1 v2 Hr Hv) as Hclose.
        destruct (close_result ws (st_rooms st1) v1), (close_result ws (st_rooms st2) v2);
          try done.
        split; [done|]. cbn. apply keyless_intro; [done| |done].
        by rewrite !fmap_delete, Hc.
      * rewrite (proj2 (step_stranger _ _ H1)), (proj2 (step_stranger _ _ H2)).
        split; [done|]. cbn. destruct st1, st2. by apply keyless_intro.
  - apply Hmsg. right. by exists f1, f2.
Qed.

Lemma run_keyless evs1 evs2 :
  Forall2 key_variant evs1 evs2 →
  ∀ st1 st2, keyless st1 = keyless st2 → same_but_keys (run st1 evs1) (run st2 evs2).
Proof.
  induction 1 as [|e1 e2 evs1 evs2 Hev _ IH]; intros st1 st2 Hst.
  - by split.
  - cbn [run]. destruct (step_keyless _ _ _ _ Hst Hev) as [Hout Hs].
    destruct (step st1 e1) as [[s1|x1] o1], (step st2 e2) as [[s2|x2] o2];
      cbn in Hout, Hs; try done; subst; try (by split).
    destruct (IH _ _ Hs) as [Hout' Hs'].
    destruct (run s1 evs1) as [f1 p1], (run s2 evs2) as [f2 p2]. cbn in *.
    split; [by subst|done].
Qed.

Lemma signal_envelope_payload (from payload : jsval) :
  field "payload" (signal_envelope from payload) = wire <$> payload.
Proof. by destruct from, payload. Qed.



Lemma join_messages_differ_in_key ws room user k1 k2 :
  key_variant (Message ws (join_message room user k1)) (Message ws (join_message room user k2)).
Proof.
  eapply (kv_key ws _ _ k1 k2); [|reflexivity..].
  intros name Hname. cbn [assoc].
  destruct (String.eqb "type" name); [done|].
  destruct (String.eqb "room" name); [done|].
  destruct (String.eqb "user" name); [done|].
  destruct (String.eqb "key" name) eqn:E; [|done].
  apply String.eqb_eq in E. congruence.
Qed.


End RelayFacts.

(* ===================================================================== *)
(** * Properties of the client *)
(* ===================================================================== *)

Module ClientFacts.
Import Js Client.

Example alice_joins :
  calls alice_joined
  = [ NewWebSocket "ws://192.168.8.66:3001"; NewPeerConnection; AddTrack "audio";
      AddTrack "video";
      WsSend (JObj [("type", JStr "join"); ("room", JStr "ABCD"); ("user", JStr "alice");
                    ("key", JStr Server.zeros)]) ]
  ∧ wsReady alice_joined = true
  ∧ isHost alice_joined = false
  ∧ interval alice_joined = None.
Proof. vm_compute. repeat split; reflexivity. Qed.


Lemma is_str_exclusive' v a b : is_str v a = true → a ≠ b → is_str v b = false.
Proof. intros H Hab. by eapply RelayFacts.is_str_exclusive. Qed.

Section Generic.
Context {PC P : Type} `{!PeerConnection PC} `{!Player P}.

(** ** The responder *)

(** C7. A client that holds a negotiation object and receives a [signal]
    whose payload carries an offer calls, in this order and nothing else:
    [setRemoteDescription] with the offer, [createAnswer],
    [setLocalDescription] with the answer, and [send] with the answer in
    a [signal] envelope.  The calls it makes are always an initial
    segment of this sequence, and the whole of it when the browser
    accepts each step. *)
Theorem responder_answers_offer (c : client PC P) (k : closure)
    fields payload offer s pc :
  pcRef c = Some pc →
  wsRef c = Some s →
  ws_open s = true →
  is_str (assoc "type" fields) "signal" = true →
  assoc "payload" fields = Some (JObj payload) →
  assoc "sdp" payload = Some offer →
  kind_of offer = Some (JStr "offer") →
  let c' := invoke (onmessage k (Wellformed (JObj fields))) c in
  (∃ answer n, calls c' = calls c ++ take n (answering k offer answer))
  ∧ (∀ answer pc1 pc2 pc3,
       setRemoteDescription offer pc = (Ok tt, pc1) →
       createAnswer pc1 = (Ok answer, pc2) →
       setLocalDescription answer pc2 = (Ok tt, pc3) →
       calls c' = calls c ++ answering k offer answer
       ∧ pcRef c' = Some pc3
       ∧ error c' = error c).
Proof.
  intros Hpc Hws Hopen Hty Hpay Hsdp Hkind.
  destruct c. cbn in Hpc, Hws. subst.
  destruct offer as [| | | | |ofields]; try done. cbn in Hkind.
  unfold invoke, onmessage, try_catch.
  cbv [mbind Eff_bind mret Eff_ret lift gets modify JSON_parse get log on_pc ws_send_opt
       ws_send setError].
  cbn. rewrite Hty. cbn. rewrite Hpay. cbn. rewrite Hsdp. cbn.
  destruct (setRemoteDescription (JObj ofields) pc) as [[[]|e1] pc1] eqn:H1; cbn.
  2:{ split; [by exists JNull, 1|]. intros ? ? ? ? [=]. }
  rewrite Hkind. cbn.
  destruct (createAnswer pc1) as [[answer|e2] pc2] eqn:H2; cbn.
  2:{ split; [exists JNull, 2; by rewrite <- !app_assoc|].
      intros ? ? ? ? [= <-] Ha. by rewrite H2 in Ha. }
  destruct (setLocalDescription answer pc2) as [[[]|e3] pc3] eqn:H3; cbn.
  2:{ split; [exists answer, 3; by rewrite <- !app_assoc|].
      intros ? ? ? ? [= <-] Ha Hl. rewrite H2 in Ha. injection Ha as <- <-.
      by rewrite H3 in Hl. }
  rewrite Hopen. cbn. split.
  - exists answer, 4. by rewrite <- !app_assoc.
  - intros ? ? ? ? [= <-] Ha Hl. rewrite H2 in Ha. injection Ha as <- <-.
    rewrite H3 in Hl. injection Hl as <-. by rewrite <- !app_assoc.
Qed.

(** ** The initiator *)

Lemma sent_envelopes_app l1 l2 :
  sent_envelopes (l1 ++ l2) = sent_envelopes l1 ++ sent_envelopes l2.
Proof. unfold sent_envelopes. apply omap_app. Qed.

Lemma offers_sent_app l1 l2 :
  offers_sent (l1 ++ l2) = offers_sent l1 ++ offers_sent l2.
Proof. unfold offers_sent. by rewrite sent_envelopes_app, filter_app. Qed.

(** C4, amended. Each time "Start Call" runs on a client whose socket is
    ready and whose negotiation object accepts the step, it creates an
    offer, sets it as the local description and sends it: exactly one
    more offer, whether or not an earlier offer of this peer is still
    unanswered -- the handler keeps no record of offers in flight. *)
Theorem start_call_sends_one_offer (c : client PC P) offer s pc pc1 pc2 :
  wsReady c = true →
  pcRef c = Some pc →
  wsRef c = Some s →
  ws_open s = true →
  createOffer pc = (Ok offer, pc1) →
  setLocalDescription offer pc1 = (Ok tt, pc2) →
  kind_of offer = Some (JStr "offer") →
  let c' := invoke startCall c in
  calls c' = calls c ++ offering (room c) (username c) offer
  ∧ offers_sent (calls c')
    = offers_sent (calls c)
      ++ [JSON_stringify (signal_literal (room c) (username c) [("sdp", offer)])]
  ∧ isHost c' = true
  ∧ pcRef c' = Some pc2.
Proof.
  intros Hready Hpc Hws Hopen H1 H2 Hkind.
  assert (calls (invoke startCall c) = calls c ++ offering (room c) (username c) offer
          ∧ isHost (invoke startCall c) = true
          ∧ pcRef (invoke startCall c) = Some pc2) as (Hcalls & Hhost & Hpc').
  { destruct c. cbn in Hready, Hpc, Hws. subst.
    unfold invoke, startCall, try_catch.
    cbv [mbind Eff_bind mret Eff_ret lift gets modify log on_pc ws_send setError].
    cbn. rewrite H1. cbn. rewrite H2. cbn. rewrite Hopen. cbn.
    rewrite <- !app_assoc. done. }
  cbn zeta. rewrite Hcalls. repeat split; try done.
  rewrite offers_sent_app. f_equal.
  unfold offers_sent, sent_envelopes, offering. cbn [omap list_omap].
  rewrite filter_cons, decide_True; [done|].
  destruct offer; try done. cbn in Hkind. cbn.
  by rewrite JsFacts.assoc_wire, Hkind.
Qed.

(** ** The viewer *)

(** C9. Whatever the state of the component, handling a [yt-sync] frame
    whose action is [play] twice leaves everything but the log and the
    trace of calls as handling it once does, the player's [playVideo]
    being idempotent; and handling it on a player that is already
    playing changes nothing, [playVideo] doing nothing on such a
    player. *)
Theorem play_twice_is_play_once (c : client PC P) (k : closure) fields :
  (∀ p : P, playVideo (playVideo p) = playVideo p) →
  (∀ p : P, getPlayerState p = 1%Z → playVideo p = p) →
  is_str (assoc "type" fields) "yt-sync" = true →
  is_str (assoc "action" fields) "play" = true →
  let once := invoke (onmessage k (Wellformed (JObj fields))) c in
  let twice := invoke (onmessage k (Wellformed (JObj fields))) once in
  playback twice = playback once
  ∧ (∀ id p, ytPlayerRef c = Some (id, p) → getPlayerState p = 1%Z →
       playback once = playback c).
Proof.
  intros Hidem Hnoop Hty Hplay.
  pose proof (is_str_exclusive' _ "yt-sync" "signal" Hty) as Hsig.
  pose proof (is_str_exclusive' _ "play" "pause" Hplay) as Hpause.
  pose proof (is_str_exclusive' _ "play" "seek" Hplay) as Hseek.
  pose proof (is_str_exclusive' _ "play" "load" Hplay) as Hload.
  specialize (Hsig ltac:(done)). specialize (Hpause ltac:(done)).
  specialize (Hseek ltac:(done)). specialize (Hload ltac:(done)).
  destruct c as [? ? ? ? ? ? ? ? ? ? ? ? player ? ? ? ? ?].
  destruct k as [kroom kuser khost [|]];
    destruct player as [[id p]|];
    unfold invoke, onmessage, try_catch, when;
    cbv [mbind Eff_bind mret Eff_ret lift gets modify JSON_parse get log on_player setError];
    cbn; rewrite ?Hsig, ?Hty; cbn; rewrite ?Hplay, ?Hpause, ?Hseek, ?Hload; cbn;
    rewrite ?Hsig, ?Hty; cbn; rewrite ?Hplay, ?Hpause, ?Hseek, ?Hload; cbn;
    unfold playback; cbn; (split; [|intros id' p' [=] Hs; subst]);
    rewrite ?Hidem; try done.
  by rewrite Hnoop.
Qed.


(** ** The host's interval *)

(** A handler that leaves the installed interval alone. *)
Definition keeps_interval {A} (m : Eff (client PC P) A) : Prop :=
  ∀ c, interval (m c).2 = interval c.

Lemma keeps_ret {A} (a : A) : keeps_interval (mret a).
Proof. by intros c. Qed.

Lemma keeps_lift {A} (o : outcome A) : keeps_interval (lift o).
Proof. by intros c. Qed.

Lemma keeps_gets {A} (f : client PC P → A) : keeps_interval (gets f).
Proof. by intros c. Qed.

Lemma keeps_modify (g : client PC P → client PC P) :
  (∀ c, interval (g c) = interval c) → keeps_interval (modify g).
Proof. intros Hg c. apply Hg. Qed.

Lemma keeps_bind {A B} (m : Eff (client PC P) A) (k : A → Eff (client PC P) B) :
  keeps_interval m → (∀ a, keeps_interval (k a)) → keeps_interval (m ≫= k).
Proof.
  intros Hm Hk c. unfold mbind, Eff_bind. specialize (Hm c).
  destruct (m c) as [[a|e] c1]; cbn in *; [|done]. by rewrite Hk.
Qed.

Lemma keeps_try_catch (body : Eff (client PC P) unit) handler :
  keeps_interval body → (∀ e, keeps_interval (handler e)) →
  keeps_interval (try_catch body handler).
Proof.
  intros Hb Hh c. unfold try_catch. specialize (Hb c).
  destruct (body c) as [[[]|e] c1]; cbn in *; [done|]. by rewrite Hh.
Qed.

Lemma keeps_log text value : keeps_interval (log text value).
Proof. by intros c. Qed.

Lemma keeps_setError message : keeps_interval (setError message).
Proof. by intros c. Qed.

Lemma keeps_on_pc {A} k (method : PC → outcome A * PC) : keeps_interval (on_pc k method).
Proof.
  intros c. unfold on_pc. destruct (pcRef c) as [pc|]; [|done]. by destruct (method pc).
Qed.

Lemma keeps_on_player k (method : P → P) : keeps_interval (on_player k method).
Proof. intros c. unfold on_player. by destruct (ytPlayerRef c) as [[id p]|]. Qed.

Lemma keeps_ws_send literal : keeps_interval (ws_send literal).
Proof.
  intros c. unfold ws_send. destruct (wsRef c) as [s|]; [|done]. by destruct (ws_open s).
Qed.

Lemma keeps_ws_send_opt literal : keeps_interval (ws_send_opt literal).
Proof.
  intros c. unfold ws_send_opt. destruct (wsRef c); [apply keeps_ws_send|done].
Qed.

Lemma keeps_when b (m : Eff (client PC P) unit) :
  keeps_interval m → keeps_interval (when b m).
Proof. intros Hm. destruct b; [done|apply keeps_ret]. Qed.

Create HintDb keeps.
#[local] Hint Resolve keeps_ret keeps_lift keeps_gets keeps_log keeps_setError
  keeps_on_pc keeps_on_player keeps_ws_send keeps_ws_send_opt : keeps.

(** Take a handler apart along its binds, branches and [catch]. *)
Ltac keeps :=
  repeat first
    [ progress eauto with keeps
    | apply keeps_bind; [|intros ?]
    | apply keeps_try_catch; [|intros ?]
    | apply keeps_when
    | apply keeps_modify; by intros []
    | match goal with
      | |- keeps_interval (if ?b then _ else _) => destruct b
      | |- keeps_interval (match ?x with _ => _ end) => destruct x
      end ].

Lemma keeps_onmessage k message : keeps_interval (onmessage k message).
Proof. unfold onmessage. keeps. Qed.

Lemma keeps_onopen k : keeps_interval (onopen k).
Proof. unfold onopen. keeps. Qed.

Lemma keeps_onerror e : keeps_interval (onerror e).
Proof. unfold onerror. keeps. Qed.

Lemma keeps_onicecandidate k candidate : keeps_interval (onicecandidate k candidate).
Proof. unfold onicecandidate. keeps. Qed.

Lemma keeps_handleJoin : keeps_interval handleJoin.
Proof. unfold handleJoin. keeps. Qed.

Lemma keeps_tracks tracks (acc : Eff (client PC P) PC) :
  keeps_interval acc →
  keeps_interval
    (foldl (λ (acc : Eff (client PC P) PC) track,
              pc ← acc;
              log "Adding local track: " (Some (JStr track));;
              modify (λ c, set_calls (calls c ++ [AddTrack track]) c);;
              mret (addTrack track pc)) acc tracks).
Proof.
  revert acc. induction tracks as [|track tracks IH]; intros acc Hacc; [done|].
  cbn [foldl]. apply IH. keeps.
Qed.

Lemma keeps_handleJoin_resume media : keeps_interval (handleJoin_resume media).
Proof. unfold handleJoin_resume. keeps. apply keeps_tracks. keeps. Qed.

Lemma keeps_startCall : keeps_interval startCall.
Proof. unfold startCall. keeps. Qed.

Lemma keeps_handleYTReady id player : keeps_interval (handleYTReady id player).
Proof. unfold handleYTReady. keeps. Qed.

Lemma keeps_handleYTStateChange k state : keeps_interval (handleYTStateChange k state).
Proof. unfold handleYTStateChange. keeps. Qed.

Lemma keeps_interval_callback k : keeps_interval (interval_callback k).
Proof. unfold interval_callback. keeps. Qed.

Lemma host_interval_invoke (m : Eff (client PC P) unit) c :
  keeps_interval m → host_interval c → host_interval (invoke m c).
Proof. intros Hm Hc t. unfold invoke. rewrite Hm. apply Hc. Qed.

Lemma host_interval_render (c : client PC P) : host_interval c → host_interval (render c).
Proof.
  intros Hc. unfold render. case_decide; [done|].
  intros t. destruct c as [? ? ? host ? dis ? ? ? ? ws ? player ? int ? ? ?].
  unfold effect, cleanup. cbn.
  destruct int; cbn;
    destruct host, player, ws, dis; cbn; intros [= <-]; try done;
    by apply Hc.
Qed.

Lemma host_interval_fire fuel : ∀ target (c : client PC P),
  host_interval c → host_interval (fire fuel target c).
Proof.
  induction fuel as [|fuel IH]; intros target c Hc.
  - intros t. destruct c. apply Hc.
  - cbn [fire]. destruct (interval c) as [t|] eqn:Ht.
    + destruct (due t <=? target)%Z.
      * apply IH, host_interval_render, host_interval_invoke;
          [apply keeps_interval_callback|].
        intros t'. destruct c. cbn in *. intros [= <-]. cbn. by apply Hc.
      * intros t'. destruct c. apply Hc.
    + intros t'. destruct c. apply Hc.
Qed.

Lemma host_interval_step (c : client PC P) ev :
  host_interval c → host_interval (step c ev).
Proof.
  intros Hc.
  assert (∀ g : client PC P → client PC P,
            (∀ c, interval (g c) = interval c) → host_interval (g c)) as Hset.
  { intros g Hg t. rewrite Hg. apply Hc. }
  destruct ev; cbn [step];
    repeat match goal with
      | |- host_interval (if ?b then _ else _) => destruct b
      | |- host_interval (match ?x with _ => _ end) => destruct x eqn:?
      end;
    try done;
    try (apply host_interval_render);
    try (by apply host_interval_fire);
    try (apply host_interval_invoke; [|try done]);
    eauto using keeps_onmessage, keeps_onopen, keeps_onerror, keeps_onicecandidate,
      keeps_handleJoin, keeps_handleJoin_resume, keeps_startCall, keeps_handleYTReady,
      keeps_handleYTStateChange;
    try (apply Hset; by intros []).
Qed.

(** On every page that events have led to, an installed interval is a
    host's. *)
Lemma host_interval_run evs : host_interval (run (mount : client PC P) evs).
Proof.
  unfold run. induction evs as [|ev evs IH] using rev_ind.
  - by intros t.
  - rewrite foldl_app. cbn. by apply host_interval_step.
Qed.

Lemma firings_next due target :
  (due ≤ target)%Z → firings due target = S (firings (due + 5000) target).
Proof.
  intros Hle. unfold firings.
  rewrite (proj2 (Z.leb_le due target)) by done.
  destruct (Z.leb_spec (due + 5000) target) as [H|H].
  - replace (target - due)%Z with ((target - (due + 5000)) + 1 * 5000)%Z by lia.
    rewrite Z.div_add by lia.
    assert (0 ≤ (target - (due + 5000)) / 5000)%Z by (apply Z.div_pos; lia). lia.
  - rewrite Z.div_small by lia. done.
Qed.

Lemma firings_bound due target (now ms : Z) :
  (now < due)%Z → (0 ≤ ms)%Z → target = (now + ms)%Z →
  firings due target ≤ Z.to_nat (ms / 5000) + 1.
Proof.
  intros Hnow Hms ->. unfold firings. destruct (Z.leb_spec due (now + ms)) as [H|H]; [|lia].
  assert ((now + ms - due) / 5000 ≤ ms / 5000)%Z by (apply Z.div_le_mono; lia).
  assert (0 ≤ (now + ms - due) / 5000)%Z by (apply Z.div_pos; lia). lia.
Qed.

(** One firing: the callback sends the corrective envelope, whatever the
    state of the player, and the interval stays installed. *)
Lemma fire_once (c : client PC P) t fuel target :
  interval c = Some t →
  syncing c = true →
  (due t ≤ target)%Z →
  ∃ c1,
    fire (S fuel) target c = fire fuel target c1
    ∧ calls c1 = calls c ++ [WsSend (seek_envelope (t_env t) (current_time c))]
    ∧ interval c1 = Some (Timer (t_env t) (due t + 5000))
    ∧ syncing c1 = true
    ∧ ytPlayerRef c1 = ytPlayerRef c.
Proof.
  intros Hint Hsync Hdue. unfold syncing in Hsync. rewrite Hint in Hsync.
  destruct c as [? ? ? ? ? ? ? ? ? ? ws ? player ? ? ld ? ?]. cbn in Hint, Hsync. subst.
  destruct player as [[id p]|]; [|done]. destruct ws as [s|]; [|done].
  destruct t as [[kroom kuser khost kdis] d]. cbn in Hsync, Hdue.
  apply andb_true_iff in Hsync as [[[-> Hdis%negb_true_iff]%andb_true_iff
                                     Hopen]%andb_true_iff Hdeps%bool_decide_eq_true].
  subst kdis. eexists. split.
  - cbn [fire interval set_interval set_now due t_env].
    rewrite (proj2 (Z.leb_le d target) Hdue).
    unfold invoke, interval_callback.
    cbv [mbind Eff_bind mret Eff_ret lift gets modify log ws_send current_time].
    cbn. rewrite Hopen. cbn. unfold render. cbn. rewrite decide_True by done.
    reflexivity.
  - cbn. repeat split. unfold syncing. cbn. rewrite Hopen. cbn.
    by rewrite bool_decide_eq_true_2.
Qed.

Lemma fire_calls fuel : ∀ (c : client PC P) t target,
  interval c = Some t →
  syncing c = true →
  firings (due t) target ≤ fuel →
  calls (fire fuel target c)
  = calls c ++ replicate (firings (due t) target)
                 (WsSend (seek_envelope (t_env t) (current_time c)))
  ∧ ytPlayerRef (fire fuel target c) = ytPlayerRef c.
Proof.
  induction fuel as [|fuel IH]; intros c t target Hint Hsync Hfuel.
  - assert (firings (due t) target = 0) as -> by lia. cbn.
    rewrite app_nil_r. by destruct c.
  - destruct (Z.leb_spec (due t) target) as [Hdue|Hdue].
    + destruct (fire_once c t fuel target Hint Hsync Hdue)
        as (c1 & -> & Hcalls & Hint1 & Hsync1 & Hplayer).
      rewrite (firings_next _ _ Hdue) in *.
      destruct (IH c1 _ target Hint1 Hsync1) as [-> ->]; [cbn; lia|].
      cbn [due t_env]. unfold current_time. rewrite Hplayer, Hcalls.
      split; [|done]. by rewrite <- app_assoc.
    + unfold firings. rewrite (proj2 (Z.leb_gt _ _) Hdue).
      cbn [fire]. rewrite Hint, (proj2 (Z.leb_gt _ _) Hdue). cbn.
      rewrite app_nil_r. by destruct c.
Qed.

(** C5, amended. While the interval of a host is installed, the clock
    passing makes the client send one corrective envelope
    [{type: yt-sync, room, action: seek, time}] with the player's current
    time at every multiple of 5000 ms, and nothing else; the state of the
    player is not consulted, so the envelope is sent whether the player
    is playing, paused or anything else. *)
Theorem host_seeks_every_period (c : client PC P) t ms :
  interval c = Some t →
  syncing c = true →
  (0 ≤ ms)%Z →
  (now c < due t)%Z →
  let c' := step c (Elapse ms) in
  calls c'
  = calls c ++ replicate (firings (due t) (now c + ms))
                 (WsSend (seek_envelope (t_env t) (current_time c)))
  ∧ ytPlayerRef c' = ytPlayerRef c.
Proof.
  intros Hint Hsync Hms Hnow. cbn [step].
  rewrite (proj2 (Z.leb_le 0 ms) Hms).
  apply fire_calls; [done..|]. by eapply firings_bound.
Qed.

End Generic.

Lemma host_seeks_every_period_witness :
  calls (step alice_hosting (Elapse 20000))
  = calls alice_hosting
    ++ replicate 4 (WsSend (JObj [("type", JStr "yt-sync"); ("room", JStr "ABCD");
                                  ("action", JStr "seek"); ("time", JNum "42.5")])).
Proof.
  refine (proj1 (host_seeks_every_period alice_hosting
                   (Timer (Closure "ABCD" "alice" true false) 5000) 20000 _ _ _ _));
    vm_compute; congruence.
Defined.

(** C5, as stated, fails: the corrective envelope is also sent while the
    player is paused. *)
Lemma paused_host_still_seeks :
  (getPlayerState <$> (snd <$> ytPlayerRef alice_hosting)) = Some 2%Z
  ∧ sent_envelopes (calls (step alice_hosting (Elapse 5000)))
    = sent_envelopes (calls alice_hosting)
      ++ [JObj [("type", JStr "yt-sync"); ("room", JStr "ABCD");
                ("action", JStr "seek"); ("time", JNum "42.5")]]
  ∧ (getPlayerState <$> (snd <$> ytPlayerRef (step alice_hosting (Elapse 5000)))) = Some 2%Z.
Proof. vm_compute. repeat split; reflexivity. Qed.

Lemma start_call_sends_one_offer_witness :
  offers_sent (calls (invoke startCall alice_hosting))
  = offers_sent (calls alice_hosting)
    ++ [JSON_stringify (signal_literal "ABCD" "alice" [("sdp", description "offer" 1)])].
Proof.
  refine (proj1 (proj2 (start_call_sends_one_offer alice_hosting (description "offer" 1)
           (Socket true alice_closure)
           (BrowserPc HaveLocalOffer (Some (description "offer" 0)) None
              ["audio"; "video"] [] 1)
           (BrowserPc HaveLocalOffer (Some (description "offer" 0)) None
              ["audio"; "video"] [] 2)
           (BrowserPc HaveLocalOffer (Some (description "offer" 1)) None
              ["audio"; "video"] [] 2)
           _ _ _ _ _ _ _))); vm_compute; reflexivity.
Defined.

(** C4, as stated, fails: pressing "Start Call" twice sends two offers,
    the second while the first is unanswered (no frame was received in
    between, and the negotiation object has no remote description). *)
Lemma start_call_twice_two_offers :
  offers_sent (calls (run alice_joined [ ClickStartCall; ClickStartCall ]))
  = [ JSON_stringify (signal_literal "ABCD" "alice" [("sdp", description "offer" 0)]);
      JSON_stringify (signal_literal "ABCD" "alice" [("sdp", description "offer" 1)]) ]
  ∧ (pc_remote <$> pcRef (run alice_joined [ ClickStartCall; ClickStartCall ])) = Some None
  ∧ (signalingState <$> pcRef (run alice_joined [ ClickStartCall; ClickStartCall ]))
    = Some "have-local-offer".
Proof. vm_compute. repeat split; reflexivity. Qed.

Lemma play_twice_is_play_once_witness :
  playback alice_played_twice = playback alice_played.
Proof.
  refine (proj1 (play_twice_is_play_once alice_joined alice_closure
                   [("type", JStr "yt-sync"); ("action", JStr "play")] _ _ _ _)).
  - intros p. reflexivity.
  - intros [state time video] Hs. cbn in *. by subst.
  - reflexivity.
  - reflexivity.
Defined.

Lemma responder_answers_offer_witness :
  calls alice_answered
  = calls alice_joined
    ++ answering alice_closure (description "offer" 0) (description "answer" 0)
  ∧ pcRef alice_answered
    = Some (BrowserPc Stable (Some (description "answer" 0))
              (Some (description "offer" 0)) ["audio"; "video"] [] 1)
  ∧ error alice_answered = error alice_joined.
Proof.
  refine (proj2 (responder_answers_offer alice_joined alice_closure relayed_offer
                   [("sdp", description "offer" 0)] (description "offer" 0)
                   (Socket true alice_closure)
                   (BrowserPc Stable None None ["audio"; "video"] [] 0)
                   _ _ _ _ _ _ _)
            (description "answer" 0)
            (BrowserPc HaveRemoteOffer None (Some (description "offer" 0))
               ["audio"; "video"] [] 0)
            (BrowserPc HaveRemoteOffer None (Some (description "offer" 0))
               ["audio"; "video"] [] 1)
            (BrowserPc Stable (Some (description "answer" 0)) (Some (description "offer" 0))
               ["audio"; "video"] [] 1)
            _ _ _);
    vm_compute; reflexivity.
Defined.

End ClientFacts.

(* ===================================================================== *)
(** * More about the relay *)
(* ===================================================================== *)

Module RelayMore.
Import Js Server RelayFacts.

(** ** Joining *)

(** X1. A [join] whose key [Buffer.from] accepts, and whose room is not a
    name [rooms] inherits, is answered with exactly one [joined] envelope
    carrying the room, sent to the sender; the sender's record is
    appended after the records the room already has, no other room
    changes, and the variables of the connection are bound to the room,
    the user and the key of the frame. *)
Theorem join_registers_last st ws v fields k buf :
  st_conns st !! ws = Some v →
  is_str (assoc "type" fields) "join" = true →
  Buffer_from (assoc "key" fields) = Ok buf →
  ToPropertyKey (assoc "room" fields) = Ok k →
  rooms_get (st_rooms st) k ≠ Inherited →
  ∃ st',
    step st (Message ws (Wellformed (JObj fields)))
    = (Running st', [(ws, joined_envelope (assoc "room" fields))])
    ∧ peersOf (st_rooms st') k
      = peersOf (st_rooms st) k ++ [Peer ws (assoc "user" fields) buf]
    ∧ (∀ k', k' ≠ k → st_rooms st' !! k' = st_rooms st !! k')
    ∧ st_conns st'
      = <[ws := Vars (assoc "room" fields) (assoc "user" fields) (Some buf)]> (st_conns st)
    ∧ st_next st' = st_next st.
Proof.
  intros Hv Hj Hbuf Hk Hslot.
  rewrite (step_message _ _ _ v Hv). cbn [message_result]. rewrite Hj.
  unfold join_result. rewrite Hbuf, Hk.
  destruct (rooms_get (st_rooms st) k) eqn:Hs; [|done|];
    (eexists; split; [reflexivity|]; cbn; repeat split;
     [apply peersOf_insert_eq | intros k' Hne; by rewrite lookup_insert_ne]).
Qed.

Lemma join_registers_last_witness :
  ∃ st',
    step two_joined (Message 1 (join_message "ABCD" "carol" "ff"))
    = (Running st', [(1, joined_envelope (Some (JStr "ABCD")))])
    ∧ peersOf (st_rooms st') "ABCD"
      = peersOf (st_rooms two_joined) "ABCD" ++ [Peer 1 (Some (JStr "carol")) (Bytes [255%N])]
    ∧ (∀ k', k' ≠ "ABCD" → st_rooms st' !! k' = st_rooms two_joined !! k')
    ∧ st_conns st'
      = <[1 := Vars (Some (JStr "ABCD")) (Some (JStr "carol")) (Some (Bytes [255%N]))]>
          (st_conns two_joined)
    ∧ st_next st' = st_next two_joined.
Proof.
  apply (join_registers_last two_joined 1
           (Vars (Some (JStr "ABCD")) (Some (JStr "bob")) (Some (Bytes (replicate 32 0%N))))
           [("type", JStr "join"); ("room", JStr "ABCD"); ("user", JStr "carol");
            ("key", JStr "ff")] "ABCD" (Bytes [255%N])).
  - vm_compute. reflexivity.
  - reflexivity.
  - reflexivity.
  - reflexivity.
  - vm_compute. discriminate.
Defined.

(** X2. A [join] that fails on its key is answered with one [error]
    envelope and registers nothing, yet it has already bound the room and
    the user of the connection: a [signal] that follows it is relayed to
    every record of the room the failed [join] named, tagged with the
    user it named. *)
Theorem failed_join_still_speaks st ws v fields e k payload :
  st_conns st !! ws = Some v →
  is_str (assoc "type" fields) "join" = true →
  Buffer_from (assoc "key" fields) = Throw e →
  ToPropertyKey (assoc "room" fields) = Ok k →
  rooms_get (st_rooms st) k ≠ Inherited →
  let v' := Vars (assoc "room" fields) (assoc "user" fields) (key v) in
  run st [ Message ws (Wellformed (JObj fields)); Message ws (signal_frame payload) ]
  = (Running (State (st_rooms st) (<[ws := v']> (st_conns st)) (st_next st)),
     (ws, error_envelope (exn_message e))
     :: map (λ p, (peer_ws p, signal_envelope (assoc "user" fields) (Some payload)))
            (filter (λ p, peer_ws p ≠ ws) (peersOf (st_rooms st) k))).
Proof.
  intros Hv Hj Hbuf Hk Hslot v'. cbn [run].
  rewrite (step_message _ _ _ v Hv). cbn [message_result]. rewrite Hj.
  unfold join_result. rewrite Hbuf. cbn.
  rewrite lookup_insert_eq. rewrite on_message_result. cbn.
  unfold relay_result. cbn. rewrite Hk.
  destruct (rooms_get (st_rooms st) k); [|done|]; cbn;
    by rewrite insert_insert_eq, app_nil_r.
Qed.

Lemma failed_join_still_speaks_witness :
  run two_joined [ Message 1 (Wellformed (JObj [("type", JStr "join"); ("room", JStr "ABCD");
                                                ("user", JStr "mallory")]));
                   Message 1 (signal_frame offer) ]
  = (Running (State (st_rooms two_joined)
                (<[1 := Vars (Some (JStr "ABCD")) (Some (JStr "mallory"))
                          (Some (Bytes (replicate 32 0%N)))]> (st_conns two_joined))
                (st_next two_joined)),
     (1, error_envelope (exn_message invalid_arg))
     :: map (λ p, (peer_ws p, signal_envelope (Some (JStr "mallory")) (Some offer)))
            (filter (λ p, peer_ws p ≠ 1) (peersOf (st_rooms two_joined) "ABCD"))).
Proof.
  apply (failed_join_still_speaks two_joined 1
           (Vars (Some (JStr "ABCD")) (Some (JStr "bob")) (Some (Bytes (replicate 32 0%N))))
           [("type", JStr "join"); ("room", JStr "ABCD"); ("user", JStr "mallory")]
           invalid_arg "ABCD" offer).
  - vm_compute. reflexivity.
  - reflexivity.
  - reflexivity.
  - reflexivity.
  - vm_compute. discriminate.
Defined.

(** ** Relaying *)

Lemma not_inherited r k : k ∉ Object_prototype → rooms_get r k ≠ Inherited.
Proof.
  intros Hk. unfold rooms_get. destruct (r !! k); [done|].
  by rewrite bool_decide_eq_false_2.
Qed.

Lemma undefined_not_inherited : "undefined" ∉ Object_prototype.
Proof. unfold Object_prototype. set_solver. Qed.

(** X3. A connection that has sent no [join] has [undefined] for a room:
    its [signal] and [yt-sync] frames are relayed to the records of the
    room whose code is the string "undefined", when there is one, and do
    nothing at all, not even an error, when there is none. *)
Theorem unjoined_sender_reaches_undefined st ws fields :
  st_conns st !! ws = Some fresh_vars →
  is_str (assoc "type" fields) "signal" = true
  ∨ is_str (assoc "type" fields) "yt-sync" = true →
  step st (Message ws (Wellformed (JObj fields)))
  = (Running st,
     map (λ p, (peer_ws p, relayed fresh_vars fields))
         (filter (λ p, peer_ws p ≠ ws) (peersOf (st_rooms st) "undefined")))
  ∧ (st_rooms st !! "undefined" = None →
     step st (Message ws (Wellformed (JObj fields))) = (Running st, [])).
Proof.
  intros Hv Hty.
  assert (is_str (assoc "type" fields) "join" = false) as Hj.
  { destruct Hty as [H|H]; eapply is_str_exclusive; try exact H; done. }
  assert (step st (Message ws (Wellformed (JObj fields)))
          = (Running st,
             map (λ p, (peer_ws p, relayed fresh_vars fields))
                 (filter (λ p, peer_ws p ≠ ws) (peersOf (st_rooms st) "undefined")))) as Hstep.
  { rewrite (step_message _ _ _ _ Hv). cbn [message_result]. rewrite Hj.
    replace (_ || _) with true by (symmetry; by apply orb_true_iff).
    unfold relay_result. cbn [roomId fresh_vars ToPropertyKey].
    pose proof (not_inherited (st_rooms st) _ undefined_not_inherited) as Hslot.
    destruct (rooms_get (st_rooms st) "undefined"); [|done|]; cbn;
      by rewrite state_insert_id. }
  split; [done|]. intros Hnone. rewrite Hstep. unfold peersOf. by rewrite Hnone.
Qed.

Lemma unjoined_sender_reaches_undefined_witness :
  step (State ∅ {[ 0 := fresh_vars ]} 1) (Message 0 (signal_frame offer))
  = (Running (State ∅ {[ 0 := fresh_vars ]} 1), []).
Proof.
  refine (proj2 (unjoined_sender_reaches_undefined (State ∅ {[ 0 := fresh_vars ]} 1) 0
                   [("type", JStr "signal"); ("payload", offer)] _ _) _).
  - vm_compute. reflexivity.
  - left. reflexivity.
  - vm_compute. reflexivity.
Defined.

Lemma deliveries_in_room st ws v message st' out target envelope :
  st_conns st !! ws = Some v →
  step st (Message ws message) = (st', out) →
  (target, envelope) ∈ out →
  target ≠ ws →
  is_join_message message = false
  ∧ ∃ k p, ToPropertyKey (roomId v) = Ok k
           ∧ p ∈ peersOf (st_rooms st) k
           ∧ peer_ws p = target.
Proof.
  intros Hv Hstep Hin Hne.
  rewrite (step_message _ _ _ v Hv) in Hstep. inversion Hstep as [[Hst Hout]]. clear Hstep Hst.
  subst out. destruct message as [m|data].
  { apply list_elem_of_singleton in Hin. congruence. }
  destruct data; cbn in Hin; try (by apply elem_of_nil in Hin);
    try (apply list_elem_of_singleton in Hin; congruence).
  cbn [is_join_message].
  destruct (is_str (assoc "type" fields) "join") eqn:Hj.
  { exfalso. unfold join_result in Hin.
    destruct (Buffer_from (assoc "key" fields)); cbn in Hin;
      [destruct (ToPropertyKey (assoc "room" fields)); cbn in Hin;
       [destruct (rooms_get (st_rooms st) a0); cbn in Hin|]|];
      apply list_elem_of_singleton in Hin; congruence. }
  split; [done|].
  destruct (_ || _); [|by apply elem_of_nil in Hin].
  unfold relay_result in Hin.
  destruct (ToPropertyKey (roomId v)) as [k|e]; cbn in Hin;
    [|apply list_elem_of_singleton in Hin; congruence].
  exists k.
  destruct (rooms_get (st_rooms st) k); cbn in Hin;
    try (apply list_elem_of_singleton in Hin; congruence);
    apply list_elem_of_fmap in Hin as (p & [= -> _] & [_ Hp]%list_elem_of_filter);
    by exists p.
Qed.

(** X4. Whatever the frame, the relay sends nothing to a connection that
    has no record in the room the sender's room variable names: an
    envelope addressed to a connection other than the sender comes from a
    frame that is not a [join], and its target has a record in that
    room. *)
Theorem relay_stays_in_room st ws v message st' out target envelope :
  st_conns st !! ws = Some v →
  step st (Message ws message) = (st', out) →
  (target, envelope) ∈ out →
  target ≠ ws →
  is_join_message message = false
  ∧ ∃ k p, ToPropertyKey (roomId v) = Ok k
           ∧ p ∈ peersOf (st_rooms st) k
           ∧ peer_ws p = target.
Proof. apply deliveries_in_room. Qed.

Lemma relay_stays_in_room_witness :
  is_join_message (signal_frame offer) = false
  ∧ ∃ k p, ToPropertyKey (Some (JStr "ABCD")) = Ok k
           ∧ p ∈ peersOf (st_rooms two_joined) k
           ∧ peer_ws p = 1.
Proof.
  apply (relay_stays_in_room two_joined 0
           (Vars (Some (JStr "ABCD")) (Some (JStr "alice")) (Some (Bytes (replicate 32 0%N))))
           (signal_frame offer) (Running two_joined)
           [(1, signal_envelope (Some (JStr "alice")) (Some offer))] 1
           (signal_envelope (Some (JStr "alice")) (Some offer))).
  - vm_compute. reflexivity.
  - vm_compute. reflexivity.
  - apply list_elem_of_singleton. reflexivity.
  - lia.
Defined.

(** ** Leaving *)

Lemma close_rooms st ws v st' out :
  st_conns st !! ws = Some v →
  step st (Close ws) = (Running st', out) →
  out = []
  ∧ st_conns st' = delete ws (st_conns st)
  ∧ (∀ k, truthy (roomId v) = true → ToPropertyKey (roomId v) = Ok k →
          peersOf (st_rooms st') k = filter (λ p, peer_ws p ≠ ws) (peersOf (st_rooms st) k))
  ∧ (∀ k, truthy (roomId v) = false ∨ ToPropertyKey (roomId v) ≠ Ok k →
          st_rooms st' !! k = st_rooms st !! k).
Proof.
  intros Hv. rewrite (step_close _ _ v Hv). unfold close_result.
  destruct (truthy (roomId v)) eqn:Ht.
  - destruct (ToPropertyKey (roomId v)) as [k0|e] eqn:Hk; [|done].
    unfold rooms_get. destruct (st_rooms st !! k0) as [peers|] eqn:Hr.
    + case_bool_decide as Hlen; intros [= <- <-]; cbn; repeat split.
      * intros k _ [= <-]. rewrite peersOf_delete_eq. unfold peersOf. rewrite Hr. cbn.
        symmetry. by apply length_zero_iff_nil.
      * intros k [|Hne]; [done|]. rewrite lookup_delete_ne; [done|congruence].
      * intros k _ [= <-]. rewrite peersOf_insert_eq. unfold peersOf. by rewrite Hr.
      * intros k [|Hne]; [done|]. rewrite lookup_insert_ne; [done|congruence].
    + case_bool_decide; [done|]. intros [= <- <-]; cbn; repeat split.
      intros k _ [= <-]. unfold peersOf. by rewrite Hr.
  - intros [= <- <-]; cbn; repeat split. intros k [=].
Qed.

(** X5. A close that the relay survives sends nothing and discards the
    variables of the connection.  When the room variable is truthy it
    leaves in the room it names the records of the other connections, in
    their order, and no record of the closed connection; every other
    room, and every room when the room variable is falsy, is left as it
    was. *)
Theorem close_unregisters st ws v st' out :
  st_conns st !! ws = Some v →
  step st (Close ws) = (Running st', out) →
  out = []
  ∧ st_conns st' = delete ws (st_conns st)
  ∧ (∀ k, truthy (roomId v) = true → ToPropertyKey (roomId v) = Ok k →
          peersOf (st_rooms st') k = filter (λ p, peer_ws p ≠ ws) (peersOf (st_rooms st) k))
  ∧ (∀ k, truthy (roomId v) = false ∨ ToPropertyKey (roomId v) ≠ Ok k →
          st_rooms st' !! k = st_rooms st !! k).
Proof. apply close_rooms. Qed.

Lemma close_unregisters_witness :
  peersOf (st_rooms (State {[ "ABCD" := [Peer 1 (Some (JStr "bob")) (Bytes (replicate 32 0%N))] ]}
                        (delete 0 (st_conns two_joined)) 2)) "ABCD"
  = filter (λ p, peer_ws p ≠ 0) (peersOf (st_rooms two_joined) "ABCD").
Proof.
  refine (proj1 (proj2 (proj2 (close_unregisters two_joined 0
           (Vars (Some (JStr "ABCD")) (Some (JStr "alice")) (Some (Bytes (replicate 32 0%N))))
           (State {[ "ABCD" := [Peer 1 (Some (JStr "bob")) (Bytes (replicate 32 0%N))] ]}
              (delete 0 (st_conns two_joined)) 2)
           [] _ _))) "ABCD" _ _).
  - vm_compute. reflexivity.
  - vm_compute. reflexivity.
  - reflexivity.
  - reflexivity.
Defined.

Lemma falsy_key room :
  truthy room = false → ∃ k, ToPropertyKey room = Ok k ∧ k ∉ Object_prototype.
Proof.
  unfold Object_prototype.
  destruct room as [[| [|] |r|s| |]|]; cbn; try done; intros H.
  - exists "null". split; [done|set_solver].
  - exists "false". split; [done|set_solver].
  - apply negb_false_iff, String.eqb_eq in H as ->. exists "0". split; [done|set_solver].
  - apply negb_false_iff, String.eqb_eq in H as ->. exists "". split; [done|set_solver].
  - exists "undefined". split; [done|set_solver].
Qed.

(** X6. A connection that joins with a falsy room -- the empty string, a
    missing [room], [null], [false] or [0] -- is registered like any
    other, under the key its room converts to, and its close does not
    remove it: the record stays in the registry after the connection is
    gone. *)
Theorem falsy_room_is_never_left st ws v fields buf :
  st_conns st !! ws = Some v →
  is_str (assoc "type" fields) "join" = true →
  Buffer_from (assoc "key" fields) = Ok buf →
  truthy (assoc "room" fields) = false →
  ∃ k st2,
    ToPropertyKey (assoc "room" fields) = Ok k
    ∧ run st [ Message ws (Wellformed (JObj fields)); Close ws ]
      = (Running st2, [(ws, joined_envelope (assoc "room" fields))])
    ∧ peersOf (st_rooms st2) k
      = peersOf (st_rooms st) k ++ [Peer ws (assoc "user" fields) buf]
    ∧ st_conns st2 !! ws = None.
Proof.
  intros Hv Hj Hbuf Hfalsy.
  destruct (falsy_key _ Hfalsy) as (k & Hk & Hproto).
  pose proof (not_inherited (st_rooms st) k Hproto) as Hslot.
  exists k. eexists. split; [done|]. cbn [run].
  rewrite (step_message _ _ _ v Hv). cbn [message_result]. rewrite Hj.
  unfold join_result. rewrite Hbuf, Hk.
  assert (∀ r' v' out',
    (match rooms_get (st_rooms st) k with
     | Inherited => Ctx (st_rooms st) v' out'
     | _ => Ctx r' v' [(ws, joined_envelope (assoc "room" fields))]
     end) = Ctx r' v' [(ws, joined_envelope (assoc "room" fields))]) as ->.
  { intros. by destruct (rooms_get (st_rooms st) k). }
  cbn. rewrite lookup_insert_eq. rewrite close_run. unfold close_result. cbn.
  rewrite Hfalsy. cbn. repeat split.
  - apply peersOf_insert_eq.
  - apply lookup_delete_eq.
Qed.

Lemma falsy_room_is_never_left_witness :
  ∃ k st2,
    ToPropertyKey (Some (JStr "")) = Ok k
    ∧ run two_joined [ Message 1 (join_message "" "bob" "ff"); Close 1 ]
      = (Running st2, [(1, joined_envelope (Some (JStr "")))])
    ∧ peersOf (st_rooms st2) k
      = peersOf (st_rooms two_joined) k ++ [Peer 1 (Some (JStr "bob")) (Bytes [255%N])]
    ∧ st_conns st2 !! 1 = None.
Proof.
  apply (falsy_room_is_never_left two_joined 1
           (Vars (Some (JStr "ABCD")) (Some (JStr "bob")) (Some (Bytes (replicate 32 0%N))))
           [("type", JStr "join"); ("room", JStr ""); ("user", JStr "bob"); ("key", JStr "ff")]
           (Bytes [255%N])).
  - vm_compute. reflexivity.
  - reflexivity.
  - reflexivity.
  - reflexivity.
Defined.

(** ** The life of the process *)

Lemma tame_close ws r v :
  tame (roomId v) = true → ∃ r', close_result ws r v = Ok r'.
Proof.
  unfold tame, close_result. destruct (truthy (roomId v)); cbn; [|by eexists].
  destruct (ToPropertyKey (roomId v)) as [k|e]; [|done].
  intros Hk%negb_true_iff%bool_decide_eq_false.
  pose proof (not_inherited r k Hk).
  destruct (rooms_get r k); [|done|]; try case_bool_decide; by eexists.
Qed.

Lemma join_result_locals ws fields r v :
  roomId (locals (join_result ws fields r v)) = assoc "room" fields.
Proof.
  unfold join_result.
  destruct (Buffer_from (assoc "key" fields)); [|done].
  destruct (ToPropertyKey (assoc "room" fields)); [|done].
  by destruct (rooms_get r a0).
Qed.

Lemma tame_step st ev :
  tame_state st → tame_event ev →
  ∃ st' out, step st ev = (Running st', out) ∧ tame_state st'.
Proof.
  intros Hst Hev. destruct ev as [|ws message|ws].
  - eexists _, _. split; [reflexivity|]. intros ws v. cbn.
    destruct (decide (st_next st = ws)) as [<-|Hne].
    + rewrite lookup_insert_eq. by intros [= <-].
    + rewrite lookup_insert_ne by done. apply Hst.
  - destruct (st_conns st !! ws) as [v|] eqn:Hv.
    + rewrite (step_message _ _ _ v Hv). eexists _, _. split; [reflexivity|].
      intros c w. cbn. destruct (decide (ws = c)) as [<-|Hne].
      * rewrite lookup_insert_eq. intros [= <-].
        destruct (is_join_message message) eqn:Hj.
        -- destruct message as [|[| | | | |fields]]; try done.
           unfold is_join_message in Hj. unfold message_result. rewrite Hj.
           rewrite join_result_locals. apply Hev. unfold joined_room. by rewrite Hj.
        -- rewrite (proj2 (message_result_other ws message _ v Hj)). by eapply Hst.
      * rewrite lookup_insert_ne by done. apply Hst.
    + rewrite (proj1 (step_stranger st ws Hv)). by eexists _, _.
  - destruct (st_conns st !! ws) as [v|] eqn:Hv.
    + rewrite (step_close _ _ v Hv).
      destruct (tame_close ws (st_rooms st) v (Hst _ _ Hv)) as [r' ->].
      eexists _, _. split; [reflexivity|]. intros c w. cbn.
      intros [_ Hc]%lookup_delete_Some. by eapply Hst.
    + rewrite (proj2 (step_stranger st ws Hv)). by eexists _, _.
Qed.

Lemma tame_run evs : ∀ st,
  tame_state st → Forall tame_event evs →
  ∃ st' out, run st evs = (Running st', out) ∧ tame_state st'.
Proof.
  induction evs as [|ev evs IH]; intros st Hst Hevs.
  - by eexists _, _.
  - apply Forall_cons in Hevs as [Hev Hevs].
    destruct (tame_step st ev Hst Hev) as (st1 & out1 & Hstep & Hst1).
    destruct (IH st1 Hst1 Hevs) as (st' & out' & Hrun & Hst').
    cbn [run]. rewrite Hstep, Hrun. by eexists _, _.
Qed.

(** X7. The relay survives every sequence of connections, frames and
    closes in which each [join] names a room that is falsy or whose
    property key is not a name [rooms] inherits from [Object.prototype]:
    no close throws. *)
Theorem tame_rooms_keep_the_relay_alive evs :
  Forall tame_event evs →
  ∃ st out, run initial evs = (Running st, out).
Proof.
  intros Hevs. destruct (tame_run evs initial) as (st & out & Hrun & _); [|done|by eexists _, _].
  intros ws v. cbn. by rewrite lookup_empty.
Qed.

Lemma tame_rooms_keep_the_relay_alive_witness :
  ∃ st out,
    run initial [ Connection; Message 0 (join_message "ABCD" "alice" zeros);
                  Message 0 (signal_frame offer); Close 0 ]
    = (Running st, out).
Proof.
  apply tame_rooms_keep_the_relay_alive.
  repeat constructor; intros room [= <-]; reflexivity.
Defined.

(** ** Records and open connections *)

Lemma unregistered_not_member r c k p :
  unregistered r c → p ∈ peersOf r k → peer_ws p ≠ c.
Proof.
  intros Hun Hp Heq. specialize (Hun k). unfold registrations in Hun.
  assert (p ∈ filter (λ p, peer_ws p = c) (peersOf r k)) as Hin
    by by apply list_elem_of_filter.
  rewrite Hun in Hin. by apply elem_of_nil in Hin.
Qed.

(** What a close leaves of the registry, when every record is live. *)
Lemma live_close st ws v r' k p :
  live_records st →
  st_conns st !! ws = Some v →
  close_result ws (st_rooms st) v = Ok r' →
  p ∈ peersOf r' k →
  p ∈ peersOf (st_rooms st) k ∧ peer_ws p ≠ ws.
Proof.
  intros Hlive Hv Hclose Hp.
  assert (∀ k', p ∈ peersOf (st_rooms st) k' → peer_ws p = ws →
            truthy (roomId v) = true ∧ ToPropertyKey (roomId v) = Ok k') as Hown.
  { intros k' Hin Heq. destruct (Hlive k' p Hin) as (w & Hw & Ht & Hk).
    rewrite Heq, Hv in Hw. by injection Hw as <-. }
  unfold close_result in Hclose.
  destruct (truthy (roomId v)) eqn:Ht.
  - destruct (ToPropertyKey (roomId v)) as [k0|e] eqn:Hk0; [|done].
    unfold rooms_get in Hclose. destruct (st_rooms st !! k0) as [peers|] eqn:Hr.
    + case_bool_decide; injection Hclose as <-.
      * destruct (decide (k0 = k)) as [->|Hne].
        { rewrite peersOf_delete_eq in Hp. by apply elem_of_nil in Hp. }
        rewrite peersOf_delete_ne in Hp by done. split; [done|].
        intros Heq. destruct (Hown k Hp Heq) as [_ Hk]. congruence.
      * destruct (decide (k0 = k)) as [->|Hne].
        { rewrite peersOf_insert_eq in Hp. apply list_elem_of_filter in Hp as [Hws Hp].
          split; [|done]. unfold peersOf. by rewrite Hr. }
        rewrite peersOf_insert_ne in Hp by done. split; [done|].
        intros Heq. destruct (Hown k Hp Heq) as [_ Hk]. congruence.
    + assert (r' = st_rooms st) as -> by (case_bool_decide; congruence).
      split; [done|]. intros Heq. destruct (Hown k Hp Heq) as [_ Hk].
      assert (k = k0) as -> by congruence.
      unfold peersOf in Hp. rewrite Hr in Hp. by apply elem_of_nil in Hp.
  - injection Hclose as <-. split; [done|].
    intros Heq. destruct (Hown k Hp Heq) as [? _]. congruence.
Qed.

Lemma live_step st ev st' out :
  live_records st → below_next st →
  truthy_event ev →
  (∀ c, is_join c ev = true → unregistered (st_rooms st) c) →
  step st ev = (Running st', out) →
  live_records st'.
Proof.
  intros Hlive Hb Hev Hun Hstep. destruct ev as [|ws message|ws].
  - injection Hstep as <- _. intros k p Hp. cbn in *.
    destruct (Hlive k p Hp) as (w & Hw & Hrest). exists w. split; [|done].
    rewrite lookup_insert_ne; [done|]. intros Heq.
    rewrite <- Heq, (Hb (st_next st)) in Hw; [done|lia].
  - destruct (st_conns st !! ws) as [v|] eqn:Hv.
    2:{ rewrite (proj1 (step_stranger st ws Hv)) in Hstep. by injection Hstep as <- _. }
    rewrite (step_message _ _ _ v Hv) in Hstep. injection Hstep as <- _.
    destruct (is_join_message message) eqn:Hj.
    + destruct message as [|[| | | | |fields]]; try done.
      unfold is_join_message in Hj.
      assert (unregistered (st_rooms st) ws) as Hws.
      { apply Hun. cbn. by rewrite bool_decide_eq_true_2, Hj. }
      assert (truthy (assoc "room" fields) = true) as Ht.
      { apply Hev. unfold joined_room. by rewrite Hj. }
      unfold message_result. rewrite Hj.
      assert (∀ k p, p ∈ peersOf (st_rooms st) k →
                ∃ w, <[ws := locals (join_result ws fields (st_rooms st) v)]> (st_conns st)
                       !! peer_ws p = Some w
                     ∧ truthy (roomId w) = true ∧ ToPropertyKey (roomId w) = Ok k) as Hold.
      { intros k p Hp. destruct (Hlive k p Hp) as (w & Hw & Hrest). exists w.
        split; [|done]. rewrite lookup_insert_ne; [done|].
        intros Heq. by eapply unregistered_not_member. }
      intros k p Hp. cbn in Hp |- *.
      destruct (join_result_rooms ws fields (st_rooms st) v) as [Hr|(k0 & buf & Hk0 & Hr)];
        rewrite Hr in Hp; [by apply Hold|].
      destruct (decide (k0 = k)) as [->|Hne].
      * rewrite peersOf_insert_eq in Hp. apply elem_of_app in Hp as [Hp|Hp]; [by apply Hold|].
        apply list_elem_of_singleton in Hp as ->. cbn.
        rewrite lookup_insert_eq. eexists. split; [done|].
        by rewrite join_result_locals.
      * rewrite peersOf_insert_ne in Hp by done. by apply Hold.
    + destruct (message_result_other ws message (st_rooms st) v Hj) as [Hr Hl].
      intros k p Hp. cbn in Hp |- *. rewrite Hr in Hp. rewrite Hl.
      destruct (Hlive k p Hp) as (w & Hw & Hrest). exists w. split; [|done].
      destruct (decide (ws = peer_ws p)) as [Heq|Hne].
      * rewrite <- Heq in Hw |- *. rewrite lookup_insert_eq. congruence.
      * by rewrite lookup_insert_ne.
  - destruct (st_conns st !! ws) as [v|] eqn:Hv.
    2:{ rewrite (proj2 (step_stranger st ws Hv)) in Hstep. by injection Hstep as <- _. }
    rewrite (step_close _ _ v Hv) in Hstep.
    destruct (close_result ws (st_rooms st) v) as [r'|e] eqn:Hc; [|done].
    injection Hstep as <- _. intros k p Hp. cbn in Hp |- *.
    destruct (live_close st ws v r' k p Hlive Hv Hc Hp) as [Hin Hne].
    destruct (Hlive k p Hin) as (w & Hw & Hrest). exists w. split; [|done].
    by rewrite lookup_delete_ne.
Qed.

Lemma live_run evs : ∀ st st' out,
  live_records st → below_next st →
  Forall truthy_event evs →
  (∀ c, joins c evs ≤ 1) →
  (∀ c, 0 < joins c evs → unregistered (st_rooms st) c) →
  run st evs = (Running st', out) →
  live_records st'.
Proof.
  induction evs as [|ev evs IH]; intros st st' out Hlive Hb Hevs Hone Hun Hrun; cbn in Hrun.
  - by injection Hrun as <- _.
  - apply Forall_cons in Hevs as [Hev Hevs].
    destruct (step st ev) as [[st1|e] out1] eqn:Hs; [|done].
    destruct (run st1 evs) as [final out2] eqn:Hr. injection Hrun as -> _.
    eapply (IH st1); [| | | | |exact Hr]; try done.
    + eapply live_step; try done. intros c Hc. apply Hun.
      rewrite joins_cons, Hc. lia.
    + by eapply below_next_step.
    + intros c. specialize (Hone c). rewrite joins_cons in Hone. lia.
    + intros c Hc k. specialize (Hone c). rewrite joins_cons in Hone.
      destruct (is_join c ev) eqn:Hj; [lia|].
      destruct (registrations_step _ _ _ _ c k Hs Hj) as [->| ->]; [|done].
      apply Hun. rewrite joins_cons, Hj. lia.
Qed.

Lemma live_initial : live_records initial.
Proof. intros k p Hp. unfold peersOf in Hp. cbn in Hp. rewrite lookup_empty in Hp. by apply elem_of_nil in Hp. Qed.

Lemma deliveries_open st ev st' out target envelope :
  live_records st →
  step st ev = (st', out) →
  (target, envelope) ∈ out →
  is_Some (st_conns st !! target).
Proof.
  intros Hlive Hstep Hin. destruct ev as [|ws message|ws].
  - injection Hstep as _ <-. by apply elem_of_nil in Hin.
  - destruct (st_conns st !! ws) as [v|] eqn:Hv.
    + destruct (decide (target = ws)) as [->|Hne]; [by rewrite Hv|].
      destruct (deliveries_in_room _ _ _ _ _ _ _ _ Hv Hstep Hin Hne)
        as (_ & k & p & _ & Hp & <-).
      destruct (Hlive k p Hp) as (w & -> & _). done.
    + rewrite (proj1 (step_stranger st ws Hv)) in Hstep. injection Hstep as _ <-.
      by apply elem_of_nil in Hin.
  - destruct (st_conns st !! ws) as [v|] eqn:Hv.
    + rewrite (step_close _ _ v Hv) in Hstep.
      destruct (close_result ws (st_rooms st) v); injection Hstep as _ <-;
        by apply elem_of_nil in Hin.
    + rewrite (proj2 (step_stranger st ws Hv)) in Hstep. injection Hstep as _ <-.
      by apply elem_of_nil in Hin.
Qed.

(** C2, as stated, fails: after a connection has joined A, then B, and
    closed, room A is still in the registry, with the record of the
    closed connection, while no connection is open: the room has no
    session.  So it is after a connection has joined the room whose code
    is the empty string, and closed. *)
Lemma room_outlives_its_sessions :
  (st_rooms abandoned !! "A"
   = Some [Peer 0 (Some (JStr "alice")) (Bytes (replicate 32 0%N))]
   ∧ st_conns abandoned = ∅
   ∧ ¬ ∃ ws, session_in abandoned "A" ws)
  ∧ (st_rooms unnamed_left !! ""
     = Some [Peer 0 (Some (JStr "alice")) (Bytes (replicate 32 0%N))]
     ∧ st_conns unnamed_left = ∅
     ∧ ¬ ∃ ws, session_in unnamed_left "" ws).
Proof.
  assert (st_conns abandoned = ∅) as Hnone by (vm_compute; reflexivity).
  assert (st_conns unnamed_left = ∅) as Hnone' by (vm_compute; reflexivity).
  split; (split; [vm_compute; reflexivity|]); (split; [done|]).
  - intros (ws & [v Hv] & _). rewrite Hnone, lookup_empty in Hv. done.
  - intros (ws & [v Hv] & _). rewrite Hnone', lookup_empty in Hv. done.
Qed.

(** C2, amended. After any sequence of connections, frames and closes
    in which no connection sends more than one [join] and every [join]
    names a truthy room, a room code is a key of the registry exactly
    when the room has a session, that is an open connection with a
    record in it.  A [join] that names a room the registry does not have
    creates it with the joining session as its only member, and the
    close of the connection that holds every record of a room deletes
    the room. *)
Theorem room_present_iff_sessions evs st out :
  (∀ c, joins c evs ≤ 1) →
  Forall truthy_event evs →
  run initial evs = (Running st, out) →
  (∀ k, is_Some (st_rooms st !! k) ↔ ∃ ws, session_in st k ws)
  ∧ (∀ ws v fields k buf,
       st_conns st !! ws = Some v →
       is_str (assoc "type" fields) "join" = true →
       ToPropertyKey (assoc "room" fields) = Ok k →
       Buffer_from (assoc "key" fields) = Ok buf →
       rooms_get (st_rooms st) k = Absent →
       ∃ st1,
         step st (Message ws (Wellformed (JObj fields)))
         = (Running st1, [(ws, joined_envelope (assoc "room" fields))])
         ∧ st_rooms st1 = <[k := [Peer ws (assoc "user" fields) buf]]> (st_rooms st))
  ∧ (∀ ws k peers,
       st_rooms st !! k = Some peers →
       (∀ p, p ∈ peers → peer_ws p = ws) →
       ∃ st1,
         step st (Close ws) = (Running st1, [])
         ∧ st_rooms st1 = delete k (st_rooms st)
         ∧ st_conns st1 !! ws = None).
Proof.
  intros Hone Hevs Hrun.
  pose proof (inhabited_reachable _ _ _ Hrun) as Hinh.
  assert (live_records st) as Hlive.
  { eapply (live_run evs initial); try done. apply live_initial. }
  split; [|split].
  - intros k. split.
    + intros [peers Hk].
      destruct peers as [|p peers]; [by destruct (Hinh k [] Hk)|].
      assert (p ∈ peersOf (st_rooms st) k) as Hp.
      { unfold peersOf. rewrite Hk. apply list_elem_of_here. }
      destruct (Hlive k p Hp) as (v & Hv & _).
      exists (peer_ws p). split; [by rewrite Hv|].
      intros Hnone.
      assert (p ∈ registrations (st_rooms st) (peer_ws p) k) as Hin
        by by apply list_elem_of_filter.
      rewrite Hnone in Hin. by apply elem_of_nil in Hin.
    + intros (ws & _ & Hreg). unfold registrations, peersOf in Hreg.
      destruct (st_rooms st !! k); [done|]. by destruct Hreg.
  - intros ws v fields k buf Hv Hj Hk Hbuf Hslot.
    rewrite (step_message _ _ _ v Hv). cbn [message_result]. rewrite Hj.
    unfold join_result. rewrite Hbuf, Hk, Hslot. cbn. eexists. split; [reflexivity|].
    cbn. unfold peersOf, rooms_get in *. by destruct (st_rooms st !! k).
  - intros ws k peers Hpeers Hall.
    destruct peers as [|p peers]; [by destruct (Hinh k [] Hpeers)|].
    assert (p ∈ peersOf (st_rooms st) k) as Hp.
    { unfold peersOf. rewrite Hpeers. apply list_elem_of_here. }
    destruct (Hlive k p Hp) as (v & Hv & Ht & Hk).
    rewrite (Hall p) in Hv by apply list_elem_of_here.
    rewrite (step_close _ _ v Hv). unfold close_result. rewrite Ht, Hk.
    unfold rooms_get. rewrite Hpeers.
    assert (filter (λ p, peer_ws p ≠ ws) (p :: peers) = []) as ->.
    { apply filter_none. intros p' Hp' Hne. by apply Hne, Hall. }
    cbn. eexists. split; [reflexivity|]. split; [done|]. cbn. apply lookup_delete_eq.
Qed.

Lemma room_present_iff_sessions_witness :
  (is_Some (st_rooms two_joined !! "ABCD") ↔ ∃ ws, session_in two_joined "ABCD" ws)
  ∧ (is_Some (st_rooms two_joined !! "WXYZ") ↔ ∃ ws, session_in two_joined "WXYZ" ws).
Proof.
  enough (∀ k, is_Some (st_rooms two_joined !! k) ↔ ∃ ws, session_in two_joined k ws)
    as H by (split; apply H).
  refine (proj1 (room_present_iff_sessions
           [ Connection; Connection;
             Message 0 (join_message "ABCD" "alice" zeros);
             Message 1 (join_message "ABCD" "bob" zeros) ]
           two_joined
           [ (0, JObj [("type", JStr "joined"); ("room", JStr "ABCD")]);
             (1, JObj [("type", JStr "joined"); ("room", JStr "ABCD")]) ] _ _ _)).
  - intros [|[|c]]; vm_compute; lia.
  - repeat constructor; intros room [= <-]; reflexivity.
  - vm_compute. reflexivity.
Defined.

(** X8. When no connection sends more than one [join] and every [join]
    names a truthy room, the registry holds records of open connections
    only, each in the room its connection's room variable names; and
    whatever event comes next, every envelope the relay sends goes to a
    connection that is open. *)
Theorem records_belong_to_open_connections evs st out :
  (∀ c, joins c evs ≤ 1) →
  Forall truthy_event evs →
  run initial evs = (Running st, out) →
  (∀ k p, p ∈ peersOf (st_rooms st) k →
     ∃ v, st_conns st !! peer_ws p = Some v
          ∧ truthy (roomId v) = true ∧ ToPropertyKey (roomId v) = Ok k)
  ∧ (∀ ev st' out' target envelope,
       step st ev = (st', out') → (target, envelope) ∈ out' →
       is_Some (st_conns st !! target)).
Proof.
  intros Hone Hevs Hrun.
  assert (live_records st) as Hlive.
  { eapply (live_run evs initial); try done. apply live_initial. }
  split; [exact Hlive|].
  intros ev st' out' target envelope. by apply deliveries_open.
Qed.

Lemma records_belong_to_open_connections_witness :
  ∃ v, st_conns two_joined !! 1 = Some v
       ∧ truthy (roomId v) = true ∧ ToPropertyKey (roomId v) = Ok "ABCD".
Proof.
  refine (proj1 (records_belong_to_open_connections
           [ Connection; Connection;
             Message 0 (join_message "ABCD" "alice" zeros);
             Message 1 (join_message "ABCD" "bob" zeros) ]
           two_joined
           [ (0, joined_envelope (Some (JStr "ABCD")));
             (1, joined_envelope (Some (JStr "ABCD"))) ] _ _ _)
          "ABCD" (Peer 1 (Some (JStr "bob")) (Bytes (replicate 32 0%N))) _).
  - intros [|[|c]]; vm_compute; lia.
  - repeat constructor; intros room [= <-]; reflexivity.
  - vm_compute. reflexivity.
  - vm_compute. apply list_elem_of_further, list_elem_of_here.
Defined.

(** X9. A further [join] does not move a connection.  When a connection
    joins a room whose code is not a name [rooms] inherits and then
    closes, the relay forgets the connection, yet every other room is
    left exactly as it was before that [join]: the records the connection
    had there remain, and frames relayed in those rooms are still sent to
    it. *)
Theorem rejoin_leaves_earlier_records st ws v fields kA kB :
  st_conns st !! ws = Some v →
  is_str (assoc "type" fields) "join" = true →
  ToPropertyKey (assoc "room" fields) = Ok kB →
  kB ∉ Object_prototype →
  kA ≠ kB →
  ∃ st' out,
    run st [Message ws (Wellformed (JObj fields)); Close ws] = (Running st', out)
    ∧ st_conns st' !! ws = None
    ∧ st_rooms st' !! kA = st_rooms st !! kA.
Proof.
  intros Hv Hj HkB Hproto Hne. cbn [run].
  rewrite (step_message _ _ _ v Hv). cbn [message_result]. rewrite Hj. cbn zeta.
  set (c := join_result ws fields (st_rooms st) v).
  set (st1 := State (rooms c) (<[ws := locals c]> (st_conns st)) (st_next st)).
  assert (st_conns st1 !! ws = Some (locals c)) as Hv1 by apply lookup_insert_eq.
  assert (roomId (locals c) = assoc "room" fields) as Hroom by apply join_result_locals.
  assert (rooms c !! kA = st_rooms st !! kA) as HkA.
  { destruct (join_result_rooms ws fields (st_rooms st) v) as [Hr|(k & buf & Hk & Hr)];
      fold c in Hr; rewrite Hr; [done|].
    rewrite lookup_insert_ne; [done|congruence]. }
  destruct (tame_close ws (st_rooms st1) (locals c)) as [r' Hclose].
  { unfold tame. rewrite Hroom, HkB. rewrite bool_decide_eq_false_2 by done.
    apply orb_true_r. }
  pose proof (step_close st1 ws _ Hv1) as Hstep. rewrite Hclose in Hstep.
  destruct (close_rooms st1 ws _ _ _ Hv1 Hstep) as (_ & Hconns & _ & Hother).
  rewrite Hstep. eexists _, _. split; [reflexivity|]. split.
  - rewrite Hconns. apply lookup_delete_eq.
  - rewrite Hother; [exact HkA|]. right. rewrite Hroom, HkB. congruence.
Qed.

Lemma rejoin_leaves_earlier_records_witness :
  ∃ st' out,
    run two_joined [Message 0 (join_message "WXYZ" "alice" zeros); Close 0] = (Running st', out)
    ∧ st_conns st' !! 0 = None
    ∧ st_rooms st' !! "ABCD" = st_rooms two_joined !! "ABCD".
Proof.
  apply (rejoin_leaves_earlier_records two_joined 0
           (Vars (Some (JStr "ABCD")) (Some (JStr "alice")) (Some (Bytes (replicate 32 0%N))))
           [("type", JStr "join"); ("room", JStr "WXYZ");
            ("user", JStr "alice"); ("key", JStr zeros)] "ABCD" "WXYZ").
  - vm_compute. reflexivity.
  - reflexivity.
  - reflexivity.
  - unfold Object_prototype. set_solver.
  - done.
Defined.

End RelayMore.

(* ===================================================================== *)
(** * More of the client: what the handlers do with each frame and event *)
(* ===================================================================== *)

Module ClientMore.
Import Js Client.

Section Handlers.
Context {PC P : Type} `{!PeerConnection PC} `{!Player P}.

(** Run a handler on a state whose fields are known. *)
Ltac run_handler :=
  unfold invoke, onmessage, startCall, handleYTStateChange, onicecandidate, onopen,
    try_catch, when;
  cbv [mbind Eff_bind mret Eff_ret lift gets modify JSON_parse get log on_pc on_player
       ws_send_opt ws_send setError current_time];
  cbn.

Lemma is_str_eq v lit : is_str v lit = true → v = Some (JStr lit).
Proof. apply RelayFacts.is_str_true. Qed.

Lemma is_str_other v a b : is_str v a = true → a ≠ b → is_str v b = false.
Proof. intros H Hab. by eapply RelayFacts.is_str_exclusive. Qed.

(** Two different literals cannot both equal one value. *)
Ltac clash :=
  match goal with
  | H1 : is_str ?v ?a = true, H2 : is_str ?v ?b = true |- _ =>
      apply is_str_eq in H1; apply is_str_eq in H2; congruence
  end.

(** ** The viewer *)

(** X10. A client that holds a player, and whose socket handlers were
    created while sync was enabled, applies a [yt-sync] frame with exactly
    one call on the player: [pauseVideo] for [pause],
    [seekTo(time, true)] for [seek] with the [time] of the frame,
    [loadVideoById(videoId)] for [load] with its [videoId], [playVideo]
    for [play]; any other action calls nothing.  It sends nothing, raises
    no error, and leaves the video id of the input box and the
    negotiation object as they are. *)
Theorem viewer_applies_sync (c : client PC P) (k : closure) fields id p :
  k_disableSync k = false →
  ytPlayerRef c = Some (id, p) →
  is_str (assoc "type" fields) "yt-sync" = true →
  let c' := invoke (onmessage k (Wellformed (JObj fields))) c in
  let action := assoc "action" fields in
  (is_str action "play" = true →
     calls c' = calls c ++ [PlayVideo] ∧ ytPlayerRef c' = Some (id, playVideo p))
  ∧ (is_str action "pause" = true →
     calls c' = calls c ++ [PauseVideo] ∧ ytPlayerRef c' = Some (id, pauseVideo p))
  ∧ (is_str action "seek" = true →
     calls c' = calls c ++ [SeekTo (assoc "time" fields) true]
     ∧ ytPlayerRef c' = Some (id, seekTo (assoc "time" fields) true p))
  ∧ (is_str action "load" = true →
     calls c' = calls c ++ [LoadVideoById (assoc "videoId" fields)]
     ∧ ytPlayerRef c' = Some (id, loadVideoById (assoc "videoId" fields) p))
  ∧ (is_str action "play" = false → is_str action "pause" = false →
     is_str action "seek" = false → is_str action "load" = false →
     calls c' = calls c ∧ ytPlayerRef c' = ytPlayerRef c)
  ∧ error c' = error c ∧ videoId c' = videoId c ∧ pcRef c' = pcRef c.
Proof.
  intros Hdis Hplayer Hty.
  pose proof (is_str_other _ "yt-sync" "signal" Hty ltac:(done)) as Hsig.
  destruct c as [? ? ? ? ? ? ? ? ? ? ? ? player ? ? ? ? ?].
  destruct k as [kroom kuser khost kdis]. cbn in Hdis, Hplayer. subst.
  cbn zeta.
  destruct (is_str (assoc "action" fields) "play") eqn:Hplay,
           (is_str (assoc "action" fields) "pause") eqn:Hpause,
           (is_str (assoc "action" fields) "seek") eqn:Hseek,
           (is_str (assoc "action" fields) "load") eqn:Hload;
    try clash;
    run_handler; rewrite Hsig, Hty; cbn; rewrite Hplay, Hpause, Hseek, Hload; cbn;
    repeat apply conj; intros; done.
Qed.

(** X11. A frame changes nothing but the log, to which it adds one line,
    when it is a [signal] and the client has no negotiation object yet,
    when it is a [yt-sync] and the client has no player or its socket
    handlers were created with sync disabled, and when its type is
    neither of the two: the [joined] and [error] envelopes of the relay
    are of this kind. *)
Theorem unheeded_frames_are_only_logged (c : client PC P) (k : closure) fields :
  (is_str (assoc "type" fields) "signal" = true ∧ pcRef c = None)
  ∨ (is_str (assoc "type" fields) "yt-sync" = true
     ∧ (ytPlayerRef c = None ∨ k_disableSync k = true))
  ∨ (is_str (assoc "type" fields) "signal" = false
     ∧ is_str (assoc "type" fields) "yt-sync" = false) →
  invoke (onmessage k (Wellformed (JObj fields))) c
  = set_logs (logs c ++ [Log "Received message: " (Some (JObj fields))]) c.
Proof.
  destruct c as [? ? ? ? ? ? ? ? ? ? ? pc player ? ? ? ? ?].
  destruct k as [kroom kuser khost kdis]. cbn.
  intros [[Hty ->]|[[Hty Hwhy]|[Hsig Hty]]].
  - pose proof (is_str_other _ "signal" "yt-sync" Hty ltac:(done)) as Hyt.
    run_handler. by rewrite Hty, Hyt.
  - pose proof (is_str_other _ "yt-sync" "signal" Hty ltac:(done)) as Hsig.
    run_handler. rewrite Hty, Hsig. cbn.
    destruct Hwhy as [->| ->]; [done|]. by destruct player.
  - run_handler. by rewrite Hty, Hsig.
Qed.

(** X12. A frame that is not JSON, the frame [null], and a [signal]
    without a payload (or with the payload [null]) received by a client
    that holds a negotiation object end in the handler's [catch]: the
    error banner is set, the text of the exception is logged, and no call
    is made on the socket, the negotiation object or the player. *)
Theorem bad_frames_raise_the_banner (c : client PC P) (k : closure) :
  let banner text c0 :=
    set_logs (logs c0 ++ [Log "Error handling server message: " (Some (JStr text))])
      (set_error (Some "Error handling server message.") c0) in
  (∀ m, invoke (onmessage k (Malformed m)) c = banner m c)
  ∧ invoke (onmessage k (Wellformed JNull)) c
    = banner "Cannot read properties of null (reading 'type')"
        (set_logs (logs c ++ [Log "Received message: " (Some JNull)]) c)
  ∧ (∀ fields pc,
       pcRef c = Some pc →
       is_str (assoc "type" fields) "signal" = true →
       assoc "payload" fields = None ∨ assoc "payload" fields = Some JNull →
       ∃ text,
         invoke (onmessage k (Wellformed (JObj fields))) c
         = banner text
             (set_logs (logs c ++ [Log "Received message: " (Some (JObj fields))]) c)).
Proof.
  destruct c as [? ? ? ? ? ? ? ? ? ? ? pc player ? ? ? ? ?]. cbn zeta.
  split; [|split].
  - intros m. by run_handler.
  - by run_handler.
  - intros fields pc0 [= ->] Hty Hpay. run_handler. rewrite Hty. cbn.
    destruct Hpay as [-> | ->]; cbn; eexists; reflexivity.
Qed.

(** ** Negotiation *)

(** X13. A client that holds a negotiation object applies a description
    that is not an offer (an answer, for one) as its remote description
    and sends nothing back; it hands a candidate, when the payload has no
    description, to [addIceCandidate].  In both cases that is the only
    call, and a rejection by the browser sets the error banner. *)
Theorem answers_and_candidates_are_applied (c : client PC P) (k : closure)
    fields payload pc :
  pcRef c = Some pc →
  is_str (assoc "type" fields) "signal" = true →
  assoc "payload" fields = Some (JObj payload) →
  let c' := invoke (onmessage k (Wellformed (JObj fields))) c in
  (∀ d o pc1,
     assoc "sdp" payload = Some d →
     truthy (Some d) = true →
     is_str (kind_of d) "offer" = false →
     setRemoteDescription d pc = (o, pc1) →
     calls c' = calls c ++ [SetRemoteDescription d]
     ∧ pcRef c' = Some pc1
     ∧ error c' = match o with
                  | Ok _ => error c
                  | Throw _ => Some "Error handling server message."
                  end)
  ∧ (∀ candidate o pc1,
       truthy (assoc "sdp" payload) = false →
       assoc "candidate" payload = Some candidate →
       truthy (Some candidate) = true →
       addIceCandidate candidate pc = (o, pc1) →
       calls c' = calls c ++ [AddIceCandidate candidate]
       ∧ pcRef c' = Some pc1
       ∧ error c' = match o with
                    | Ok _ => error c
                    | Throw _ => Some "Error handling server message."
                    end)
  ∧ (truthy (assoc "sdp" payload) = false →
     truthy (assoc "candidate" payload) = false →
     calls c' = calls c ∧ pcRef c' = pcRef c ∧ error c' = error c).
Proof.
  intros Hpc Hty Hpay.
  destruct c as [? ? ? ? ? ? ? ? ? ? ? pc0 player ? ? ? ? ?].
  destruct k as [kroom kuser khost kdis]. cbn in Hpc. subst. cbn zeta.
  split; [|split].
  - intros d o pc1 Hsdp Ht Hkind Hset. run_handler.
    rewrite Hty. cbn. rewrite Hpay. cbn. rewrite Hsdp. cbn [default]. rewrite Ht.
    cbn. rewrite Hset. destruct o as [[]|e]; cbn; [|done].
    assert (get (Some d) "type" = Ok (kind_of d)) as Hget.
    { destruct d; try done. }
    unfold get in Hget. rewrite Hget. cbn. rewrite Hkind.
    by destruct (is_str (kind_of d) "answer").
  - intros candidate o pc1 Hsdp Hcand Ht Hadd. run_handler.
    rewrite Hty. cbn. rewrite Hpay. cbn. rewrite Hsdp. cbn. rewrite Hcand. cbn [default].
    rewrite Ht. cbn. rewrite Hadd. by destruct o as [[]|e].
  - intros Hsdp Hcand. run_handler.
    rewrite Hty. cbn. rewrite Hpay. cbn. rewrite Hsdp. cbn. by rewrite Hcand.
Qed.

(** X14. "Start Call" on a client whose socket is not ready only reports
    it.  On a client whose socket is ready it always makes the client the
    host: when there is no negotiation object yet nothing is created and
    nothing is sent, and when the browser refuses to create the offer the
    banner is set and nothing is sent, the client being host all the
    same. *)
Theorem start_call_makes_a_host_without_an_offer (c : client PC P) :
  (wsReady c = false →
   invoke startCall c
   = set_logs (logs c ++ [Log "WebSocket not ready, cannot start call" None])
       (set_error (Some "WebSocket not ready, cannot start call") c))
  ∧ (wsReady c = true → pcRef c = None ∨ wsRef c = None →
     invoke startCall c
     = set_logs (logs c ++ [Log "Starting call (creating offer)" None]) (set_isHost true c))
  ∧ (∀ pc s e pc1,
       wsReady c = true → pcRef c = Some pc → wsRef c = Some s →
       createOffer pc = (Throw e, pc1) →
       let c' := invoke startCall c in
       isHost c' = true
       ∧ error c' = Some "Failed to start call."
       ∧ calls c' = calls c ++ [CreateOffer]).
Proof.
  destruct c as [? ? ? ? ready ? ? ? ? ? ws pc player ? ? ? ? ?]. cbn.
  split; [|split].
  - intros ->. by run_handler.
  - intros -> [-> | ->]; run_handler; [done|]. by destruct pc.
  - intros pc0 s e pc1 -> -> -> Hoffer. run_handler. by rewrite Hoffer.
Qed.

(** ** The host *)

(** X15. [handleYTStateChange] acts on the values of the render that
    created it, not on those of the page.  Run with the values of a
    render in which the client was host and sync was enabled, on a page
    whose socket is open, it sends one [yt-sync] envelope: [play] for
    playing (1), [pause] for paused (2), and for buffering (3) a [seek]
    with the player's current time; any other state sends nothing.  Run
    with the values of a render in which the client was not the host or
    sync was disabled, or on a page without a socket, it does nothing at
    all: the function a player was given before "Start Call" stays
    silent after it. *)
Theorem host_reports_player_state (c : client PC P) (k : closure) (state : Z) :
  (∀ s, wsRef c = Some s → ws_open s = true →
        k_isHost k = true → k_disableSync k = false →
        invoke (handleYTStateChange k state) c
        = set_calls
            (calls c ++
               if (state =? 1)%Z then
                 [WsSend (JObj [("type", JStr "yt-sync"); ("room", JStr (k_room k));
                                ("action", JStr "play")])]
               else if (state =? 2)%Z then
                 [WsSend (JObj [("type", JStr "yt-sync"); ("room", JStr (k_room k));
                                ("action", JStr "pause")])]
               else if (state =? 3)%Z then [WsSend (seek_envelope k (current_time c))]
               else []) c)
  ∧ (wsRef c = None ∨ k_isHost k = false ∨ k_disableSync k = true →
     invoke (handleYTStateChange k state) c = c).
Proof.
  destruct c as [? ? ? ? ready ? ? ? ? ? ws pc player ? ? ? ? ?].
  destruct k as [kroom kuser khost kdis]. cbn. split.
  - intros s -> Hopen -> ->. run_handler.
    destruct (state =? 1)%Z eqn:H1; [apply Z.eqb_eq in H1 as ->; cbn; by rewrite Hopen|].
    destruct (state =? 2)%Z eqn:H2; [apply Z.eqb_eq in H2 as ->; cbn; by rewrite Hopen|].
    destruct (state =? 3)%Z eqn:H3; [apply Z.eqb_eq in H3 as ->; cbn; by rewrite Hopen|].
    cbn. by rewrite app_nil_r.
  - intros [->|[->| ->]]; run_handler; [done| |].
    + by destruct ws.
    + destruct ws; cbn; [|done]. by destruct khost.
Qed.

End Handlers.

(** ** What a handler leaves alone

    [f] is a view of the component that does not depend on the log, the
    banner, the trace of calls, the negotiation object, the player, the
    readiness flag, the local stream or the suspension of [handleJoin];
    a handler that writes these only leaves [f] as it was.  The host
    flag, [joined] and the socket are written by "Start Call" and by
    [handleJoin] only. *)
Section Frame.
Context {PC P : Type} `{!PeerConnection PC} `{!Player P}.
Context {B : Type} (f : client PC P → B).

Record blind : Prop := Blind {
  f_logs : ∀ x c, f (set_logs x c) = f c;
  f_error : ∀ x c, f (set_error x c) = f c;
  f_calls : ∀ x c, f (set_calls x c) = f c;
  f_pcRef : ∀ x c, f (set_pcRef x c) = f c;
  f_ytPlayerRef : ∀ x c, f (set_ytPlayerRef x c) = f c;
  f_wsReady : ∀ x c, f (set_wsReady x c) = f c;
  f_localStream : ∀ x c, f (set_localStream x c) = f c;
  f_awaiting_media : ∀ x c, f (set_awaiting_media x c) = f c;
}.

Definition unchanged {A} (m : Eff (client PC P) A) : Prop :=
  ∀ c, f (m c).2 = f c.

Lemma unchanged_ret {A} (a : A) : unchanged (mret a).
Proof. by intros c. Qed.

Lemma unchanged_lift {A} (o : outcome A) : unchanged (lift o).
Proof. by intros c. Qed.

Lemma unchanged_gets {A} (g : client PC P → A) : unchanged (gets g).
Proof. by intros c. Qed.

Lemma unchanged_modify (g : client PC P → client PC P) :
  (∀ c, f (g c) = f c) → unchanged (modify g).
Proof. intros Hg c. apply Hg. Qed.

Lemma unchanged_bind {A C} (m : Eff (client PC P) A) (k : A → Eff (client PC P) C) :
  unchanged m → (∀ a, unchanged (k a)) → unchanged (m ≫= k).
Proof.
  intros Hm Hk c. unfold mbind, Eff_bind. specialize (Hm c).
  destruct (m c) as [[a|e] c1]; cbn in *; [|done]. by rewrite Hk.
Qed.

Lemma unchanged_try_catch (body : Eff (client PC P) unit) handler :
  unchanged body → (∀ e, unchanged (handler e)) → unchanged (try_catch body handler).
Proof.
  intros Hb Hh c. unfold try_catch. specialize (Hb c).
  destruct (body c) as [[[]|e] c1]; cbn in *; [done|]. by rewrite Hh.
Qed.

Lemma unchanged_when b (m : Eff (client PC P) unit) : unchanged m → unchanged (when b m).
Proof. intros Hm. destruct b; [done|apply unchanged_ret]. Qed.

Lemma unchanged_invoke (m : Eff (client PC P) unit) c : unchanged m → f (invoke m c) = f c.
Proof. intros Hm. apply Hm. Qed.

Context (Hf : blind).

Lemma unchanged_log text value : unchanged (log text value).
Proof using Hf. intros c. apply Hf. Qed.

Lemma unchanged_setError message : unchanged (setError message).
Proof using Hf. intros c. apply Hf. Qed.

Lemma unchanged_on_pc {A} k (method : PC → outcome A * PC) : unchanged (on_pc k method).
Proof using Hf.
  intros c. unfold on_pc. destruct (pcRef c) as [pc|]; [|done].
  destruct (method pc). cbn. by rewrite f_calls, f_pcRef.
Qed.

Lemma unchanged_on_player k (method : P → P) : unchanged (on_player k method).
Proof using Hf.
  intros c. unfold on_player. destruct (ytPlayerRef c) as [[id p]|]; [|done].
  cbn. by rewrite f_calls, f_ytPlayerRef.
Qed.

Lemma unchanged_ws_send literal : unchanged (ws_send literal).
Proof using Hf.
  intros c. unfold ws_send. destruct (wsRef c) as [s|]; [|done].
  destruct (ws_open s); [|done]. cbn. by rewrite f_calls.
Qed.

Lemma unchanged_ws_send_opt literal : unchanged (ws_send_opt literal).
Proof using Hf.
  intros c. unfold ws_send_opt. destruct (wsRef c); [apply unchanged_ws_send|done].
Qed.

(** Take a handler apart along its binds, branches and [catch]. *)
Ltac frame :=
  repeat first
    [ apply unchanged_ret | apply unchanged_lift | apply unchanged_gets
    | apply unchanged_log | apply unchanged_setError | apply unchanged_on_pc
    | apply unchanged_on_player | apply unchanged_ws_send | apply unchanged_ws_send_opt
    | apply unchanged_bind; [|intros ?]
    | apply unchanged_try_catch; [|intros ?]
    | apply unchanged_when
    | apply unchanged_modify; intros ?;
      rewrite ?f_logs, ?f_error, ?f_calls, ?f_pcRef, ?f_ytPlayerRef, ?f_wsReady,
        ?f_localStream, ?f_awaiting_media by done; done
    | match goal with
      | |- unchanged (if ?b then _ else _) => destruct b
      | |- unchanged (match ?x with _ => _ end) => destruct x
      end ].

Lemma unchanged_onmessage k message : unchanged (onmessage k message).
Proof using Hf. unfold onmessage. frame. Qed.

Lemma unchanged_onopen k : unchanged (onopen k).
Proof using Hf. unfold onopen. frame. Qed.

Lemma unchanged_onerror e : unchanged (onerror e).
Proof using Hf. unfold onerror. frame. Qed.

Lemma unchanged_onicecandidate k candidate : unchanged (onicecandidate k candidate).
Proof using Hf. unfold onicecandidate. frame. Qed.

Lemma unchanged_tracks tracks (acc : Eff (client PC P) PC) :
  unchanged acc →
  unchanged
    (foldl (λ (acc : Eff (client PC P) PC) track,
              pc ← acc;
              log "Adding local track: " (Some (JStr track));;
              modify (λ c, set_calls (calls c ++ [AddTrack track]) c);;
              mret (addTrack track pc)) acc tracks).
Proof using Hf.
  revert acc. induction tracks as [|track tracks IH]; intros acc Hacc; [done|].
  cbn [foldl]. apply IH. frame. done.
Qed.

Lemma unchanged_handleJoin_resume media : unchanged (handleJoin_resume media).
Proof using Hf. unfold handleJoin_resume. frame. apply unchanged_tracks. frame. Qed.

Lemma unchanged_handleYTReady id player : unchanged (handleYTReady id player).
Proof using Hf. unfold handleYTReady. frame. Qed.

Lemma unchanged_handleYTStateChange k state : unchanged (handleYTStateChange k state).
Proof using Hf. unfold handleYTStateChange. frame. Qed.

Lemma unchanged_interval_callback k : unchanged (interval_callback k).
Proof using Hf. unfold interval_callback. frame. Qed.

Lemma unchanged_startCall :
  (∀ x c, f (set_isHost x c) = f c) → unchanged startCall.
Proof using Hf.
  intros Hhost. unfold startCall. frame.
Qed.

Lemma unchanged_handleJoin :
  (∀ x c, f (set_isHost x c) = f c) →
  (∀ x c, f (set_joined x c) = f c) →
  (∀ x c, f (set_wsRef x c) = f c) →
  unchanged handleJoin.
Proof using Hf.
  intros Hhost Hjoined Hws. unfold handleJoin. frame.
Qed.

(** A render, and the passing of time, write the interval, the
    dependencies seen, the clock and the trace of calls only. *)
Lemma unchanged_render c :
  (∀ x c, f (set_interval x c) = f c) →
  (∀ x c, f (set_last_deps x c) = f c) →
  f (render c) = f c.
Proof using Hf.
  intros Hint Hdeps. unfold render. case_decide; [done|].
  rewrite Hdeps. unfold effect, cleanup.
  destruct (_ || _); destruct (interval c); by rewrite ?f_calls, ?Hint, ?f_calls, ?Hint.
Qed.

Lemma unchanged_fire fuel :
  (∀ x c, f (set_interval x c) = f c) →
  (∀ x c, f (set_last_deps x c) = f c) →
  (∀ x c, f (set_now x c) = f c) →
  ∀ target c, f (fire fuel target c) = f c.
Proof using Hf.
  intros Hint Hdeps Hnow. induction fuel as [|fuel IH]; intros target c; cbn [fire]; [done|].
  destruct (interval c) as [t|]; [|done].
  destruct (due t <=? target)%Z; [|done].
  rewrite IH, unchanged_render, (unchanged_invoke _ _ (unchanged_interval_callback _)) by done.
  by rewrite Hint, Hnow.
Qed.

End Frame.

(** ** Closures that go stale, and closures that do not *)

Section Pages.
Context {PC P : Type} `{!PeerConnection PC} `{!Player P}.

Definition join_view (c : client PC P) :=
  (joined c, disableSync c, room c, username c, wsRef c).

Lemma join_view_blind : blind join_view.
Proof. split; by intros ? []. Qed.

Lemma join_closure_view (c c' : client PC P) :
  join_view c' = join_view c → join_closure c → join_closure c'.
Proof. unfold join_view, join_closure. intros [= -> -> -> -> ->]. done. Qed.

Lemma join_closure_render (c : client PC P) : join_closure c → join_closure (render c).
Proof.
  apply join_closure_view, unchanged_render; [apply join_view_blind|by intros ? []..].
Qed.

Lemma join_closure_invoke (m : Eff (client PC P) unit) c :
  unchanged join_view m → join_closure c → join_closure (invoke m c).
Proof. intros Hm. apply join_closure_view, Hm. Qed.

Lemma join_closure_step (c : client PC P) ev : join_closure c → join_closure (step c ev).
Proof.
  intros Hc. pose proof join_view_blind as Hb.
  destruct ev; cbn [step].
  - destruct (joined c) eqn:Hj; [done|]. apply join_closure_render.
    destruct Hc as [Hc _]. destruct (Hc Hj) as [Hws Hdis].
    destruct c. cbn in *. subst. by split.
  - destruct (joined c) eqn:Hj; [done|]. apply join_closure_render.
    destruct Hc as [Hc _]. destruct (Hc Hj) as [Hws Hdis].
    destruct c. cbn in *. subst. by split.
  - destruct (joined c) eqn:Hj; [done|]. cbn.
    destruct (_ || _); [done|]. apply join_closure_render.
    destruct Hc as [Hc _]. destruct (Hc Hj) as [Hws Hdis].
    destruct c. cbn in *. subst. split; [done|].
    intros s [= <-]. done.
  - destruct (awaiting_media c); [|done].
    by apply join_closure_render, join_closure_invoke; [apply unchanged_handleJoin_resume|].
  - destruct (wsRef c) as [s|] eqn:Hs; [|done]. destruct (ws_open s); [done|].
    apply join_closure_render, join_closure_invoke; [by apply unchanged_onopen|].
    destruct Hc as [Hc1 Hc2]. specialize (Hc2 s Hs).
    destruct c. cbn in *. subst. split.
    + intros Hj. by destruct (Hc1 Hj).
    + by intros ? [= <-].
  - destruct (wsRef c); [|done].
    by apply join_closure_render, join_closure_invoke; [apply unchanged_onerror|].
  - destruct (wsRef c) as [s|]; [|done]. destruct (ws_open s); [|done].
    by apply join_closure_render, join_closure_invoke; [apply unchanged_onmessage|].
  - destruct (wsRef c) as [s|]; [|done]. destruct (pcRef c); [|done].
    by apply join_closure_render, join_closure_invoke; [apply unchanged_onicecandidate|].
  - destruct (joined c && wsReady c); [|done].
    apply join_closure_render, join_closure_invoke; [|done].
    apply unchanged_startCall; [done|by intros ? []].
  - destruct (joined c); [|done].
    by apply join_closure_invoke; [apply unchanged_handleYTReady|].
  - destruct (is_some (ytPlayerRef c)); [|done].
    by apply join_closure_invoke; [apply unchanged_handleYTStateChange|].
  - destruct (joined c) eqn:Hj; [|done]. apply join_closure_render.
    destruct Hc as [_ Hc]. destruct c. cbn in *. subst. split; [done|]. apply Hc.
  - destruct (0 <=? ms)%Z; [|done].
    eapply join_closure_view; [|exact Hc].
    apply unchanged_fire; [done|by intros ? []..].
Qed.

Lemma render_player (c : client PC P) : ytPlayerRef (render c) = ytPlayerRef c.
Proof.
  unfold render. case_decide; [done|]. unfold effect, cleanup.
  destruct c as [? ? ? host ? dis ? ? ? ? ws ? player ? int ? ? ?]. cbn.
  by destruct int, host, player, ws, dis.
Qed.

Lemma join_closure_run evs : join_closure (run (mount : client PC P) evs).
Proof.
  unfold run. induction evs as [|ev evs IH] using rev_ind.
  - split; [done|]. by intros s [=].
  - rewrite foldl_app. cbn. by apply join_closure_step.
Qed.

(** X16. The handlers of the socket are those [handleJoin] created.  On
    every page that events lead to from the mount, they carry the room
    and the name of the page and a sync switch that is off, whatever the
    "Disable YouTube Sync" box says now: a [yt-sync] frame that says
    [play] is applied to the player even while the box is ticked. *)
Theorem sync_switch_does_not_stop_incoming evs s :
  let c : client PC P := run mount evs in
  wsRef c = Some s →
  (k_disableSync (ws_env s) = false
   ∧ k_room (ws_env s) = room c ∧ k_username (ws_env s) = username c)
  ∧ (∀ fields id p,
       ws_open s = true →
       ytPlayerRef c = Some (id, p) →
       is_str (assoc "type" fields) "yt-sync" = true →
       is_str (assoc "action" fields) "play" = true →
       ytPlayerRef (step c (SocketMessage (Wellformed (JObj fields))))
       = Some (id, playVideo p)).
Proof.
  intros c Hs. destruct (join_closure_run evs) as [_ Hk]. fold c in Hk.
  destruct (Hk s Hs) as (Hdis & Hroom & Huser). split; [done|].
  intros fields id p Hopen Hplayer Hty Hplay. cbn [step]. rewrite Hs, Hopen.
  transitivity (ytPlayerRef (invoke (onmessage (ws_env s) (Wellformed (JObj fields))) c)).
  { apply render_player. }
  pose proof (is_str_other _ "yt-sync" "signal" Hty ltac:(done)) as Hsig.
  pose proof (is_str_other _ "play" "pause" Hplay ltac:(done)) as Hpause.
  pose proof (is_str_other _ "play" "seek" Hplay ltac:(done)) as Hseek.
  pose proof (is_str_other _ "play" "load" Hplay ltac:(done)) as Hload.
  destruct (ws_env s) as [kroom kuser khost kdis]. cbn in Hdis. subst kdis.
  clearbody c. destruct c as [? ? ? ? ? ? ? ? ? ? ? ? player ? ? ? ? ?].
  cbn in Hplayer. subst player.
  unfold invoke, onmessage, try_catch, when.
  cbv [mbind Eff_bind mret Eff_ret lift gets modify JSON_parse get log on_player].
  cbn. rewrite Hsig, Hty. cbn. by rewrite Hplay, Hpause, Hseek, Hload.
Qed.

(** *** The interval *)

Definition interval_view (c : client PC P) := (interval c, last_deps c).

Definition core_view (c : client PC P) :=
  (interval c, last_deps c, isHost c, room c, disableSync c).

Lemma interval_view_blind : blind interval_view.
Proof. split; by intros ? []. Qed.

Lemma core_view_blind : blind core_view.
Proof. split; by intros ? []. Qed.

Lemma interval_closure_view (c c' : client PC P) :
  core_view c' = core_view c → interval_closure c → interval_closure c'.
Proof.
  unfold core_view, interval_closure, current, seen. intros [= -> -> -> -> ->]. done.
Qed.

(** A render after a change that left the interval and the dependencies
    seen as they were. *)
Lemma interval_closure_render (c0 c1 : client PC P) :
  interval_view c1 = interval_view c0 →
  interval_closure c0 → interval_closure (render c1).
Proof.
  unfold interval_view. intros [= Hint Hdeps] [Ht Hd]. unfold render.
  case_decide as Hsame.
  - rewrite Hdeps in Hsame. specialize (Hd _ Hsame).
    assert (seen (current_deps c1) c1) as Hnow by done.
    split.
    + intros t Hi. rewrite Hint in Hi. specialize (Ht t Hi).
      unfold current, seen in *. cbn in *. intuition congruence.
    + intros d Hl. rewrite Hdeps in Hl. assert (d = current_deps c1) as -> by congruence.
      done.
  - clear Hsame Hint Hdeps Ht Hd.
    destruct c1 as [? ? ? host ? dis ? ? ? ? ws ? player ? int ? ? ?].
    unfold effect, cleanup, interval_closure, current, seen. cbn.
    destruct int, host, player, ws, dis; cbn; split; intros ? [= <-]; done.
Qed.

Lemma interval_closure_handled (m : Eff (client PC P) unit) c :
  unchanged interval_view m → interval_closure c → interval_closure (render (invoke m c)).
Proof. intros Hm. apply interval_closure_render, Hm. Qed.

Lemma interval_closure_quiet (m : Eff (client PC P) unit) c :
  unchanged core_view m → interval_closure c → interval_closure (invoke m c).
Proof. intros Hm. apply interval_closure_view, Hm. Qed.

Lemma interval_closure_fire fuel : ∀ target (c : client PC P),
  interval_closure c → interval_closure (fire fuel target c).
Proof.
  induction fuel as [|fuel IH]; intros target c Hc.
  - eapply interval_closure_view; [|exact Hc]. by destruct c.
  - cbn [fire]. destruct (interval c) as [t|] eqn:Ht.
    + destruct (due t <=? target)%Z.
      * apply IH.
        set (c1 := set_interval _ _).
        assert (interval_closure c1) as Hc1.
        { destruct Hc as [Hi Hd]. specialize (Hi t Ht).
          subst c1. destruct c. cbn in *. split; [|exact Hd].
          by intros ? [= <-]. }
        eapply interval_closure_render; [|exact Hc1].
        apply (unchanged_interval_callback interval_view interval_view_blind).
      * eapply interval_closure_view; [|exact Hc]. by destruct c.
    + eapply interval_closure_view; [|exact Hc]. by destruct c.
Qed.

Lemma interval_closure_step (c : client PC P) ev :
  interval_closure c → interval_closure (step c ev).
Proof.
  intros Hc. pose proof interval_view_blind as Hb. pose proof core_view_blind as Hcb.
  destruct ev; cbn [step].
  - destruct (joined c); [done|].
    eapply interval_closure_render; [|exact Hc]. by destruct c.
  - destruct (joined c); [done|].
    eapply interval_closure_render; [|exact Hc]. by destruct c.
  - destruct (_ || _); [done|]. apply interval_closure_handled; [|done].
    apply unchanged_handleJoin; [done|by intros ? []..].
  - destruct (awaiting_media c); [|done].
    by apply interval_closure_handled; [apply unchanged_handleJoin_resume|].
  - destruct (wsRef c) as [s|]; [|done]. destruct (ws_open s); [done|].
    eapply interval_closure_render; [|exact Hc].
    rewrite (unchanged_invoke interval_view) by by apply unchanged_onopen.
    by destruct c.
  - destruct (wsRef c); [|done].
    by apply interval_closure_handled; [apply unchanged_onerror|].
  - destruct (wsRef c) as [s|]; [|done]. destruct (ws_open s); [|done].
    by apply interval_closure_handled; [apply unchanged_onmessage|].
  - destruct (wsRef c) as [s|]; [|done]. destruct (pcRef c); [|done].
    by apply interval_closure_handled; [apply unchanged_onicecandidate|].
  - destruct (joined c && wsReady c); [|done].
    apply interval_closure_handled; [|done].
    apply unchanged_startCall; [done|by intros ? []].
  - destruct (joined c); [|done].
    by apply interval_closure_quiet; [apply unchanged_handleYTReady|].
  - destruct (is_some (ytPlayerRef c)); [|done].
    by apply interval_closure_quiet; [apply unchanged_handleYTStateChange|].
  - destruct (joined c); [|done].
    eapply interval_closure_render; [|exact Hc]. by destruct c.
  - destruct (0 <=? ms)%Z; [|done]. by apply interval_closure_fire.
Qed.

Lemma interval_closure_run evs : interval_closure (run (mount : client PC P) evs).
Proof.
  unfold run. induction evs as [|ev evs IH] using rev_ind.
  - split; by intros ? [=].
  - rewrite foldl_app. cbn. by apply interval_closure_step.
Qed.

(** X17. The callback of the interval never goes stale.  On every page
    that events lead to from the mount, an installed interval was
    installed with the room of the page, by a client that is still the
    host and whose sync is still enabled; hence once the host ticks
    "Disable YouTube Sync" no interval is installed, and the passing of
    time sends nothing. *)
Theorem interval_sees_the_page evs :
  let c : client PC P := run mount evs in
  (∀ t, interval c = Some t →
     isHost c = true ∧ disableSync c = false ∧ k_room (t_env t) = room c)
  ∧ (∀ ms, isHost c = false ∨ disableSync c = true →
       interval c = None ∧ calls (step c (Elapse ms)) = calls c).
Proof.
  intros c.
  assert (∀ t, interval c = Some t →
            isHost c = true ∧ disableSync c = false ∧ k_room (t_env t) = room c) as Hint.
  { intros t Ht.
    destruct (interval_closure_run evs) as [Hk _]. destruct (Hk t Ht) as (Hh & Hr & Hd).
    destruct (ClientFacts.host_interval_run evs t Ht) as [Hhost Hsync].
    fold c in Hh, Hr, Hd. repeat split; congruence. }
  split; [exact Hint|].
  intros ms Hoff.
  assert (interval c = None) as Hnone.
  { destruct (interval c) as [t|]; [|done].
    destruct (Hint t eq_refl) as (? & ? & _). destruct Hoff; congruence. }
  split; [done|]. cbn [step]. destruct (0 <=? ms)%Z; [|done].
  generalize (Z.to_nat (ms / 5000) + 1). intros fuel.
  destruct fuel; cbn [fire]; rewrite ?Hnone; by destruct c.
Qed.

End Pages.

Lemma sync_switch_does_not_stop_incoming_witness :
  disableSync alice_muted = true
  ∧ ytPlayerRef (step alice_muted (SocketMessage play_frame))
    = Some (0, YtPlayer 1 (JNum "42.5") (Some (JStr "dQw4w9WgXcQ"))).
Proof.
  split; [reflexivity|].
  refine (proj2 (sync_switch_does_not_stop_incoming
                   [ TypeUsername "alice"; TypeRoom "ABCD"; ClickJoin;
                     MediaResult (Ok ["audio"; "video"]); SocketOpen;
                     PlayerReady 0 paused_player; SetDisableSync true ]
                   (Socket true alice_closure) _)
            [("type", JStr "yt-sync"); ("action", JStr "play")] 0 paused_player _ _ _ _);
    vm_compute; reflexivity.
Defined.

Lemma interval_sees_the_page_witness :
  interval host_muted = None
  ∧ calls (step host_muted (Elapse 20000)) = calls host_muted.
Proof.
  refine (proj2 (interval_sees_the_page
                   [ TypeUsername "alice"; TypeRoom "ABCD"; ClickJoin;
                     MediaResult (Ok ["audio"; "video"]); SocketOpen;
                     PlayerReady 0 paused_player; ClickStartCall; SetDisableSync true ])
            20000%Z _).
  right. reflexivity.
Defined.

Lemma viewer_applies_sync_witness :
  calls (invoke (onmessage alice_closure (Wellformed Server.seek_relayed)) alice_joined)
  = calls alice_joined ++ [SeekTo (Some (JNum "42.5")) true]
  ∧ ytPlayerRef (invoke (onmessage alice_closure (Wellformed Server.seek_relayed)) alice_joined)
    = Some (0, YtPlayer 2 (JNum "42.5") (Some (JStr "dQw4w9WgXcQ"))).
Proof.
  refine (proj1 (proj2 (proj2 (viewer_applies_sync alice_joined alice_closure
            [("type", JStr "yt-sync"); ("action", JStr "seek"); ("time", JNum "42.5")]
            0 paused_player _ _ _))) _); vm_compute; reflexivity.
Defined.

Lemma unheeded_frames_are_only_logged_witness :
  invoke (onmessage alice_closure
            (Wellformed (JObj [("type", JStr "error"); ("message", JStr "Unexpected token")])))
    alice_joined
  = set_logs (logs alice_joined
              ++ [Log "Received message: "
                    (Some (JObj [("type", JStr "error");
                                 ("message", JStr "Unexpected token")]))])
      alice_joined.
Proof.
  apply (unheeded_frames_are_only_logged alice_joined alice_closure
           [("type", JStr "error"); ("message", JStr "Unexpected token")]).
  right. right. split; reflexivity.
Defined.

Lemma bad_frames_raise_the_banner_witness :
  ∃ text,
    invoke (onmessage alice_closure (Wellformed (JObj [("type", JStr "signal")]))) alice_joined
    = set_logs
        (logs alice_joined
         ++ [Log "Received message: " (Some (JObj [("type", JStr "signal")]));
             Log "Error handling server message: " (Some (JStr text))])
        (set_error (Some "Error handling server message.") alice_joined).
Proof.
  destruct (proj2 (proj2 (bad_frames_raise_the_banner alice_joined alice_closure))
              [("type", JStr "signal")]
              (BrowserPc Stable None None ["audio"; "video"] [] 0)
              eq_refl eq_refl (or_introl eq_refl)) as [text Htext].
  exists text. rewrite Htext. vm_compute. reflexivity.
Defined.

Lemma answers_and_candidates_are_applied_witness :
  calls (invoke (onmessage alice_closure
                   (Wellformed (JObj [("type", JStr "signal"); ("from", JStr "bob");
                                      ("payload", JObj [("sdp", description "answer" 0)])])))
           alice_hosting)
  = calls alice_hosting ++ [SetRemoteDescription (description "answer" 0)]
  ∧ pcRef (invoke (onmessage alice_closure
                     (Wellformed (JObj [("type", JStr "signal"); ("from", JStr "bob");
                                        ("payload", JObj [("sdp", description "answer" 0)])])))
             alice_hosting)
    = Some (BrowserPc Stable (Some (description "offer" 0)) (Some (description "answer" 0))
              ["audio"; "video"] [] 1)
  ∧ error (invoke (onmessage alice_closure
                     (Wellformed (JObj [("type", JStr "signal"); ("from", JStr "bob");
                                        ("payload", JObj [("sdp", description "answer" 0)])])))
             alice_hosting)
    = error alice_hosting.
Proof.
  refine (proj1 (answers_and_candidates_are_applied alice_hosting alice_closure
            [("type", JStr "signal"); ("from", JStr "bob");
             ("payload", JObj [("sdp", description "answer" 0)])]
            [("sdp", description "answer" 0)]
            (BrowserPc HaveLocalOffer (Some (description "offer" 0)) None
               ["audio"; "video"] [] 1) _ _ _)
           (description "answer" 0) (Ok tt)
           (BrowserPc Stable (Some (description "offer" 0)) (Some (description "answer" 0))
              ["audio"; "video"] [] 1) _ _ _ _); vm_compute; reflexivity.
Defined.

Lemma start_call_makes_a_host_without_an_offer_witness :
  invoke startCall alice_waiting
  = set_logs (logs alice_waiting ++ [Log "Starting call (creating offer)" None])
      (set_isHost true alice_waiting).
Proof.
  refine (proj1 (proj2 (start_call_makes_a_host_without_an_offer alice_waiting)) _ _).
  - reflexivity.
  - left. reflexivity.
Defined.

Lemma host_reports_player_state_witness :
  invoke (handleYTStateChange (render_values host_replayed) 1) host_replayed
  = set_calls
      (calls host_replayed
       ++ [WsSend (JObj [("type", JStr "yt-sync"); ("room", JStr "ABCD");
                         ("action", JStr "play")])])
      host_replayed.
Proof.
  apply (proj1 (host_reports_player_state host_replayed (render_values host_replayed) 1)
           (Socket true alice_closure)); reflexivity.
Defined.

End ClientMore.

(* ===================================================================== *)
(** * Properties of the video-id input *)
(* ===================================================================== *)

Module VideoIdFacts.
Import Js VideoId.

(** ** Strings and their characters *)

Lemma length_units s : length (String.list_ascii_of_string s) = String.length s.
Proof. induction s as [|c s IH]; cbn; congruence. Qed.

Lemma units_app s t :
  String.list_ascii_of_string (s +:+ t)
  = String.list_ascii_of_string s ++ String.list_ascii_of_string t.
Proof. induction s as [|c s IH]; cbn; [done|]. by rewrite <- IH. Qed.

Lemma length_of_units l : String.length (String.string_of_list_ascii l) = length l.
Proof. by rewrite <- length_units, String.list_ascii_of_string_of_list_ascii. Qed.

(** ** What [exec] accepts, it matches *)

Lemma literal_sound lit : ∀ input t, literal lit input = Some t → input = lit ++ t.
Proof.
  induction lit as [|a lit IH]; intros [|b input] t; cbn; try done.
  - by intros [= ->].
  - by intros [= ->].
  - destruct (Ascii.eqb_spec a b) as [->|]; [|done]. intros H. by rewrite (IH _ _ H).
Qed.

Lemma greedy_sound p k z : ∀ input i g,
  greedy p i input g k = Some z →
  ∃ w t, input = w ++ t ∧ Forall (λ c, p c = true) w
         ∧ k (Cursor (i + length w) t g) = Some z.
Proof.
  induction input as [|c input IH]; intros i g; cbn.
  - intros Hk. exists [], []. cbn. by rewrite Nat.add_0_r.
  - destruct (p c) eqn:Hc.
    + destruct (greedy p (S i) input g k) as [z'|] eqn:Hg.
      * intros [= ->]. destruct (IH _ _ Hg) as (w & t & -> & Hw & Hk).
        exists (c :: w), t. split; [done|]. split; [by constructor|].
        cbn. by replace (i + S (length w)) with (S i + length w) by lia.
      * intros Hk. exists [], (c :: input). cbn. by rewrite Nat.add_0_r.
    + intros Hk. exists [], (c :: input). cbn. by rewrite Nat.add_0_r.
Qed.

Lemma exec_sound r : ∀ x k z,
  exec r x k = Some z →
  ∃ w y, rest x = w ++ rest y ∧ index y = index x + length w
         ∧ matches r w ∧ k y = Some z.
Proof.
  induction r as [s|p|r1 IH1 r2 IH2|r1 IH1 r2 IH2|r1 IH1|p|p|n r1 IH1|r1 IH1| |];
    intros x k z; cbn [exec matches].
  - destruct (literal _ (rest x)) as [t|] eqn:Hl; [|done]. intros Hk.
    apply literal_sound in Hl.
    exists (String.list_ascii_of_string s), (Cursor (index x + String.length s) t (group1 x)).
    cbn. by rewrite length_units.
  - destruct (rest x) as [|c input] eqn:Hx; [done|].
    destruct (p c) eqn:Hc; [|done]. intros Hk.
    exists [c], (Cursor (S (index x)) input (group1 x)).
    cbn. repeat split; [lia| |done]. by exists c.
  - intros H. destruct (IH1 _ _ _ H) as (w1 & y1 & Hx & Hi & Hm1 & H2).
    destruct (IH2 _ _ _ H2) as (w2 & y2 & Hy & Hi2 & Hm2 & Hk).
    exists (w1 ++ w2), y2. rewrite Hx, Hy, <- app_assoc, length_app.
    repeat split; [lia| |done]. by exists w1, w2.
  - destruct (exec r1 x k) as [z1|] eqn:H1.
    + intros [= ->]. destruct (IH1 _ _ _ H1) as (w & y & ? & ? & ? & ?).
      exists w, y. repeat split; try done. by left.
    + intros H2. destruct (IH2 _ _ _ H2) as (w & y & ? & ? & ? & ?).
      exists w, y. repeat split; try done. by right.
  - destruct (exec r1 x k) as [z1|] eqn:H1.
    + intros [= ->]. destruct (IH1 _ _ _ H1) as (w & y & ? & ? & ? & ?).
      exists w, y. repeat split; try done. by left.
    + intros Hk. exists [], x. cbn. repeat split; [lia|by right|done].
  - intros H. destruct (greedy_sound _ _ _ _ _ _ H) as (w & t & Hx & Hw & Hk).
    by exists w, (Cursor (index x + length w) t (group1 x)).
  - destruct (rest x) as [|c input] eqn:Hx; [done|].
    destruct (p c) eqn:Hc; [|done]. intros H.
    destruct (greedy_sound _ _ _ _ _ _ H) as (w & t & -> & Hw & Hk).
    exists (c :: w), (Cursor (S (index x) + length w) t (group1 x)).
    cbn. repeat split; [lia|done|by constructor|done].
  - revert x k z. induction n as [|n IHn]; intros x k z.
    + intros Hk. exists [], x. cbn. repeat split; [lia|done].
    + intros H. destruct (IH1 _ _ _ H) as (w1 & y1 & Hx & Hi & Hm1 & H2).
      destruct (IHn _ _ _ H2) as (w2 & y2 & Hy & Hi2 & Hm2 & Hk).
      exists (w1 ++ w2), y2. rewrite Hx, Hy, <- app_assoc, length_app.
      repeat split; [lia| |done]. by exists w1, w2.
  - intros H. destruct (IH1 _ _ _ H) as (w & y & Hx & Hi & Hm & Hk).
    by exists w, (Cursor (index y) (rest y) (Some (take (index y - index x) (rest x)))).
  - destruct (Nat.eqb (index x) 0); [|done]. intros Hk.
    exists [], x. cbn. repeat split; [lia|done].
  - destruct (rest x) as [|c input] eqn:Hx; [|done]. intros Hk.
    exists [], x. cbn. repeat split; [done|lia|done].
Qed.

(** A search finds a match of the pattern somewhere in the input. *)
Lemma search_sound r z : ∀ input i,
  search_from r i input = Some z →
  ∃ pre t, input = pre ++ t ∧ exec r (Cursor (i + length pre) t None) Some = Some z.
Proof.
  induction input as [|c input IH]; intros i; cbn [search_from].
  - destruct (exec r (Cursor i [] None) Some) as [z'|] eqn:He; [|done].
    intros [= ->]. exists [], []. cbn. by rewrite Nat.add_0_r.
  - destruct (exec r (Cursor i (c :: input) None) Some) as [z'|] eqn:He.
    + intros [= ->]. exists [], (c :: input). cbn. by rewrite Nat.add_0_r.
    + intros H. destruct (IH _ H) as (pre & t & -> & Ht).
      exists (c :: pre), t. split; [done|]. cbn.
      by replace (i + S (length pre)) with (S i + length pre) by lia.
Qed.

(** ** Eleven characters of a class *)

Lemma matches_times_class n p : ∀ w,
  matches (Times n (Class p)) w → length w = n ∧ Forall (λ c, p c = true) w.
Proof.
  cbn. induction n as [|n IH]; intros w.
  - by intros ->.
  - intros (w1 & w2 & -> & (c & -> & Hc) & H2). destruct (IH _ H2) as [<- Hall].
    split; [done|]. by constructor.
Qed.

Lemma exec_times_S n r x k :
  exec (Times (S n) r) x k = exec r x (λ y, exec (Times n r) y k).
Proof. reflexivity. Qed.

Lemma exec_class p i c t g k :
  exec (Class p) (Cursor i (c :: t) g) k
  = if p c then k (Cursor (S i) t g) else None.
Proof. reflexivity. Qed.

Lemma exec_times_class p k : ∀ w i t g,
  Forall (λ c, p c = true) w →
  exec (Times (length w) (Class p)) (Cursor i (w ++ t) g) k
  = k (Cursor (i + length w) t g).
Proof.
  induction w as [|c w IH]; intros i t g Hall.
  - cbn. by rewrite Nat.add_0_r.
  - apply Forall_cons in Hall as [Hc Hall]. cbn [length app].
    rewrite exec_times_S, exec_class, Hc. cbv beta. rewrite IH by done.
    by replace (i + S (length w)) with (S i + length w) by lia.
Qed.

Lemma exec_seq r1 r2 x k : exec (Seq r1 r2) x k = exec r1 x (λ y, exec r2 y k).
Proof. reflexivity. Qed.

Lemma exec_alt r1 r2 x k :
  exec (Alt r1 r2) x k
  = match exec r1 x k with
    | Some z => Some z
    | None => exec r2 x k
    end.
Proof. reflexivity. Qed.

Lemma exec_group r x k :
  exec (Group r) x k
  = exec r x (λ y, k (Cursor (index y) (rest y) (Some (take (index y - index x) (rest x))))).
Proof. reflexivity. Qed.

Lemma search_from_hit r i input z :
  exec r (Cursor i input None) Some = Some z → search_from r i input = Some z.
Proof. intros H. destruct input; cbn [search_from]; by rewrite H. Qed.

(** The group of the first pattern, on eleven characters of the class. *)
Lemma exec_id_group (w t : list ascii) i g :
  length w = 11 → Forall (λ c, id_char c = true) w →
  exec (Group (Times 11 (Class id_char))) (Cursor i (w ++ t) g) Some
  = Some (Cursor (i + 11) t (Some w)).
Proof.
  intros Hlen Hall. rewrite exec_group, <- Hlen, exec_times_class by done.
  cbn [index rest]. do 2 f_equal.
  replace (i + length w - i) with (length w) by lia. by rewrite take_app_length.
Qed.

(** ** The two patterns *)

(** A match of the first pattern captures eleven characters of [[\w-]]
    that follow, in the input, a stretch with a dot in it. *)
Lemma url_capture input m :
  search url_pattern input = Some m →
  ∃ pre dotted id post,
    String.list_ascii_of_string input = pre ++ dotted ++ id ++ post
    ∧ "."%char ∈ dotted
    ∧ group1 m = Some id
    ∧ length id = 11 ∧ Forall (λ c, id_char c = true) id.
Proof.
  unfold search. intros H.
  apply search_sound in H as (pre & t & Hinput & H).
  unfold url_pattern in H. rewrite exec_seq in H.
  apply exec_sound in H as (w1 & y1 & Hx & _ & Hm1 & H). cbn [rest] in Hx.
  rewrite exec_group in H.
  apply exec_sound in H as (w2 & y2 & Hy & Hi & Hm2 & H).
  apply matches_times_class in Hm2 as [Hlen Hall].
  injection H as <-. cbn [group1].
  exists pre, w1, w2, (rest y2). rewrite Hinput, Hx, Hy.
  split; [done|]. split.
  - cbn in Hm1. destruct Hm1 as [(w11 & w12 & -> & -> & _)| ->]; cbn; set_solver.
  - rewrite Hi. replace (index y1 + length w2 - index y1) with (length w2) by lia.
    by rewrite take_app_length.
Qed.

(** The second pattern tests for eleven characters of [[\w-]] and
    nothing else. *)
Lemma id_search input : is_Some (search id_pattern input) ↔ is_video_id input.
Proof.
  unfold search, is_video_id. rewrite <- length_units.
  set (l := String.list_ascii_of_string input). split.
  - intros [z H]. apply search_sound in H as (pre & t & Hl & H).
    unfold id_pattern in H. rewrite exec_seq in H. cbn [exec index] in H.
    destruct pre as [|c pre]; [|done]. cbn in Hl. subst t.
    change (exec (Seq (Times 11 (Class id_char)) Eol) (Cursor 0 l None) Some = Some z) in H.
    rewrite exec_seq in H.
    apply exec_sound in H as (w & y & Hx & _ & Hm & H). cbn [rest] in Hx.
    apply matches_times_class in Hm as [Hlen Hall].
    cbn [exec] in H. destruct (rest y); [|done].
    rewrite app_nil_r in Hx. by rewrite Hx.
  - intros [Hlen Hall]. eexists. apply search_from_hit.
    unfold id_pattern. rewrite exec_seq.
    change (exec Bol (Cursor 0 l None) ?k) with (k (Cursor 0 l None)).
    cbv beta. rewrite exec_seq.
    pose proof (exec_times_class id_char (λ y, exec Eol y Some) l 0 [] None Hall) as E.
    rewrite Hlen, app_nil_r in E. rewrite E. reflexivity.
Qed.

(** The first pattern finds nothing in a string of [[\w-]]. *)
Lemma url_search_id input :
  Forall (λ c, id_char c = true) (String.list_ascii_of_string input) →
  search url_pattern input = None.
Proof.
  intros Hall. destruct (search url_pattern input) as [m|] eqn:H; [|done].
  apply url_capture in H as (pre & dotted & id & post & Hinput & Hdot & _).
  rewrite Hinput in Hall.
  apply Forall_app in Hall as [_ [Hall _]%Forall_app].
  rewrite Forall_forall in Hall. by specialize (Hall _ Hdot).
Qed.

Lemma extract_shape input :
  extractYouTubeId input = "" ∨ is_video_id (extractYouTubeId input).
Proof.
  unfold extractYouTubeId.
  assert (match search id_pattern input with Some _ => input | None => "" end = ""
          ∨ is_video_id (match search id_pattern input with
                         | Some _ => input | None => "" end)) as Hfallback.
  { destruct (search id_pattern input) as [z|] eqn:H; [right|by left].
    apply id_search. by rewrite H. }
  destruct (search url_pattern input) as [m|] eqn:Hu; [|done].
  apply url_capture in Hu as (_ & _ & id & _ & _ & _ & -> & Hlen & Hall).
  destruct id as [|c id]; [done|]. right. split.
  - by rewrite length_of_units.
  - by rewrite String.list_ascii_of_string_of_list_ascii.
Qed.

Lemma extract_id s : is_video_id s → extractYouTubeId s = s.
Proof.
  intros Hid. unfold extractYouTubeId.
  rewrite (url_search_id s) by apply Hid.
  apply id_search in Hid as [z ->]. done.
Qed.

(** X23. [extractYouTubeId] returns either the empty string or eleven
    characters of [[\w-]], for every input; it returns a string of
    eleven such characters as it is; hence extracting twice is
    extracting once. *)
Theorem extracted_is_an_id_or_nothing input :
  (extractYouTubeId input = "" ∨ is_video_id (extractYouTubeId input))
  ∧ (is_video_id input → extractYouTubeId input = input)
  ∧ extractYouTubeId (extractYouTubeId input) = extractYouTubeId input.
Proof.
  split; [apply extract_shape|]. split; [apply extract_id|].
  destruct (extract_shape input) as [-> | Hid]; [by vm_compute|].
  by apply extract_id.
Qed.

Lemma extracted_is_an_id_or_nothing_witness :
  extractYouTubeId "dQw4w9WgXcQ" = "dQw4w9WgXcQ".
Proof.
  apply (proj1 (proj2 (extracted_is_an_id_or_nothing "dQw4w9WgXcQ"))).
  split; [reflexivity|]. repeat constructor.
Defined.

(** ** Links *)

Lemma search_from_miss r i c input :
  exec r (Cursor i (c :: input) None) Some = None →
  search_from r i (c :: input) = search_from r (S i) input.
Proof. intros H. cbn [search_from]. by rewrite H. Qed.

Lemma greedy_none p k : ∀ w i g,
  Forall (λ c, p c = true) w →
  (∀ w1 w2, w = w1 ++ w2 → k (Cursor (i + length w1) w2 g) = None) →
  greedy p i w g k = None.
Proof.
  induction w as [|c w IH]; intros i g Hall Hk.
  - cbn. rewrite <- (Hk [] []) by done. cbn. by rewrite Nat.add_0_r.
  - apply Forall_cons in Hall as [Hc Hall]. cbn [greedy]. rewrite Hc.
    rewrite IH; [|done|].
    + rewrite <- (Hk [] (c :: w)) by done. cbn. by rewrite Nat.add_0_r.
    + intros w1 w2 ->. rewrite <- (Hk (c :: w1) w2) by done. cbn.
      by replace (i + S (length w1)) with (S i + length w1) by lia.
Qed.

(** A character of an id is no separator of any kind. *)
Lemma id_char_plain c :
  id_char c = true →
  segment c = true ∧ dot c = true ∧ query_mark c = false
  ∧ Ascii.eqb "/" c = false.
Proof.
  destruct c as [[] [] [] [] [] [] [] []]; vm_compute; intuition congruence.
Qed.

Lemma id_chars_plain w :
  Forall (λ c, id_char c = true) w →
  Forall (λ c, segment c = true) w ∧ Forall (λ c, dot c = true) w.
Proof.
  intros Hall. split; eapply Forall_impl; try exact Hall;
    intros c Hc; by destruct (id_char_plain c Hc) as (? & ? & ? & ?).
Qed.

Lemma suffix_id_chars (w w1 w2 : list ascii) :
  Forall (λ c, id_char c = true) w → w = w1 ++ w2 →
  w2 = [] ∨ ∃ c w', w2 = c :: w' ∧ query_mark c = false ∧ Ascii.eqb "/" c = false.
Proof.
  intros Hall ->. apply Forall_app in Hall as [_ Hall].
  destruct w2 as [|c w']; [by left|right].
  apply Forall_cons in Hall as [Hc _].
  destruct (id_char_plain c Hc) as (_ & _ & ? & ?). by exists c, w'.
Qed.

(** After [youtube.com/], on [watch?v=] and an id: the first two
    alternatives fail and the third stops behind [v=]. *)
Lemma exec_watch (w : list ascii) i g k :
  Forall (λ c, id_char c = true) w →
  exec (Alt (Seq (Plus segment) (Seq (Lit "/") (Seq (Plus non_space) (Lit "/"))))
       (Alt (Seq (Alt (Lit "v") (Alt (Seq (Lit "e") (Opt (Lit "mbed"))) (Lit "shorts")))
               (Lit "/"))
            (Seq (Star dot) (Seq (Class query_mark) (Lit "v=")))))
    (Cursor i (String.list_ascii_of_string "watch?v=" ++ w) g) k
  = k (Cursor (i + 8) w g).
Proof.
  intros Hall. destruct (id_chars_plain w Hall) as [Hseg Hdot].
  cbn -[Nat.add].
  rewrite (greedy_none segment).
  2: exact Hseg.
  2:{ intros w1 w2 Hw. destruct (suffix_id_chars _ _ _ Hall Hw) as [->|(c & w' & -> & _ & Hc)];
        [done|]. by destruct c as [[] [] [] [] [] [] [] []]. }
  rewrite (greedy_none dot).
  2: exact Hdot.
  2:{ intros w1 w2 Hw. destruct (suffix_id_chars _ _ _ Hall Hw) as [->|(c & w' & -> & Hc & _)];
        [done|]. by destruct c as [[] [] [] [] [] [] [] []]. }
  repeat match goal with
    | |- context [segment ?c] =>
        let b := eval vm_compute in (segment c) in change (segment c) with b
    | |- context [dot ?c] =>
        let b := eval vm_compute in (dot c) in change (dot c) with b
    | |- context [query_mark ?c] =>
        let b := eval vm_compute in (query_mark c) in change (query_mark c) with b
    end.
  cbn -[Nat.add].
  destruct (k _) eqn:Hk; rewrite <- Hk; do 2 f_equal; lia.
Qed.

(** X24. The two common links.  For every id of eleven characters of
    [[\w-]], [extractYouTubeId] returns the id of a [youtu.be] link,
    whatever follows the id, and the id of a [watch?v=] link that ends
    with it. *)
Theorem links_give_their_id id post :
  is_video_id id →
  extractYouTubeId ("https://youtu.be/" +:+ id +:+ post) = id
  ∧ extractYouTubeId ("https://www.youtube.com/watch?v=" +:+ id) = id.
Proof.
  intros [Hlen Hall]. rewrite <- length_units in Hlen.
  assert (∃ c w, String.list_ascii_of_string id = c :: w) as (c & w & Hid).
  { destruct (String.list_ascii_of_string id) as [|c w]; [done|]. by exists c, w. }
  split.
  - assert (search url_pattern ("https://youtu.be/" +:+ id +:+ post)
            = Some (Cursor 28 (String.list_ascii_of_string post)
                      (Some (String.list_ascii_of_string id)))) as Hs.
    { unfold search. rewrite units_app. cbn [String.list_ascii_of_string app].
      rewrite units_app.
      do 8 (rewrite search_from_miss by reflexivity).
      apply search_from_hit. unfold url_pattern. rewrite exec_seq.
      change (exec (Alt ?a (Lit "youtu.be/")) (Cursor 8 ?l None) ?k)
        with (k (Cursor 17 (String.list_ascii_of_string id
                            ++ String.list_ascii_of_string post) None)).
      cbv beta. by rewrite exec_id_group. }
    unfold extractYouTubeId. rewrite Hs. cbn [group1]. rewrite Hid, <- Hid.
    apply String.string_of_list_ascii_of_string.
  - assert (search url_pattern ("https://www.youtube.com/watch?v=" +:+ id)
            = Some (Cursor 43 [] (Some (String.list_ascii_of_string id)))) as Hs.
    { unfold search. rewrite units_app. cbn [String.list_ascii_of_string app].
      do 12 (rewrite search_from_miss by reflexivity).
      apply search_from_hit. unfold url_pattern. rewrite exec_seq.
      rewrite exec_alt.
      change (exec (Seq (Lit "youtube.com/") ?a) (Cursor 12 ?l None) ?k)
        with (exec a (Cursor 24 (String.list_ascii_of_string "watch?v="
                                 ++ String.list_ascii_of_string id) None) k).
      rewrite exec_watch by done. cbv beta.
      rewrite <- (app_nil_r (String.list_ascii_of_string id)) at 1.
      by rewrite exec_id_group. }
    unfold extractYouTubeId. rewrite Hs. cbn [group1]. rewrite Hid, <- Hid.
    apply String.string_of_list_ascii_of_string.
Qed.

Lemma links_give_their_id_witness :
  extractYouTubeId "https://youtu.be/dQw4w9WgXcQ?t=42" = "dQw4w9WgXcQ"
  ∧ extractYouTubeId "https://www.youtube.com/watch?v=dQw4w9WgXcQ" = "dQw4w9WgXcQ".
Proof.
  apply (links_give_their_id "dQw4w9WgXcQ" "?t=42").
  split; [reflexivity|]. repeat constructor.
Defined.

End VideoIdFacts.

(* ===================================================================== *)
(** * Client, relay, client: what one page makes another do *)
(* ===================================================================== *)

Module EndToEnd.
Import Js Client Server Controls.

Section Wire.
Context {PC P : Type} `{!PeerConnection PC} `{!Player P}.

Ltac run_handler :=
  unfold invoke, onmessage, startCall, handleYTStateChange, onicecandidate, onopen,
    try_catch, when;
  cbv [mbind Eff_bind mret Eff_ret lift gets modify JSON_parse get log on_pc on_player
       ws_send_opt ws_send setError current_time];
  cbn.

Ltac run_handler_upto_truthy :=
  unfold invoke, onmessage, onicecandidate, try_catch, when;
  cbv [mbind Eff_bind mret Eff_ret lift gets modify JSON_parse get log on_pc on_player
       ws_send_opt ws_send setError current_time];
  cbn -[truthy].

(** What reaches a connection other than the sender is the sender's frame
    as the relay rewrites it. *)
Lemma relayed_elsewhere st ws v fields st' out target envelope :
  st_conns st !! ws = Some v →
  is_str (assoc "type" fields) "join" = false →
  step st (Message ws (Wellformed (JObj fields))) = (st', out) →
  (target, envelope) ∈ out →
  target ≠ ws →
  envelope = relayed v fields.
Proof.
  intros Hv Hj Hstep Hin Hne.
  rewrite (RelayFacts.step_message _ _ _ v Hv) in Hstep. injection Hstep as _ <-.
  cbn [message_result] in Hin. rewrite Hj in Hin.
  destruct (_ || _); [|by apply elem_of_nil in Hin].
  unfold relay_result in Hin.
  destruct (ToPropertyKey (roomId v)) as [k|e]; cbn in Hin;
    [|apply list_elem_of_singleton in Hin; congruence].
  destruct (rooms_get (st_rooms st) k); cbn in Hin;
    try (apply list_elem_of_singleton in Hin; congruence);
    by apply list_elem_of_fmap in Hin as (p & [= -> ->] & _).
Qed.

(** Replace a delivered envelope by what the relay made of the frame. *)
Ltac delivered Hv Hstep Hin Hne :=
  cbn in Hstep;
  let H := fresh in
  pose proof (λ Hj, relayed_elsewhere _ _ _ _ _ _ _ _ Hv Hj Hstep Hin Hne) as H;
  rewrite H by reflexivity; clear H.

(** ** Joining *)

(** X18. What the client sends when its socket opens is a [join] the
    relay accepts: when the room of the page is not a name [rooms]
    inherits, the relay answers [joined] with that room and appends to
    the room a record of the connection under the client's name, with the
    32 zero bytes of the dummy key. *)
Theorem client_join_is_accepted (c : client PC P) (k : closure) s st ws v :
  wsRef c = Some s →
  ws_open s = true →
  k_room k ∉ Object_prototype →
  st_conns st !! ws = Some v →
  ∃ sent st',
    calls (invoke (onopen k) c) = calls c ++ [WsSend sent]
    ∧ wsReady (invoke (onopen k) c) = true
    ∧ step st (Message ws (Wellformed sent))
      = (Running st', [(ws, JObj [("type", JStr "joined"); ("room", JStr (k_room k))])])
    ∧ peersOf (st_rooms st') (k_room k)
      = peersOf (st_rooms st) (k_room k)
        ++ [Peer ws (Some (JStr (k_username k))) (Bytes (replicate 32 0%N))]
    ∧ st_conns st' !! ws
      = Some (Vars (Some (JStr (k_room k))) (Some (JStr (k_username k)))
                (Some (Bytes (replicate 32 0%N)))).
Proof.
  intros Hs Hopen Hroom Hv.
  destruct c as [? ? ? ? ? ? ? ? ? ? ws0 ? ? ? ? ? ? ?]. cbn in Hs. subst ws0.
  destruct k as [kroom kuser khost kdis]. cbn in Hroom.
  eexists _, _. split; [|split; [|split; [|split]]].
  - run_handler. rewrite Hopen. cbn. reflexivity.
  - run_handler. by rewrite Hopen.
  - rewrite (RelayFacts.step_message _ _ _ v Hv). cbn.
    pose proof (RelayMore.not_inherited (st_rooms st) kroom Hroom) as Hslot.
    destruct (rooms_get (st_rooms st) kroom); [|done|]; reflexivity.
  - cbn. apply RelayFacts.peersOf_insert_eq.
  - cbn. by rewrite lookup_insert_eq.
Qed.

(** ** Playback *)

(** X19. From the handler of a host's player to the viewers' players.
    When [handleYTStateChange] runs with the values of a render in which
    the client was host and sync was enabled, for a player that starts
    playing, pauses or buffers, the client sends one envelope; whatever
    the relay then delivers of it to another connection makes a client
    that holds a player, and whose socket handlers were created with
    sync enabled, call [playVideo], [pauseVideo] or [seekTo] on it, the
    latter with the sender's current time as it is decoded. *)
Theorem host_state_reaches_viewers (host viewer : client PC P) (kh kv : closure)
    (state : Z) s st ws v id p :
  wsRef host = Some s →
  ws_open s = true →
  k_isHost kh = true →
  k_disableSync kh = false →
  (state = 1 ∨ state = 2 ∨ state = 3)%Z →
  st_conns st !! ws = Some v →
  ytPlayerRef viewer = Some (id, p) →
  k_disableSync kv = false →
  ∃ sent,
    calls (invoke (handleYTStateChange kh state) host) = calls host ++ [WsSend sent]
    ∧ ∀ st' out target envelope,
        step st (Message ws (Wellformed sent)) = (st', out) →
        (target, envelope) ∈ out →
        target ≠ ws →
        ytPlayerRef (invoke (onmessage kv (Wellformed envelope)) viewer)
        = Some (id, if (state =? 1)%Z then playVideo p
                    else if (state =? 2)%Z then pauseVideo p
                    else seekTo (wire <$> current_time host) true p).
Proof.
  intros Hs Hopen Hhost Hsync Hstate Hv Hplayer Hkv.
  destruct host as [? ? ? ? ? ? ? ? ? ? ws0 ? hplayer ? ? ? ? ?]. cbn in Hs. subst ws0.
  destruct viewer as [? ? ? ? ? ? ? ? ? ? ? ? vplayer ? ? ? ? ?]. cbn in Hplayer. subst vplayer.
  destruct kh as [hroom huser hhost hdis]. cbn in Hhost, Hsync. subst.
  destruct kv as [vroom vuser vhost vdis]. cbn in Hkv. subst.
  destruct Hstate as [->|[->| ->]].
  - eexists. split; [run_handler; rewrite Hopen; reflexivity|].
    intros st' out target envelope Hstep Hin Hne.
    delivered Hv Hstep Hin Hne.
    by run_handler.
  - eexists. split; [run_handler; rewrite Hopen; reflexivity|].
    intros st' out target envelope Hstep Hin Hne.
    delivered Hv Hstep Hin Hne.
    by run_handler.
  - destruct hplayer as [[hid hp]|].
    + eexists. split; [run_handler; rewrite Hopen; reflexivity|].
      intros st' out target envelope Hstep Hin Hne.
      delivered Hv Hstep Hin Hne.
      run_handler. by rewrite JsFacts.wire_idempotent.
    + eexists. split; [run_handler; rewrite Hopen; reflexivity|].
      intros st' out target envelope Hstep Hin Hne.
      delivered Hv Hstep Hin Hne.
      by run_handler.
Qed.

(** ** Negotiation *)

(** X20. From "Start Call" to the answer.  The offer a ready client
    sends, when it holds finite numbers only, is delivered by the relay
    to another connection as it was created, and makes a client that
    holds a negotiation object set it as remote description, create an
    answer, set the answer as local description and send it, when the
    browser accepts each step. *)
Theorem offer_reaches_responder (host viewer : client PC P) (kv : closure)
    s pc offer pc1 pc2 st ws v sv pcv :
  wsReady host = true →
  pcRef host = Some pc →
  wsRef host = Some s →
  ws_open s = true →
  createOffer pc = (Ok offer, pc1) →
  setLocalDescription offer pc1 = (Ok tt, pc2) →
  kind_of offer = Some (JStr "offer") →
  all_finite offer = true →
  st_conns st !! ws = Some v →
  pcRef viewer = Some pcv →
  wsRef viewer = Some sv →
  ws_open sv = true →
  ∃ sent,
    calls (invoke startCall host)
    = calls host ++ [CreateOffer; SetLocalDescription offer; WsSend sent]
    ∧ ∀ st' out target envelope answer pv1 pv2 pv3,
        step st (Message ws (Wellformed sent)) = (st', out) →
        (target, envelope) ∈ out →
        target ≠ ws →
        setRemoteDescription offer pcv = (Ok tt, pv1) →
        createAnswer pv1 = (Ok answer, pv2) →
        setLocalDescription answer pv2 = (Ok tt, pv3) →
        calls (invoke (onmessage kv (Wellformed envelope)) viewer)
        = calls viewer ++ answering kv offer answer
        ∧ pcRef (invoke (onmessage kv (Wellformed envelope)) viewer) = Some pv3.
Proof.
  intros Hready Hpc Hs Hopen Hoffer Hlocal Hkind Hfin Hv Hpcv Hsv Hopenv.
  destruct host as [? ? ? ? ready ? ? ? ? ? ws0 pc0 ? ? ? ? ? ?].
  cbn in Hready, Hpc, Hs. subst.
  destruct viewer as [? ? ? ? ? ? ? ? ? ? ws1 pc1' ? ? ? ? ? ?]. cbn in Hpcv, Hsv. subst.
  assert (get (Some offer) "type" = Ok (Some (JStr "offer"))) as Hget.
  { destruct offer; try done. cbn in *. by rewrite Hkind. }
  assert (truthy (Some offer) = true) as Ht by by destruct offer.
  unfold get in Hget.
  eexists. split.
  { run_handler. rewrite Hoffer. cbn. rewrite Hlocal. cbn. rewrite Hopen. cbn.
    rewrite <- !app_assoc. reflexivity. }
  intros st' out target envelope answer pv1 pv2 pv3 Hstep Hin Hne H1 H2 H3.
  cbn in Hstep.
  pose proof (λ Hj, relayed_elsewhere _ _ _ _ _ _ _ _ Hv Hj Hstep Hin Hne) as Henv.
  rewrite Henv by reflexivity. clear Henv.
  unfold relayed, signal_envelope, JSON_stringify. cbn.
  rewrite !(JsFacts.wire_all_finite offer Hfin).
  destruct (userId v) as [from|]; cbn -[truthy]; run_handler_upto_truthy;
    rewrite Ht; cbn; rewrite H1; cbn; rewrite Hget; cbn;
    rewrite H2; cbn; rewrite H3; cbn;
    rewrite Hopenv; cbn; by rewrite <- !app_assoc.
Qed.

(** X21. The answer, on its way back: the envelope a responder sends
    with its answer, when the answer holds finite numbers only, is
    delivered by the relay to another connection as it was created, and
    makes a client that holds a negotiation object set the answer as its
    remote description, and nothing more. *)
Theorem answer_reaches_initiator (host : client PC P) (kh kv : closure)
    answer st ws v pc o pc1 :
  is_str (kind_of answer) "offer" = false →
  truthy (Some answer) = true →
  all_finite answer = true →
  st_conns st !! ws = Some v →
  pcRef host = Some pc →
  setRemoteDescription answer pc = (o, pc1) →
  ∀ st' out target envelope,
    step st (Message ws
               (Wellformed (JSON_stringify
                  (signal_literal (k_room kv) (k_username kv) [("sdp", answer)]))))
    = (st', out) →
    (target, envelope) ∈ out →
    target ≠ ws →
    calls (invoke (onmessage kh (Wellformed envelope)) host)
    = calls host ++ [SetRemoteDescription answer]
    ∧ pcRef (invoke (onmessage kh (Wellformed envelope)) host) = Some pc1.
Proof.
  intros Hkind Ht Hfin Hv Hpc Hset st' out target envelope Hstep Hin Hne.
  cbn in Hstep.
  pose proof (λ Hj, relayed_elsewhere _ _ _ _ _ _ _ _ Hv Hj Hstep Hin Hne) as Henv.
  rewrite Henv by reflexivity. clear Henv.
  destruct host as [? ? ? ? ? ? ? ? ? ? ? pc0 ? ? ? ? ? ?]. cbn in Hpc. subst.
  assert (get (Some answer) "type" = Ok (kind_of answer)) as Hget.
  { destruct answer; try done. }
  unfold get in Hget.
  unfold relayed, signal_envelope, JSON_stringify. cbn.
  rewrite !(JsFacts.wire_all_finite answer Hfin).
  destruct (userId v) as [from|]; cbn -[truthy]; run_handler_upto_truthy;
    rewrite Ht; cbn; rewrite Hset; destruct o as [[]|e]; cbn; try done;
    rewrite Hget; cbn; rewrite Hkind; by destruct (is_str (kind_of answer) "answer").
Qed.

(** X22. Candidates.  The end of gathering (a null candidate) sends
    nothing.  A candidate is sent in one [signal] envelope; when it
    holds finite numbers only, the relay delivers it to another
    connection as it was gathered, and it makes a client that holds a
    negotiation object hand it to [addIceCandidate]. *)
Theorem candidate_reaches_peer (c peer : client PC P) (k kp : closure)
    candidate s st ws v pc o pc1 :
  wsRef c = Some s →
  ws_open s = true →
  st_conns st !! ws = Some v →
  pcRef peer = Some pc →
  invoke (onicecandidate k None) c = c
  ∧ invoke (onicecandidate k (Some JNull)) c = c
  ∧ (truthy (Some candidate) = true →
     all_finite candidate = true →
     addIceCandidate candidate pc = (o, pc1) →
     ∃ sent,
       calls (invoke (onicecandidate k (Some candidate)) c) = calls c ++ [WsSend sent]
       ∧ ∀ st' out target envelope,
           step st (Message ws (Wellformed sent)) = (st', out) →
           (target, envelope) ∈ out →
           target ≠ ws →
           calls (invoke (onmessage kp (Wellformed envelope)) peer)
           = calls peer ++ [AddIceCandidate candidate]
           ∧ pcRef (invoke (onmessage kp (Wellformed envelope)) peer) = Some pc1).
Proof.
  intros Hs Hopen Hv Hpc.
  destruct c as [? ? ? ? ? ? ? ? ? ? ws0 ? ? ? ? ? ? ?]. cbn in Hs. subst.
  destruct peer as [? ? ? ? ? ? ? ? ? ? ? pc0 ? ? ? ? ? ?]. cbn in Hpc. subst.
  split; [done|]. split; [done|].
  intros Ht Hfin Hadd. eexists. split.
  { run_handler_upto_truthy. rewrite Ht. cbn. rewrite Hopen. cbn.
    reflexivity. }
  intros st' out target envelope Hstep Hin Hne.
  cbn in Hstep.
  pose proof (λ Hj, relayed_elsewhere _ _ _ _ _ _ _ _ Hv Hj Hstep Hin Hne) as Henv.
  rewrite Henv by reflexivity. clear Henv.
  unfold relayed, signal_envelope, JSON_stringify. cbn.
  rewrite !(JsFacts.wire_all_finite candidate Hfin).
  destruct (userId v) as [from|]; cbn -[truthy]; run_handler_upto_truthy;
    rewrite Ht; cbn; rewrite Hadd; by destruct o as [[]|e].
Qed.

(** ** Changing the video *)

(** X25. The input box.  [handleVideoIdChange] stores what was typed.
    On a page that is not the host's, or whose sync is disabled, or that
    has no socket, or when no id can be extracted from the input, it
    does nothing else.  On the host's page, with sync enabled and the
    socket open, it sends one [load] envelope with the extracted id,
    which is eleven characters of [[\w-]]; whatever the relay delivers
    of it to another connection makes a client that holds a player, and
    whose socket handlers were created with sync enabled, call
    [loadVideoById] with that id. *)
Theorem video_change_reaches_viewers (host viewer : client PC P) (kv : closure)
    input s st ws v id p :
  let extracted := VideoId.extractYouTubeId input in
  (wsRef host = None ∨ isHost host = false ∨ disableSync host = true ∨ extracted = "" →
   invoke (handleVideoIdChange input) host = set_videoId input host)
  ∧ (wsRef host = Some s → ws_open s = true →
     isHost host = true → disableSync host = false →
     extracted ≠ "" →
     st_conns st !! ws = Some v →
     ytPlayerRef viewer = Some (id, p) →
     k_disableSync kv = false →
     VideoId.is_video_id extracted
     ∧ ∃ sent,
         invoke (handleVideoIdChange input) host
         = set_calls (calls host ++ [WsSend sent]) (set_videoId input host)
         ∧ ∀ st' out target envelope,
             step st (Message ws (Wellformed sent)) = (st', out) →
             (target, envelope) ∈ out →
             target ≠ ws →
             ytPlayerRef (invoke (onmessage kv (Wellformed envelope)) viewer)
             = Some (id, loadVideoById (Some (JStr extracted)) p)).
Proof.
  intros extracted.
  pose proof (VideoIdFacts.extract_shape input) as Hshape. fold extracted in Hshape.
  assert (∀ c : client PC P,
            invoke (handleVideoIdChange input) c
            = if negb (String.eqb extracted "") && is_some (wsRef c) && isHost c
                 && negb (disableSync c)
              then invoke (ws_send (yt_sync_literal (room c) "load" None
                                      (Some (JStr extracted))))
                     (set_videoId input c)
              else set_videoId input c) as Hrun.
  { intros c. unfold invoke, handleVideoIdChange. fold extracted.
    cbv [mbind Eff_bind mret Eff_ret gets modify render_values].
    destruct c. cbn. by destruct (_ && _). }
  clearbody extracted. split.
  - intros Hoff. rewrite Hrun.
    destruct Hoff as [Hoff|[Hoff|[Hoff|Hoff]]]; rewrite Hoff; cbn;
      by rewrite ?andb_false_r.
  - intros Hs Hopen Hhost Hsync Hne Hv Hplayer Hkv.
    destruct Hshape as [?|Hid]; [done|]. split; [done|].
    rewrite Hrun, Hs, Hhost, Hsync.
    destruct (String.eqb_spec extracted "") as [?|_]; [done|]. cbn [negb andb is_some].
    destruct host as [? ? ? ? ? ? ? ? ? ? ws0 ? ? ? ? ? ? ?]. cbn in Hs. subst ws0.
    unfold invoke, ws_send. cbn. rewrite Hopen.
    eexists. split; [reflexivity|].
    intros st' out target envelope Hstep Hin Hne'.
    delivered Hv Hstep Hin Hne'.
    destruct viewer as [? ? ? ? ? ? ? ? ? ? ? ? vplayer ? ? ? ? ?]. cbn in Hplayer. subst.
    destruct kv as [vroom vuser vhost vdis]. cbn in Hkv. subst.
    by run_handler.
Qed.

End Wire.

Lemma client_join_is_accepted_witness :
  ∃ sent st',
    calls (invoke (onopen alice_closure) alice_waiting) = calls alice_waiting ++ [WsSend sent]
    ∧ step connected (Message 0 (Wellformed sent))
      = (Running st', [(0, JObj [("type", JStr "joined"); ("room", JStr "ABCD")])])
    ∧ peersOf (st_rooms st') "ABCD"
      = [Peer 0 (Some (JStr "alice")) (Bytes (replicate 32 0%N))].
Proof.
  destruct (client_join_is_accepted alice_waiting alice_closure (Socket true alice_closure)
              connected 0 fresh_vars)
    as (sent & st' & Hcalls & _ & Hstep & Hpeers & _).
  - reflexivity.
  - reflexivity.
  - cbn. unfold Object_prototype. set_solver.
  - reflexivity.
  - exists sent, st'. split; [exact Hcalls|]. split; [exact Hstep|]. exact Hpeers.
Defined.

Lemma host_state_reaches_viewers_witness :
  ytPlayerRef (invoke (onmessage bob_closure play_frame) bob_joined)
  = Some (0, YtPlayer 1 (JNum "42.5") (Some (JStr "dQw4w9WgXcQ"))).
Proof.
  destruct (host_state_reaches_viewers host_replayed bob_joined (render_values host_replayed)
              bob_closure 1 (Socket true alice_closure) two_joined 0 alice_vars 0 paused_player)
    as (sent & Hcalls & Hall); [reflexivity|reflexivity|reflexivity|reflexivity|by left|reflexivity|reflexivity|reflexivity|].
  assert (sent = JObj [("type", JStr "yt-sync"); ("room", JStr "ABCD");
                       ("action", JStr "play")]) as ->.
  { vm_compute in Hcalls. vm_compute. congruence. }
  eapply (Hall _ _ 1); [reflexivity|apply list_elem_of_here|done].
Defined.

Lemma offer_reaches_responder_witness :
  calls (invoke (onmessage bob_closure (Wellformed (JObj
           [("type", JStr "signal"); ("from", JStr "alice");
            ("payload", JObj [("sdp", description "offer" 0)])]))) bob_joined)
  = calls bob_joined ++ answering bob_closure (description "offer" 0) (description "answer" 0).
Proof.
  destruct (offer_reaches_responder alice_joined bob_joined bob_closure
              (Socket true alice_closure)
              (BrowserPc Stable None None ["audio"; "video"] [] 0)
              (description "offer" 0)
              (BrowserPc Stable None None ["audio"; "video"] [] 1)
              (BrowserPc HaveLocalOffer (Some (description "offer" 0)) None
                 ["audio"; "video"] [] 1)
              two_joined 0 alice_vars
              (Socket true bob_closure)
              (BrowserPc Stable None None ["audio"; "video"] [] 0))
    as (sent & Hcalls & Hall); [reflexivity..|].
  assert (sent = JObj [("type", JStr "signal"); ("room", JStr "ABCD"); ("user", JStr "alice");
                       ("payload", JObj [("sdp", description "offer" 0)])]) as ->.
  { vm_compute in Hcalls. vm_compute. congruence. }
  eapply (Hall _ _ 1 _ (description "answer" 0)
            (BrowserPc HaveRemoteOffer None (Some (description "offer" 0))
               ["audio"; "video"] [] 0)
            (BrowserPc HaveRemoteOffer None (Some (description "offer" 0))
               ["audio"; "video"] [] 1)
            (BrowserPc Stable (Some (description "answer" 0)) (Some (description "offer" 0))
               ["audio"; "video"] [] 1));
    [reflexivity|apply list_elem_of_here|done|reflexivity..].
Defined.

Lemma answer_reaches_initiator_witness :
  calls (invoke (onmessage alice_closure (Wellformed (JObj
           [("type", JStr "signal"); ("from", JStr "bob");
            ("payload", JObj [("sdp", description "answer" 0)])]))) alice_hosting)
  = calls alice_hosting ++ [SetRemoteDescription (description "answer" 0)]
  ∧ pcRef (invoke (onmessage alice_closure (Wellformed (JObj
             [("type", JStr "signal"); ("from", JStr "bob");
              ("payload", JObj [("sdp", description "answer" 0)])]))) alice_hosting)
    = Some (BrowserPc Stable (Some (description "offer" 0)) (Some (description "answer" 0))
              ["audio"; "video"] [] 1).
Proof.
  eapply (answer_reaches_initiator alice_hosting alice_closure bob_closure
            (description "answer" 0) two_joined 1 bob_vars
            (BrowserPc HaveLocalOffer (Some (description "offer" 0)) None
               ["audio"; "video"] [] 1)
            (Ok tt));
    [reflexivity..|apply list_elem_of_here|done].
Defined.

Lemma candidate_reaches_peer_witness :
  calls (invoke (onmessage bob_closure (Wellformed (JObj
           [("type", JStr "signal"); ("from", JStr "alice");
            ("payload", JObj [("candidate", host_candidate)])]))) bob_joined)
  = calls bob_joined ++ [AddIceCandidate host_candidate].
Proof.
  destruct (candidate_reaches_peer alice_hosting bob_joined alice_closure
              bob_closure host_candidate (Socket true alice_closure) two_joined 0 alice_vars
              (BrowserPc Stable None None ["audio"; "video"] [] 0)
              (Throw (DOMException "InvalidStateError: The remote description was null"))
              (BrowserPc Stable None None ["audio"; "video"] [] 0))
    as (_ & _ & Hsend); [reflexivity..|].
  destruct Hsend as (sent & Hcalls & Hall); [reflexivity..|].
  assert (sent = JObj [("type", JStr "signal"); ("room", JStr "ABCD"); ("user", JStr "alice");
                       ("payload", JObj [("candidate", host_candidate)])]) as ->.
  { vm_compute in Hcalls. vm_compute. congruence. }
  eapply Hall; [reflexivity|apply list_elem_of_here|done].
Defined.

Lemma video_change_reaches_viewers_witness :
  ytPlayerRef (invoke (onmessage bob_closure
                 (Wellformed (JObj [("type", JStr "yt-sync"); ("action", JStr "load");
                                    ("videoId", JStr "9bZkp7q19f0")]))) bob_joined)
  = Some (0, YtPlayer 1 (JNum "0") (Some (JStr "9bZkp7q19f0"))).
Proof.
  destruct (proj2 (video_change_reaches_viewers alice_hosting bob_joined bob_closure
                     "https://youtu.be/9bZkp7q19f0" (Socket true alice_closure)
                     two_joined 0 alice_vars 0 paused_player))
    as (_ & sent & Hsent & Hall);
    [reflexivity|reflexivity|reflexivity|reflexivity|by vm_compute
    |reflexivity|reflexivity|reflexivity|].
  assert (sent = JObj [("type", JStr "yt-sync"); ("room", JStr "ABCD");
                       ("action", JStr "load"); ("videoId", JStr "9bZkp7q19f0")]) as ->.
  { apply (f_equal calls) in Hsent. vm_compute in Hsent. vm_compute. congruence. }
  eapply (Hall _ _ 1); [vm_compute; reflexivity|apply list_elem_of_here|done].
Defined.

End EndToEnd.
